(** * Golden Wings: content classification and naming conventions

    A shallow embedding of [classify_content_types.py] and
    [design_naming_conventions.py], and the properties of the classification
    and naming engines proved (or refuted) on it.

    Conventions of the embedding:
    - a Python [str] is a [string] of one-byte characters; case folding and
      white space are those of ASCII;
    - a JSON object whose key order matters is an association list in
      insertion order;
    - an exception is a value of [exn]; code that may raise returns a
      [result];
    - the regular-expression engine and [str()] of a list are services of
      the Python runtime, taken as the interface [PyRuntime]. *)

From stdpp Require Import base list sorting strings pretty.
From Stdlib Require Import Ascii ZArith Lia.

(** ** Exceptions *)

Inductive exn :=
  | ValueError | TypeError | AttributeError | ReError | RuntimeError | SystemExit.

Inductive result (A : Type) :=
  | Ok (a : A)
  | Raise (e : exn).
Arguments Ok {A} a.
Arguments Raise {A} e.

Definition rbind {A B} (m : result A) (k : A → result B) : result B :=
  match m with
  | Ok a => k a
  | Raise e => Raise e
  end.

Notation "'let!' x ':=' m 'in' k" := (rbind m (λ x, k))
  (at level 10, x name, m at level 100, k at level 200).

Definition is_ok {A} (m : result A) : bool :=
  match m with Ok _ => true | Raise _ => false end.

(** ** Python values *)

Inductive scalar :=
  | SNone
  | SBool (b : bool)
  | SInt (z : Z)
  | SStr (s : string).

Inductive pyval :=
  | PScalar (v : scalar)
  | PList (l : list scalar).

Coercion PScalar : scalar >-> pyval.

Definition PNone : pyval := PScalar SNone.
Definition PStr (s : string) : pyval := PScalar (SStr s).
Definition PInt (z : Z) : pyval := PScalar (SInt z).

(** A field of a JSON object: the key may be absent, hold [null], or hold
    a value of the expected type. *)
Inductive field (A : Type) :=
  | Absent
  | Null
  | Val (a : A).
Arguments Absent {A}.
Arguments Null {A}.
Arguments Val {A} a.

(** [bool(v)] *)
Definition scalar_truthy (v : scalar) : bool :=
  match v with
  | SNone => false
  | SBool b => b
  | SInt z => negb (z =? 0)%Z
  | SStr s => negb (String.eqb s "")
  end.

Definition truthy (v : pyval) : bool :=
  match v with
  | PScalar s => scalar_truthy s
  | PList l => match l with [] => false | _ => true end
  end.

(** [v is not None] *)
Definition not_none (v : scalar) : bool :=
  match v with SNone => false | _ => true end.

(** [a or b] *)
Definition py_or (a b : pyval) : pyval := if truthy a then a else b.

(** ** Strings *)

Definition str_of_Z (z : Z) : string := pretty z.
Definition str_of_nat (n : nat) : string := pretty n.

Definition str_of_scalar (v : scalar) : string :=
  match v with
  | SNone => "None"
  | SBool true => "True"
  | SBool false => "False"
  | SInt z => str_of_Z z
  | SStr s => s
  end.

Definition lower_char (c : ascii) : ascii :=
  let n := nat_of_ascii c in
  if (65 <=? n)%nat && (n <=? 90)%nat then ascii_of_nat (n + 32) else c.

(** [s.lower()] *)
Fixpoint lower (s : string) : string :=
  match s with
  | "" => ""
  | String c r => String (lower_char c) (lower r)
  end.

(** [s.startswith(p)] *)
Definition startswith (p s : string) : bool := String.prefix p s.

(** [sub in s] *)
Fixpoint contains (sub s : string) : bool :=
  String.prefix sub s ||
  match s with
  | "" => false
  | String _ r => contains sub r
  end.

Definition is_space (c : ascii) : bool :=
  let n := nat_of_ascii c in
  (n =? 32)%nat || ((9 <=? n)%nat && (n <=? 13)%nat) ||
  ((28 <=? n)%nat && (n <=? 31)%nat).

Fixpoint lstrip (s : string) : string :=
  match s with
  | "" => ""
  | String c r => if is_space c then lstrip r else s
  end.

Fixpoint rstrip (s : string) : string :=
  match s with
  | "" => ""
  | String c r =>
      match rstrip r with
      | "" => if is_space c then "" else String c ""
      | r' => String c r'
      end
  end.

(** [s.strip()] *)
Definition strip (s : string) : string := rstrip (lstrip s).

(** [sep.join(l)] *)
Definition join (sep : string) (l : list string) : string := String.concat sep l.

(** [s.replace(old, new)] for a non-empty [old]: occurrences are replaced
    from left to right without overlap; [skip] counts the characters of a
    replaced occurrence still to be dropped. *)
Fixpoint replace_from (skip : nat) (old new s : string) : string :=
  match s with
  | "" => ""
  | String c r =>
      match skip with
      | S k => replace_from k old new r
      | O =>
          if String.prefix old s
          then new +:+ replace_from (String.length old - 1) old new r
          else String c (replace_from 0 old new r)
      end
  end.

Definition replace (old new s : string) : string := replace_from 0 old new s.

(** ** Insertion-ordered dictionaries *)

Section Dict.
Context {V : Type}.

(** [d.get(k)] *)
Fixpoint dget (k : string) (d : list (string * V)) : option V :=
  match d with
  | [] => None
  | (k', v) :: r => if String.eqb k k' then Some v else dget k r
  end.

(** [k in d] *)
Definition dmem (k : string) (d : list (string * V)) : bool :=
  match dget k d with Some _ => true | None => false end.

(** [d[k] = v]: an existing key keeps its position. *)
Fixpoint dset (k : string) (v : V) (d : list (string * V)) : list (string * V) :=
  match d with
  | [] => [(k, v)]
  | (k', v') :: r =>
      if String.eqb k k' then (k, v) :: r else (k', v') :: dset k v r
  end.

Definition dkeys (d : list (string * V)) : list string := d.*1.
End Dict.

(** [name in l] for a list of strings *)
Definition smem (x : string) (l : list string) : bool :=
  existsb (String.eqb x) l.

(** [list(dict.fromkeys(l))]: duplicates dropped, first occurrence kept. *)
Definition dedup_keep_first (l : list string) : list string :=
  foldl (λ seen x, if smem x seen then seen else seen ++ [x]) [] l.

(** ** The Python runtime services that are not modelled *)

(** A [datetime], without the fields that no modelled format prints. *)
Record datetime := {
  year : nat; month : nat; day : nat;
  hour : nat; minute : nat; second : nat;
}.

Class PyRuntime := {
  (** [re.compile(p, re.IGNORECASE)] succeeds *)
  re_valid : string → bool;
  (** [re.compile(p, re.IGNORECASE).search(text) is not None] *)
  re_search : string → string → bool;
  (** [str(l)] for a list [l] *)
  repr_list : list scalar → string;
  (** a stored modification value parsed by the first of the four
      [strptime] formats of [derive_date] that accepts it, else by
      [datetime.fromisoformat]; [None] when all of them raise *)
  parse_modified : string → option datetime;
  (** [datetime.now()] *)
  now : datetime;
  (** [str(Path(p).expanduser().resolve())]; [None] when it raises *)
  resolve_path : string → option string;
}.

(** [str(v)] *)
Definition str_of `{PyRuntime} (v : pyval) : string :=
  match v with
  | PScalar s => str_of_scalar s
  | PList l => repr_list l
  end.

(** [s.split(sep)] for a one-character separator *)
Fixpoint split_go (sep : ascii) (cur s : string) : list string :=
  match s with
  | "" => [cur]
  | String c r =>
      if Ascii.eqb c sep then cur :: split_go sep "" r
      else split_go sep (cur +:+ String c "") r
  end.

Definition split (sep : ascii) (s : string) : list string := split_go sep "" s.

(** [PurePosixPath(s).name]: the last component, empty and [.] components
    being dropped by the path parser. *)
Definition path_name (s : string) : string :=
  let parts :=
    List.filter (λ p, negb (String.eqb p "") && negb (String.eqb p "."))
                (split "/" s) in
  List.last parts "".

(** [sorted(set(l))] for strings *)
Fixpoint insert_sorted (x : string) (l : list string) : list string :=
  match l with
  | [] => [x]
  | y :: r =>
      if String.eqb x y then l
      else if String.ltb x y then x :: l
      else y :: insert_sorted x r
  end.

Definition sorted_set (l : list string) : list string :=
  foldr insert_sorted [] l.

(** * classify_content_types.py *)

Module Classify.

Definition PERSON_PATTERNS : list (string * string) :=
  [ ("\bcaleb\b", "Caleb_Stewart");
    ("\brobyn\b", "Robyn_Stewart");
    ("\bhenry\b", "Henry_Stewart");
    ("\bjay\b", "Jay_Ricks");
    ("\bjock\b", "Jock_Bethune");
    ("\bbethune\b", "Jock_Bethune");
    ("\bstewart\b", "Stewart_Family") ].

Definition FESTIVAL_PATTERNS : list (string * string) :=
  [ ("all[ _-]*around", "All_Around_Film_Festival");
    ("sundance", "Sundance_Film_Festival");
    ("tribeca", "Tribeca_Film_Festival");
    ("outfest", "Outfest");
    ("slamdance", "Slamdance") ].

Definition CONTEXT_PATTERNS : list (string * list string) :=
  [ ("production_meta",
      [ "behind[ _-]*the[ _-]*scenes"; "\bproduction\b"; "\bworkflow\b";
        "film[ _-]*journey" ]);
    ("subject_research", [ "\bhistory\b"; "\bresearch\b"; "\bbackground\b" ]);
    ("technical_interview", [ "\bmixdown\b"; "\baudio\b" ]) ].

(** What [Trigger.describe] and the heuristic bonuses put in the trace. *)
Inductive trace :=
  | DescRegex (target pattern : string) (score : Z)
  | DescKeyword (values : list string) (score : Z)
  | DescExtension (values : list string) (score : Z)
  | DescOther (type : string) (score : Z)
  | DescHeuristic (reason : string) (score : Z).

Record Insights := {
  Persons : list string;
  Festivals : list string;
  ContextFlags : list string;
}.

Definition no_insights : Insights :=
  {| Persons := []; Festivals := []; ContextFlags := [] |}.

Module FileRecord.

Record t := {
  raw : list (string * pyval);
  insights : Insights;
  category_scores : list (string * Z);
  matched_triggers : list (string * list trace);
  winning_category : string;
  winning_score : Z;
  rank : pyval;
  score : pyval;
  file_name : pyval;
  full_path : pyval;
  directory : pyval;
  size : pyval;
  size_bytes : pyval;
  modified : pyval;
  keywords : list string;
  keywords_lower : list string;
  extension : string;
  extension_lower : string;
  drive : pyval;
  exists_ : bool;
  extra_text : string;
}.

(** [self.raw.get(k)] *)
Definition raw_get (raw : list (string * pyval)) (k : string) : pyval :=
  default PNone (dget k raw).

(** Iterating the keyword value: a list gives its items, a string its
    characters, anything else is not iterable. *)
Definition iter_keywords (v : pyval) : result (list scalar) :=
  match v with
  | PList l => Ok l
  | PScalar (SStr s) => Ok ((λ c, SStr (String c "")) <$> String.list_ascii_of_string s)
  | PScalar _ => Raise TypeError
  end.

(** [" ".join(part for part in parts if part)]: a true part that is not
    a string makes [join] raise. *)
Fixpoint join_true_parts (parts : list pyval) : result (list string) :=
  match parts with
  | [] => Ok []
  | p :: r =>
      if truthy p then
        match p with
        | PScalar (SStr s) => let! r' := join_true_parts r in Ok (s :: r')
        | _ => Raise TypeError
        end
      else join_true_parts r
  end.

Definition post_init `{PyRuntime} (raw : list (string * pyval)) : result t :=
  let get := raw_get raw in
  let rank := py_or (get "rank") (get "Rank") in
  let score := py_or (get "score") (get "Score") in
  let file_name0 := py_or (get "FileName") (get "filename") in
  let full_path_raw := py_or (get "FullPath") (get "full_path") in
  let! file_name :=
    (if negb (truthy file_name0) && truthy full_path_raw then
       match full_path_raw with
       | PScalar (SStr s) => Ok (PStr (path_name s))
       | _ => Raise TypeError
       end
     else Ok file_name0) in
  let full_path := py_or full_path_raw (PStr "") in
  let directory := py_or (py_or (get "Directory") (get "directory")) (PStr "") in
  let size := py_or (get "Size") (get "size") in
  let size_bytes := py_or (get "SizeBytes") (get "size_bytes") in
  let modified := py_or (get "Modified") (get "modified") in
  let! items :=
    iter_keywords (py_or (py_or (get "Keywords") (get "keywords")) (PList [])) in
  let keywords :=
    str_of_scalar <$> List.filter not_none items in
  let keywords_lower := lower <$> keywords in
  let extension0 := py_or (py_or (get "Extension") (get "extension")) (PStr "") in
  let extension :=
    if truthy extension0 && negb (startswith "." (str_of extension0))
    then "." +:+ str_of extension0 else str_of extension0 in
  let drive := py_or (get "Drive") (get "drive") in
  let exists_value := if dmem "Exists" raw then get "Exists" else get "exists" in
  let! parts :=
    join_true_parts
      [ py_or file_name (PStr ""); full_path; directory; PStr (join " " keywords) ] in
  Ok {| raw := raw; insights := no_insights; category_scores := [];
        matched_triggers := []; winning_category := "Unknown";
        winning_score := 0;
        rank := rank; score := score; file_name := file_name;
        full_path := full_path; directory := directory; size := size;
        size_bytes := size_bytes; modified := modified;
        keywords := keywords; keywords_lower := keywords_lower;
        extension := extension; extension_lower := lower extension;
        drive := drive; exists_ := truthy exists_value;
        extra_text := join " " parts |}.

Definition get_text_for_target (self : t) (target : string) : pyval :=
  if String.eqb target "" then py_or (file_name self) (PStr "") else
  let value := lower target in
  if smem value ["filename"; "name"] then py_or (file_name self) (PStr "")
  else if smem value ["fullpath"; "path"] then full_path self
  else if smem value ["directory"; "folder"] then directory self
  else if String.eqb value "keywords" then PStr (join " " (keywords self))
  else py_or (file_name self) (PStr "").

Definition labels_found `{PyRuntime} (table : list (string * string))
    (text : string) : list string :=
  (List.filter (λ pl, re_search pl.1 text) table).*2.

Definition set_insights (self : t) (i : Insights) : t :=
  {| raw := raw self; insights := i; category_scores := category_scores self;
     matched_triggers := matched_triggers self;
     winning_category := winning_category self;
     winning_score := winning_score self;
     rank := rank self; score := score self; file_name := file_name self;
     full_path := full_path self; directory := directory self;
     size := size self; size_bytes := size_bytes self;
     modified := modified self; keywords := keywords self;
     keywords_lower := keywords_lower self; extension := extension self;
     extension_lower := extension_lower self; drive := drive self;
     exists_ := exists_ self; extra_text := extra_text self |}.

Definition prepare_insights `{PyRuntime} (self : t) : t :=
  let persons := labels_found PERSON_PATTERNS (extra_text self) in
  let festivals0 := labels_found FESTIVAL_PATTERNS (extra_text self) in
  let festivals :=
    if smem "festival" (keywords_lower self) &&
       match festivals0 with [] => true | _ => false end
    then ["Festival"] else festivals0 in
  let context_flags :=
    (List.filter (λ fp, existsb (λ p, re_search p (extra_text self)) fp.2)
                 CONTEXT_PATTERNS).*1 in
  set_insights self
    {| Persons := sorted_set persons; Festivals := sorted_set festivals;
       ContextFlags := sorted_set context_flags |}.

(** The four assignments that end the processing of a record. *)
Definition set_outcome (self : t) (scores : list (string * Z))
    (matched : list (string * list trace)) (category : string) (best : Z) : t :=
  {| raw := raw self; insights := insights self; category_scores := scores;
     matched_triggers := matched;
     winning_category := category; winning_score := best;
     rank := rank self; score := score self; file_name := file_name self;
     full_path := full_path self; directory := directory self;
     size := size self; size_bytes := size_bytes self;
     modified := modified self; keywords := keywords self;
     keywords_lower := keywords_lower self; extension := extension self;
     extension_lower := extension_lower self; drive := drive self;
     exists_ := exists_ self; extra_text := extra_text self |}.

(** The two assignments of the exception handler. *)
Definition set_unknown (self : t) : t :=
  set_outcome self (category_scores self) (matched_triggers self) "Unknown" 0.

End FileRecord.

Module Trigger.

Record t := {
  type : string;
  score : Z;
  target : string;
  pattern : option string;
  values : list string;
}.

(** One element of a category's ["Triggers"] array. *)
Record payload := {
  Type_ : field string;
  Score : field Z;
  Target : field string;
  Pattern : field string;
  Values : field (list (option string));
}.

(** [payload.get("Values", [])], iterated *)
Definition iter_values (p : payload) : result (list (option string)) :=
  match Values p with
  | Absent => Ok []
  | Null => Raise TypeError
  | Val l => Ok l
  end.

Definition dotted (text : string) : string :=
  if startswith "." text then text else "." +:+ text.

Definition from_dict `{PyRuntime} (p : payload) : result t :=
  let trigger_type :=
    lower (strip (match Type_ p with
                  | Absent => "" | Null => "None" | Val s => s end)) in
  let! score :=
    (match Score p with
     | Absent => Ok 0%Z | Null => Raise TypeError | Val z => Ok z end) in
  if (score <=? 0)%Z then Raise ValueError else
  let target :=
    match Target p with
    | Absent => "FileName" | Null => "None" | Val s => s end in
  if String.eqb trigger_type "regex" then
    match Pattern p with
    | Val pattern_text =>
        if String.eqb pattern_text "" then Raise ValueError
        else if re_valid pattern_text then
          Ok {| type := "regex"; score := score; target := target;
                pattern := Some pattern_text; values := [] |}
        else Raise ReError
    | _ => Raise ValueError
    end
  else if String.eqb trigger_type "keyword" then
    let! items := iter_values p in
    let values := lower <$> omap id items in
    match values with
    | [] => Raise ValueError
    | _ => Ok {| type := "keyword"; score := score; target := "FileName";
                 pattern := None; values := values |}
    end
  else if String.eqb trigger_type "extension" then
    let! items := iter_values p in
    let values := (λ v, dotted (lower v)) <$> omap id items in
    match values with
    | [] => Raise ValueError
    | _ => Ok {| type := "extension"; score := score; target := "FileName";
                 pattern := None; values := values |}
    end
  else Raise ValueError.

Definition matches `{PyRuntime} (self : t) (record : FileRecord.t) : result bool :=
  if String.eqb (type self) "regex" then
    let value := FileRecord.get_text_for_target record (target self) in
    if negb (truthy value) then Ok false else
    match pattern self with
    | None => Ok false
    | Some p =>
        match value with
        | PScalar (SStr text) => Ok (re_search p text)
        | _ => Raise TypeError
        end
    end
  else if String.eqb (type self) "keyword" then
    Ok (existsb (λ val, smem val (FileRecord.keywords_lower record)) (values self))
  else if String.eqb (type self) "extension" then
    Ok (smem (FileRecord.extension_lower record) (values self))
  else Ok false.

Definition describe (self : t) : trace :=
  match String.eqb (type self) "regex", pattern self with
  | true, Some p => DescRegex (target self) p (score self)
  | _, _ =>
      if String.eqb (type self) "keyword" then DescKeyword (values self) (score self)
      else if String.eqb (type self) "extension"
      then DescExtension (values self) (score self)
      else DescOther (type self) (score self)
  end.

End Trigger.

Record CategoryConfig := {
  name : string;
  triggers : list Trigger.t;
  naming_convention : option string;
}.

Definition score_map := list (string * Z).
Definition match_map := list (string * list trace).

(** [scores[cat] = scores.get(cat, 0) + 1] and
    [matches.setdefault(cat, []).append(item)], when [cat in scores]. *)
Definition bonus (cat reason : string) (sm : score_map * match_map)
    : score_map * match_map :=
  if dmem cat sm.1 then
    (dset cat (default 0 (dget cat sm.1) + 1)%Z sm.1,
     dset cat (default [] (dget cat sm.2) ++ [DescHeuristic reason 1]) sm.2)
  else sm.

Definition apply_insight_adjustments (record : FileRecord.t)
    (sm : score_map * match_map) : score_map * match_map :=
  let festivals := Festivals (FileRecord.insights record) in
  let sm :=
    match festivals with
    | [] => sm
    | _ => bonus "Strategy_Documents" "Festival context bonus"
             (bonus "Interview_Transcripts" "Festival context bonus" sm)
    end in
  let flags := ContextFlags (FileRecord.insights record) in
  let sm := if smem "production_meta" flags
            then bonus "Production_Documents" "Production meta context" sm else sm in
  let sm := if smem "subject_research" flags
            then bonus "Data_Reports" "Subject research context" sm else sm in
  if smem "technical_interview" flags
  then bonus "Interview_Transcripts" "Technical interview context" sm else sm.

Definition choose_best_category (scores : score_map) (priority : list string)
    : string * Z :=
  foldl (λ best name,
           let score := default 0%Z (dget name scores) in
           if (best.2 <? score)%Z then (name, score) else best)
        ("Unknown", (-1)%Z) priority.

Record Classifier := {
  configs : list (string * CategoryConfig);
  priority : list string;
}.

(** [Classifier.__init__] *)
Definition Classifier_init (categories : list CategoryConfig)
    (priority : list string) : Classifier :=
  let configs := foldl (λ d cfg, dset (name cfg) cfg d) [] categories in
  let seen :=
    foldl (λ seen name,
             if dmem name configs && negb (smem name seen)
             then seen ++ [name] else seen) [] priority in
  let seen :=
    foldl (λ seen name, if smem name seen then seen else seen ++ [name])
          seen (dkeys configs) in
  {| configs := configs; priority := seen |}.

(** The inner loop over one category's triggers. *)
Definition score_category `{PyRuntime} (record : FileRecord.t) (name : string)
    (triggers : list Trigger.t) (sm : score_map * match_map)
    : result (score_map * match_map) :=
  foldl (λ acc trigger,
           let! sm := acc in
           let! hit := Trigger.matches trigger record in
           Ok (if hit : bool then
                 (dset name (default 0 (dget name sm.1) + Trigger.score trigger)%Z sm.1,
                  dset name (default [] (dget name sm.2) ++ [Trigger.describe trigger]) sm.2)
               else sm))
        (Ok sm) triggers.

(** The loop over the categories in priority order. *)
Definition score_record `{PyRuntime} (self : Classifier) (record : FileRecord.t)
    : result (score_map * match_map) :=
  foldl (λ acc name,
           let! sm := acc in
           match dget name (configs self) with
           | None => Ok sm
           | Some config => score_category record name (triggers config) sm
           end)
        (Ok ((λ name, (name, 0%Z)) <$> priority self,
             (λ name, (name, [])) <$> priority self))
        (priority self).

(** The category and score assigned once the scores are known. *)
Definition resolve (scores : score_map) (priority : list string) : string * Z :=
  let best := choose_best_category scores priority in
  if (best.2 <=? 0)%Z then ("Unknown", 0%Z) else best.

(** The body of the [try] block, up to the assignments to the record:
    the record after [prepare_insights] is passed in. *)
Definition classify_scored `{PyRuntime} (self : Classifier) (record : FileRecord.t)
    : result FileRecord.t :=
  let! sm := score_record self record in
  let sm := apply_insight_adjustments record sm in
  let best := resolve sm.1 (priority self) in
  Ok (FileRecord.set_outcome record
        (List.filter (λ kv, (0 <? kv.2)%Z) sm.1)
        (List.filter (λ kv, match kv.2 with [] => false | _ => true end) sm.2)
        best.1 best.2).

(** One iteration of the loop over the records: the record as it is left,
    and whether the handler ran. *)
Definition classify_one `{PyRuntime} (self : Classifier) (record : FileRecord.t)
    : FileRecord.t * bool :=
  let record := FileRecord.prepare_insights record in
  match classify_scored self record with
  | Ok record' => (record', false)
  | Raise _ => (FileRecord.set_unknown record, true)
  end.

Definition buckets_t := list (string * list FileRecord.t).

(** [buckets.setdefault(key, []).append(record)] *)
Definition bucket_add (key : string) (record : FileRecord.t) (b : buckets_t)
    : buckets_t :=
  dset key (default [] (dget key b) ++ [record]) b.

Definition classify `{PyRuntime} (self : Classifier) (records : list FileRecord.t)
    : buckets_t * nat :=
  let buckets := dset "Unknown" [] ((λ name, (name, [])) <$> priority self) in
  foldl (λ st record,
           let '(record', raised) := classify_one self record in
           (bucket_add (FileRecord.winning_category record') record' st.1,
            if raised : bool then S st.2 else st.2))
        (buckets, 0) records.

(** The parsed configuration document. *)
Record category_body := {
  Triggers : field (list Trigger.payload);
  NamingConvention : option string;
}.

Record config_data := {
  CategoryPriority : list string;
  Categories : list (string * category_body);
}.

(** The loop over one category's trigger payloads: a [ValueError] skips
    the trigger, any other exception leaves the loop. *)
Fixpoint load_triggers `{PyRuntime} (payloads : list Trigger.payload)
    : result (list Trigger.t) :=
  match payloads with
  | [] => Ok []
  | p :: r =>
      match Trigger.from_dict p with
      | Ok t => let! ts := load_triggers r in Ok (t :: ts)
      | Raise ValueError => load_triggers r
      | Raise e => Raise e
      end
  end.

Fixpoint load_categories `{PyRuntime} (nodes : list (string * category_body))
    : result (list CategoryConfig) :=
  match nodes with
  | [] => Ok []
  | (name, body) :: r =>
      let! triggers :=
        load_triggers (match Triggers body with Val l => l | _ => [] end) in
      let! rest := load_categories r in
      Ok ({| name := name; triggers := triggers;
             naming_convention := NamingConvention body |} :: rest)
  end.

Definition load_config `{PyRuntime} (data : config_data)
    : result (list CategoryConfig * list string * list (string * string)) :=
  match Categories data with
  | [] => Raise SystemExit
  | nodes =>
      let priority := dedup_keep_first (CategoryPriority data) in
      let! categories := load_categories nodes in
      let naming_map :=
        omap (λ nb, match NamingConvention nb.2 with
                    | Some s => if String.eqb s "" then None else Some (nb.1, s)
                    | None => None
                    end) nodes in
      Ok (categories,
          dedup_keep_first (priority ++ (name <$> categories)),
          naming_map)
  end.

End Classify.

(** ** More string and path operations *)

Definition is_digit (c : ascii) : bool :=
  let n := nat_of_ascii c in (48 <=? n)%nat && (n <=? 57)%nat.

(** The number written by a string of decimal digits. *)
Definition digits_value (s : string) : nat :=
  foldl (λ acc c, 10 * acc + (nat_of_ascii c - 48)) 0 (String.list_ascii_of_string s).

(** [s[:n]] for [0 <= n] *)
Definition take_str (n : nat) (s : string) : string := String.substring 0 n s.

(** A number on two digits, as [%m], [%d], [%H], [%M] and [%S] print it. *)
Definition pad2 (n : nat) : string :=
  if (n <? 10)%nat then "0" +:+ str_of_nat n else str_of_nat n.

(** The part of a string from its last dot on. *)
Fixpoint from_last_dot (s : string) : option string :=
  match s with
  | "" => None
  | String c r =>
      match from_last_dot r with
      | Some t => Some t
      | None => if Ascii.eqb c "." then Some s else None
      end
  end.

(** [PurePosixPath(name).suffix]: the last component from its last dot on,
    unless that dot is its first or its last character. *)
Definition path_suffix (name : string) : string :=
  let n := path_name name in
  match from_last_dot n with
  | Some t =>
      if (String.length t <? String.length n)%nat && (1 <? String.length t)%nat
      then t else ""
  | None => ""
  end.

(** The part of a string before its last slash, if it has one. *)
Fixpoint before_last_slash (s : string) : option string :=
  match s with
  | "" => None
  | String c r =>
      match before_last_slash r with
      | Some t => Some (String c t)
      | None => if Ascii.eqb c "/" then Some "" else None
      end
  end.

(** [str(PurePosixPath(p).parent)] for a path [p] in normal form (as
    [str()] of a path prints it). *)
Definition path_parent (p : string) : string :=
  match before_last_slash p with
  | Some "" => "/"
  | Some d => d
  | None => "."
  end.

(** [str(PurePosixPath(d) / name)] for a directory [d] in normal form and a
    relative [name] in normal form. *)
Definition path_join (d name : string) : string :=
  if String.eqb d "/" then "/" +:+ name
  else if String.eqb d "." then name
  else d +:+ "/" +:+ name.

(** * design_naming_conventions.py *)

Module Naming.

Definition DATE_FORMAT_REPLACEMENTS : list (string * string) :=
  [ ("yyyy", "%Y"); ("yyy", "%Y"); ("yy", "%y"); ("MM", "%m"); ("dd", "%d");
    ("HH", "%H"); ("hh", "%I"); ("mm", "%M"); ("ss", "%S") ].

Definition SUPPORTED_CONDITIONS : list string :=
  [ "filename"; "fullpath"; "keywords"; "extension" ].

Definition mapping := list (string * scalar).

(** A naming rule's ["Condition"] node. *)
Inductive condition :=
  | NoCondition                                (* absent, null or a false value *)
  | Conditions (d : list (string * pyval))     (* an object *)
  | NotAnObject.                               (* a true value of another type *)

Record rule := {
  Condition : condition;
  Mapping_ : option mapping;
}.

Record category_config := {
  Pattern : field string;
  Rules : list rule;
  DefaultMapping : option mapping;
}.

Record global_settings := {
  DateFormat : field string;
  HandleDuplicates : field string;
  PreservePaths : field bool;
}.

Record config := {
  NamingRules : option (list (string * category_config));
  GlobalSettings : global_settings;
}.

(** One record of the classification results. *)
Record file_entry := {
  FileName : field string;
  FullPath : field string;
  Directory : field string;
  Extension : field string;
  Keywords : field (list (option string));
  Modified : field string;
  Rank : field Z;
  Score : field Z;
}.

Record context := {
  file_name : string;
  full_path : string;
  extension : string;
  keywords : list string;
}.

Record entry := {
  OriginalFile : file_entry;
  Category : string;
  OldFileName : field string;
  NewFileName : string;
  OldPath : field string;
  NewPath : string;
  Mapping : mapping;
  PatternUsed : string;
}.

Record summary := {
  TotalFiles : nat;
  FilesRenamed : nat;
  Conflicts : nat;
  Errors : nat;
}.

(** [ensure_global_settings]: the three defaults fill absent keys only. *)
Definition date_format_setting (s : global_settings) : string :=
  match DateFormat s with Absent => "yyyy-MM-dd" | Null => "None" | Val f => f end.

Definition handle_duplicates_setting (s : global_settings) : string :=
  match HandleDuplicates s with Absent => "AddVersion" | Null => "None" | Val f => f end.

Definition preserve_paths_setting (s : global_settings) : bool :=
  match PreservePaths s with Absent => true | Null => false | Val b => b end.

Definition translate_date_format (net_format : string) : string :=
  foldl (λ result tr, replace tr.1 tr.2 result) net_format DATE_FORMAT_REPLACEMENTS.

Definition normalize_extension (value : pyval) : result string :=
  if negb (truthy value) then Ok "" else
  match value with
  | PScalar (SStr s) =>
      let clean_ext := lower (strip s) in
      Ok (if startswith "." clean_ext then clean_ext else "." +:+ clean_ext)
  | _ => Raise AttributeError
  end.

Definition normalize_keywords (values : list scalar) : list string :=
  (λ item, lower (str_of_scalar item)) <$> List.filter not_none values.

(** [re.search(pattern, text, re.IGNORECASE) is not None] *)
Definition search `{PyRuntime} (pattern text : string) : result bool :=
  if re_valid pattern then Ok (re_search pattern text) else Raise ReError.

(** [expected] itself when it is a list, else the list holding it. *)
Definition required_keywords (expected : pyval) : list scalar :=
  match expected with
  | PList l => l
  | PScalar v => [v]
  end.

Definition evaluate_condition `{PyRuntime} (key : string) (expected : pyval)
    (ctx : context) : result bool :=
  let lowered := lower key in
  if String.eqb lowered "filename" then
    search (str_of expected) (file_name ctx)
  else if String.eqb lowered "fullpath" then
    if String.eqb (full_path ctx) "" then Ok false
    else search (str_of expected) (full_path ctx)
  else if String.eqb lowered "keywords" then
    let normalized := normalize_keywords (required_keywords expected) in
    match normalized with
    | [] => Ok true
    | _ => Ok (forallb (λ keyword, smem keyword (keywords ctx)) normalized)
    end
  else if String.eqb lowered "extension" then
    let! expected_value := normalize_extension expected in
    Ok (String.eqb (extension ctx) expected_value)
  else Ok false.

Definition copy_mapping (m : option mapping) : mapping := default [] m.

(** [all(evaluate_condition(key, conditions[key], context) for key in
    conditions)]: evaluation stops at the first false condition. *)
Fixpoint all_conditions `{PyRuntime} (conditions : list (string * pyval))
    (ctx : context) : result bool :=
  match conditions with
  | [] => Ok true
  | (key, expected) :: r =>
      let! ok := evaluate_condition key expected ctx in
      if ok : bool then all_conditions r ctx else Ok false
  end.

Fixpoint first_matching_rule `{PyRuntime} (rules : list rule) (ctx : context)
    : result (option rule) :=
  match rules with
  | [] => Ok None
  | r :: rest =>
      match Condition r with
      | NotAnObject => first_matching_rule rest ctx
      | NoCondition => Ok (Some r)
      | Conditions d =>
          let! ok := all_conditions d ctx in
          if ok : bool then Ok (Some r) else first_matching_rule rest ctx
      end
  end.

Definition apply_rules `{PyRuntime} (cfg : category_config) (ctx : context)
    : result mapping :=
  let! found := first_matching_rule (Rules cfg) ctx in
  match found with
  | Some r => Ok (copy_mapping (Mapping_ r))
  | None => Ok (copy_mapping (DefaultMapping cfg))
  end.

(** A match of [DATE_TOKEN_PATTERN]: the three groups that took part. *)
Definition digits_prefix (n : nat) (s : string) : option (string * string) :=
  let d := take_str n s in
  if (String.length d =? n)%nat && forallb is_digit (String.list_ascii_of_string d)
  then Some (d, String.substring n (String.length s - n) s) else None.

Definition is_date_sep (c : ascii) : bool := Ascii.eqb c "-" || Ascii.eqb c "_".

Definition date_token_here (s : string) : option (string * string * string) :=
  match digits_prefix 8 s with
  | Some (d, _) => Some (take_str 4 d, String.substring 4 2 d, String.substring 6 2 d)
  | None =>
      match digits_prefix 4 s with
      | Some (y, String c1 r1) =>
          if is_date_sep c1 then
            match digits_prefix 2 r1 with
            | Some (m, String c2 r2) =>
                if is_date_sep c2 then
                  match digits_prefix 2 r2 with
                  | Some (d, _) => Some (y, m, d)
                  | None => None
                  end
                else None
            | _ => None
            end
          else None
      | _ => None
      end
  end.

(** [DATE_TOKEN_PATTERN.search(file_name)]: the leftmost match. *)
Fixpoint date_token_search (s : string) : option (string * string * string) :=
  match date_token_here s with
  | Some m => Some m
  | None =>
      match s with
      | "" => None
      | String _ r => date_token_search r
      end
  end.

Definition is_leap (y : nat) : bool :=
  ((y mod 4 =? 0) && negb (y mod 100 =? 0) || (y mod 400 =? 0))%nat.

Definition days_in_month (y m : nat) : nat :=
  match m with
  | 2 => if is_leap y then 29 else 28
  | 4 | 6 | 9 | 11 => 30
  | _ => 31
  end.

(** [datetime.strptime] of four digits for the year and two each for the
    month and the day; [None] stands for [ValueError]. *)
Definition strptime_ymd (ymd : string * string * string) : option datetime :=
  let '(y, m, d) := (digits_value ymd.1.1, digits_value ymd.1.2, digits_value ymd.2) in
  if ((1 <=? y) && (1 <=? m) && (m <=? 12) && (1 <=? d) && (d <=? days_in_month y m))%nat
  then Some {| year := y; month := m; day := d; hour := 0; minute := 0; second := 0 |}
  else None.

Definition derive_date `{PyRuntime} (file_name : string) (modified_value : field string)
    : datetime :=
  let from_modified :=
    match modified_value with
    | Val m => if String.eqb m "" then now else default now (parse_modified m)
    | _ => now
    end in
  match date_token_search file_name with
  | Some ymd => default from_modified (strptime_ymd ymd)
  | None => from_modified
  end.

(** One directive of [strftime]. *)
Definition directive (c : ascii) (d : datetime) : string :=
  if Ascii.eqb c "Y" then str_of_nat (year d)
  else if Ascii.eqb c "y" then pad2 (year d mod 100)
  else if Ascii.eqb c "m" then pad2 (month d)
  else if Ascii.eqb c "d" then pad2 (day d)
  else if Ascii.eqb c "H" then pad2 (hour d)
  else if Ascii.eqb c "I" then
    pad2 (if (hour d mod 12 =? 0)%nat then 12 else hour d mod 12)
  else if Ascii.eqb c "M" then pad2 (minute d)
  else if Ascii.eqb c "S" then pad2 (second d)
  else if Ascii.eqb c "%" then "%"
  else String "%" (String c "").

(** [d.strftime(fmt)] for the directives that [DATE_FORMAT_REPLACEMENTS]
    produces; the year is printed as the C library of Linux does. *)
Fixpoint strftime (fmt : string) (d : datetime) : string :=
  match fmt with
  | "" => ""
  | String c r =>
      if Ascii.eqb c "%" then
        match r with
        | "" => "%"
        | String c' r' => directive c' d +:+ strftime r' d
        end
      else String c (strftime r d)
  end.

(** [re.sub(r"\{[^}]+\}", "Unknown", s)] *)
Fixpoint has_close (s : string) : bool :=
  match s with
  | "" => false
  | String c r => Ascii.eqb c "}" || has_close r
  end.

Definition closes (r : string) : bool :=
  match r with
  | "" => false
  | String c r' => negb (Ascii.eqb c "}") && has_close r'
  end.

Fixpoint sub_tokens_go (inside : bool) (s : string) : string :=
  match s with
  | "" => ""
  | String c r =>
      if inside then
        if Ascii.eqb c "}" then sub_tokens_go false r else sub_tokens_go true r
      else if Ascii.eqb c "{" && closes r then "Unknown" +:+ sub_tokens_go true r
      else String c (sub_tokens_go false r)
  end.

Definition sub_tokens (s : string) : string := sub_tokens_go false s.

(** The text that replaces the token of one mapping item. *)
Definition token_text (value : scalar) : string :=
  let text := match value with SNone => "" | _ => str_of_scalar value end in
  if String.eqb text "" then "Unknown" else text.

Definition replace_placeholders (pattern : string) (m : mapping) : string :=
  let result :=
    foldl (λ result kv, replace ("{" +:+ kv.1 +:+ "}") (token_text kv.2) result)
          pattern m in
  sub_tokens result.

Definition field_to_pyval (f : field string) : pyval :=
  match f with Val s => PStr s | _ => PNone end.

Definition build_context (file_entry : file_entry) : result context :=
  let! extension := normalize_extension (field_to_pyval (Extension file_entry)) in
  let! keywords :=
    (match Keywords file_entry with
     | Absent => Ok []
     | Null => Raise TypeError
     | Val l => Ok (normalize_keywords
                      ((λ k, match k with Some s => SStr s | None => SNone end) <$> l))
     end) in
  Ok {| file_name :=
          match FileName file_entry with Absent => "" | Null => "None" | Val s => s end;
        full_path := match FullPath file_entry with Val s => s | _ => "" end;
        extension := extension;
        keywords := keywords |}.

Definition resolve_destination `{PyRuntime} (file_entry : file_entry)
    (script_dir : string) (preserve_paths : bool) : string :=
  let from_directory :=
    match Directory file_entry with
    | Val d => if String.eqb d "" then script_dir else default script_dir (resolve_path d)
    | _ => script_dir
    end in
  if preserve_paths then
    match FullPath file_entry with
    | Val p =>
        if String.eqb p "" then from_directory
        else match resolve_path p with
             | Some q => path_parent q
             | None => from_directory
             end
    | _ => from_directory
    end
  else script_dir.

(** The body of the [try] block for one file, up to the entry appended to
    the rename mappings. *)
Definition name_file `{PyRuntime} (category_name pattern : string)
    (cfg : category_config) (date_format script_dir : string)
    (preserve_paths : bool) (file_entry : file_entry) : result entry :=
  let! ctx := build_context file_entry in
  let! m := apply_rules cfg ctx in
  let m :=
    if contains "{Date}" pattern && negb (dmem "Date" m)
    then dset "Date"
           (SStr (strftime date_format
                    (derive_date (file_name ctx) (Modified file_entry)))) m
    else m in
  let m :=
    if contains "{ext}" pattern && negb (dmem "ext" m)
    then dset "ext" (SStr (extension ctx)) m else m in
  let m :=
    if contains "{Rank}" pattern && negb (dmem "Rank" m)
    then dset "Rank"
           (SStr (match Rank file_entry with
                  | Absent => "" | Null => "None" | Val z => str_of_Z z end)) m
    else m in
  let new_file_name := replace_placeholders pattern m in
  if String.eqb new_file_name "" then Raise RuntimeError else
  let destination := resolve_destination file_entry script_dir preserve_paths in
  Ok {| OriginalFile := file_entry; Category := category_name;
        OldFileName := FileName file_entry; NewFileName := new_file_name;
        OldPath := FullPath file_entry;
        NewPath := path_join destination new_file_name;
        Mapping := m; PatternUsed := pattern |}.

(** ** Conflict resolution

    The entries are mutable objects held by [rename_mappings]; an entry is
    referred to by its index in that list, and the list is the store. *)

(** [by_path[item["NewPath"]].append(item)] for every item in turn *)
Definition by_path (rename_mappings : list entry) : list (string * list nat) :=
  foldl (λ d ie, dset (NewPath ie.2) (default [] (dget (NewPath ie.2) d) ++ [ie.1]) d)
        [] (imap pair rename_mappings).

Definition conflict_groups (rename_mappings : list entry) : list (string * list nat) :=
  List.filter (λ g, (1 <? length g.2)%nat) (by_path rename_mappings).

(** The sort key [entry.get("OriginalFile", {}).get("Score", 0)]; a [null]
    score cannot be compared. *)
Definition sort_key (e : entry) : result Z :=
  match Score (OriginalFile e) with
  | Absent => Ok 0%Z
  | Null => Raise TypeError
  | Val z => Ok z
  end.

(** Stable insertion by decreasing key: an item goes before the first one
    whose key is not larger than its own. *)
Fixpoint insert_desc (x : Z * nat) (l : list (Z * nat)) : list (Z * nat) :=
  match l with
  | [] => [x]
  | y :: r => if (x.1 <? y.1)%Z then y :: insert_desc x r else x :: l
  end.

(** [items.sort(key=..., reverse=True)] on the keyed items *)
Definition sort_desc (l : list (Z * nat)) : list (Z * nat) := foldr insert_desc [] l.

Fixpoint keyed (store : list entry) (items : list nat) : result (list (Z * nat)) :=
  match items with
  | [] => Ok []
  | i :: r =>
      match store !! i with
      | Some e =>
          let! k := sort_key e in
          let! rest := keyed store r in
          Ok ((k, i) :: rest)
      | None => keyed store r
      end
  end.

Definition sort_group (store : list entry) (items : list nat) : result (list nat) :=
  let! ks := keyed store items in Ok (sort_desc ks).*2.

Definition rank_text (e : entry) : string :=
  match Rank (OriginalFile e) with
  | Absent => "?"
  | Null => "None"
  | Val z => str_of_Z z
  end.

Definition set_new_name (e : entry) (new_file_name : string) : entry :=
  {| OriginalFile := OriginalFile e; Category := Category e;
     OldFileName := OldFileName e; NewFileName := new_file_name;
     OldPath := OldPath e;
     NewPath := path_join (path_parent (NewPath e)) new_file_name;
     Mapping := Mapping e; PatternUsed := PatternUsed e |}.

Definition stem_of (name : string) : string :=
  let extension := path_suffix name in
  if String.eqb extension "" then name
  else take_str (String.length name - String.length extension) name.

(** The body of the inner loop for an entry at [index >= 1]. *)
Definition rewrite_entry (strategy : string) (index : nat) (e : entry) : entry :=
  let name := NewFileName e in
  let extension := path_suffix name in
  let stem := stem_of name in
  if String.eqb strategy "AddVersion" then
    set_new_name e (stem +:+ "_v" +:+ str_of_nat (index + 1) +:+ extension)
  else if String.eqb strategy "AppendRank" then
    set_new_name e (stem +:+ "_rank" +:+ rank_text e +:+ extension)
  else e.

(** The inner loop over a sorted group. *)
Definition resolve_group (strategy : string) (items : list nat) (store : list entry)
    : list entry :=
  foldl (λ store ii,
           match ii.1 with
           | O => store
           | S _ => alter (rewrite_entry strategy ii.1) ii.2 store
           end)
        store (imap pair items).

Definition handle_conflicts (rename_mappings : list entry) (settings : global_settings)
    : result (list entry * nat) :=
  let groups := conflict_groups rename_mappings in
  match groups with
  | [] => Ok (rename_mappings, 0)
  | _ =>
      let! store :=
        foldl (λ acc g,
                 let! store := acc in
                 let! items := sort_group store g.2 in
                 Ok (resolve_group (handle_duplicates_setting settings) items store))
              (Ok rename_mappings) groups in
      Ok (store, length groups)
  end.

(** The loop over one category's files. *)
Definition process_files `{PyRuntime} (category_name pattern : string)
    (cfg : category_config) (date_format script_dir : string)
    (preserve_paths : bool) (files : list file_entry)
    (st : summary * list entry) : summary * list entry :=
  foldl (λ st file_entry,
           let s := st.1 in
           match name_file category_name pattern cfg date_format script_dir
                           preserve_paths file_entry with
           | Ok e =>
               ({| TotalFiles := S (TotalFiles s); FilesRenamed := S (FilesRenamed s);
                   Conflicts := Conflicts s; Errors := Errors s |},
                st.2 ++ [e])
           | Raise _ =>
               ({| TotalFiles := S (TotalFiles s); FilesRenamed := FilesRenamed s;
                   Conflicts := Conflicts s; Errors := S (Errors s) |},
                st.2)
           end)
        st files.

Definition add_errors (n : nat) (s : summary) : summary :=
  {| TotalFiles := TotalFiles s; FilesRenamed := FilesRenamed s;
     Conflicts := Conflicts s; Errors := Errors s + n |}.

Definition process_classification `{PyRuntime}
    (classifications : list (string * list file_entry)) (cfg : config)
    (script_dir : string) : result (summary * list entry) :=
  let settings := GlobalSettings cfg in
  let date_format := translate_date_format (date_format_setting settings) in
  match NamingRules cfg with
  | None => Raise RuntimeError
  | Some category_rules =>
      let st :=
        foldl (λ st cf,
                 let '(category_name, files) := cf in
                 match files with
                 | [] => st
                 | _ =>
                     match dget category_name category_rules with
                     | None => (add_errors (length files) st.1, st.2)
                     | Some category_config =>
                         match Pattern category_config with
                         | Val pattern =>
                             if String.eqb pattern ""
                             then (add_errors (length files) st.1, st.2)
                             else process_files category_name pattern category_config
                                    date_format script_dir
                                    (preserve_paths_setting settings) files st
                         | _ => (add_errors (length files) st.1, st.2)
                         end
                     end
                 end)
              ({| TotalFiles := 0; FilesRenamed := 0; Conflicts := 0; Errors := 0 |}, [])
              classifications in
      let! resolved := handle_conflicts st.2 settings in
      Ok ({| TotalFiles := TotalFiles st.1; FilesRenamed := FilesRenamed st.1;
             Conflicts := resolved.2; Errors := Errors st.1 |},
          resolved.1)
  end.

End Naming.

(** * Vocabulary of the statements *)

(** [scores.get(name, 0)] *)
Definition score_of (scores : Classify.score_map) (name : string) : Z :=
  default 0%Z (dget name scores).

(** A runtime for closed examples.  Its regular expressions are the
    patterns without metacharacters, optionally led by the inline flag
    [(?i)]: searching such a pattern with [re.IGNORECASE] is a
    case-insensitive substring test.  Its [str()] of a list is Python's for
    lists of numbers, booleans, [None] and strings without quotes or
    escapes.  It parses no modification value, its clock is fixed, and it
    resolves a path to itself, as the file system does for an absolute
    path in normal form without symbolic links. *)
Definition strip_inline_flag (p : string) : string :=
  if String.prefix "(?i)" p then String.substring 4 (String.length p - 4) p else p.

Definition quote_repr (v : scalar) : string :=
  match v with
  | SStr s => "'" +:+ s +:+ "'"
  | _ => str_of_scalar v
  end.

Definition literal_runtime : PyRuntime :=
  {| re_valid := λ _, true;
     re_search := λ p text, contains (lower (strip_inline_flag p)) (lower text);
     repr_list := λ l, "[" +:+ join ", " (quote_repr <$> l) +:+ "]";
     parse_modified := λ _, None;
     now := {| year := 2026; month := 1; day := 1;
               hour := 0; minute := 0; second := 0 |};
     resolve_path := Some |}.

(** The records of a batch as [classify] leaves them, each with the flag
    telling whether its processing raised. *)
Definition outcomes `{PyRuntime} (self : Classify.Classifier)
    (records : list Classify.FileRecord.t) : list (Classify.FileRecord.t * bool) :=
  Classify.classify_one self <$> records.

(** [buckets.get(key, [])] *)
Definition bucket (buckets : Classify.buckets_t) (key : string)
    : list Classify.FileRecord.t :=
  default [] (dget key buckets).

Definition won_by (key : string) (r : Classify.FileRecord.t) : bool :=
  String.eqb (Classify.FileRecord.winning_category r) key.

(** Trigger payloads of the examples. *)
Definition keyword_payload (value : string) (score : field Z) : Classify.Trigger.payload :=
  {| Classify.Trigger.Type_ := Val "Keyword"; Classify.Trigger.Score := score;
     Classify.Trigger.Target := Absent; Classify.Trigger.Pattern := Absent;
     Classify.Trigger.Values := Val [Some value] |}.

Definition one_category (payloads : list Classify.Trigger.payload) : Classify.config_data :=
  {| Classify.CategoryPriority := [];
     Classify.Categories :=
       [("Interview_Transcripts",
         {| Classify.Triggers := Val payloads; Classify.NamingConvention := None |})] |}.

(** A condition that holds of every record: a keywords condition whose
    expected values, [None] dropped, are none. *)
Definition vacuous_condition (kv : string * pyval) : Prop :=
  lower kv.1 = "keywords" ∧
  Naming.normalize_keywords (Naming.required_keywords kv.2) = [].

(** A rule without a condition, or all of whose conditions are vacuous. *)
Definition vacuous_rule (r : Naming.rule) : Prop :=
  Naming.Condition r = Naming.NoCondition ∨
  ∃ d, Naming.Condition r = Naming.Conditions d ∧ Forall vacuous_condition d.

Definition rules_config (rules : list Naming.rule) (default_mapping : option Naming.mapping)
    : Naming.category_config :=
  {| Naming.Pattern := Val "GW_{Type}.{ext}"; Naming.Rules := rules;
     Naming.DefaultMapping := default_mapping |}.

(** The naming context of a file as the examples use it. *)
Definition stats_context : Naming.context :=
  {| Naming.file_name := "stats_report_20240101.csv";
     Naming.full_path := "/reports/stats_report_20240101.csv";
     Naming.extension := ".csv";
     Naming.keywords := ["stats"] |}.

Definition regex_trigger (target pattern : string) : Classify.Trigger.t :=
  {| Classify.Trigger.type := "regex"; Classify.Trigger.score := 1;
     Classify.Trigger.target := target; Classify.Trigger.pattern := Some pattern;
     Classify.Trigger.values := [] |}.

(** Scenario C: the record and the naming rules of the category. *)
Definition scenario_c_file_with (extension modified : field string) : Naming.file_entry :=
  {| Naming.FileName := Val "stats_report_20240101.csv";
     Naming.FullPath := Val "/reports/stats_report_20240101.csv";
     Naming.Directory := Absent;
     Naming.Extension := extension;
     Naming.Keywords := Val [Some "stats"];
     Naming.Modified := modified;
     Naming.Rank := Val 4%Z;
     Naming.Score := Val 88%Z |}.

Definition scenario_c_file (modified : field string) : Naming.file_entry :=
  scenario_c_file_with (Val ".csv") modified.

Definition scenario_c_pattern : string := "GW_Report_{Type}_{Date}.{ext}".

Definition scenario_c_rules : Naming.category_config :=
  {| Naming.Pattern := Val scenario_c_pattern;
     Naming.Rules :=
       [ {| Naming.Condition := Naming.Conditions [("FileName", PStr "(?i)stats")];
            Naming.Mapping_ := Some [("Type", SStr "Statistics")] |} ];
     Naming.DefaultMapping := Some [("Type", SStr "Analysis")] |}.

(** ** Placeholders *)

(** A brace of either kind occurs in the string. *)
Definition has_brace (s : string) : bool := contains "{" s || contains "}" s.

(** No opening brace, and no brace at all, in a string. *)
Fixpoint no_open (s : string) : bool :=
  match s with
  | "" => true
  | String c r => negb (Ascii.eqb c "{") && no_open r
  end.

Fixpoint brace_free (s : string) : bool :=
  match s with
  | "" => true
  | String c r => negb (Ascii.eqb c "{") && negb (Ascii.eqb c "}") && brace_free r
  end.

(** A token is written somewhere in the string: an opening brace, one or
    more characters other than the closing brace, and a closing brace. *)
Definition token_in (s : string) : Prop :=
  ∃ a body b, s = a +:+ "{" +:+ body +:+ "}" +:+ b ∧
              body ≠ "" ∧ Naming.has_close body = false.

(** The same, decided by scanning the string. *)
Definition token_at (s : string) : bool :=
  match s with
  | "" => false
  | String c r => Ascii.eqb c "{" && Naming.closes r
  end.

Fixpoint has_token (s : string) : bool :=
  token_at s || match s with "" => false | String _ r => has_token r end.

(** A pattern cut into literal text and placeholders. *)
Inductive segment :=
  | Lit (text : string)
  | Tok (name : string).

Definition render_segment (seg : segment) : string :=
  match seg with
  | Lit text => text
  | Tok name => "{" +:+ name +:+ "}"
  end.

Definition render (segs : list segment) : string :=
  foldr (λ seg acc, render_segment seg +:+ acc) "" segs.

Definition wf_segment (seg : segment) : bool :=
  match seg with
  | Lit text => brace_free text
  | Tok name => brace_free name && negb (String.eqb name "")
  end.

(** What a segment becomes: a placeholder of the mapping its value (or
    "Unknown" for an empty or null value), any other placeholder
    "Unknown". *)
Definition final_text (m : Naming.mapping) (seg : segment) : string :=
  match seg with
  | Lit text => text
  | Tok name =>
      match dget name m with
      | Some value => Naming.token_text value
      | None => "Unknown"
      end
  end.

Definition wf_mapping (m : Naming.mapping) : bool :=
  forallb (λ kv, brace_free kv.1 && brace_free (Naming.token_text kv.2)) m.

(** The file name that a cut pattern and a mapping should give. *)
Definition render_final (m : Naming.mapping) (segs : list segment) : string :=
  foldr (λ seg acc, final_text m seg +:+ acc) "" segs.

(** The placeholder named [k] replaced by a text. *)
Definition subst_tok (k text : string) (seg : segment) : segment :=
  match seg with
  | Tok n => if String.eqb n k then Lit text else seg
  | Lit _ => seg
  end.

(** Every placeholder of the mapping replaced by its text. *)
Definition resolve_seg (m : Naming.mapping) (seg : segment) : segment :=
  match seg with
  | Tok n =>
      match dget n m with
      | Some value => Lit (Naming.token_text value)
      | None => seg
      end
  | Lit _ => seg
  end.

(** ** Conflict resolution *)

(** The score that orders an entry in its group. *)
Definition score_value (e : Naming.entry) : Z :=
  match Naming.Score (Naming.OriginalFile e) with
  | Val z => z
  | _ => 0%Z
  end.

Definition score_at (ms : list Naming.entry) (i : nat) : Z :=
  from_option score_value 0%Z (ms !! i).

(** The indices, in list order, of the entries whose destination is [p]. *)
Definition indices_with_path (p : string) (ms : list Naming.entry) : list nat :=
  (List.filter (λ ie, String.eqb (Naming.NewPath ie.2) p) (imap pair ms)).*1.

(** Entry [j] is sorted before entry [i]: its score is greater, or the
    scores are equal and it is earlier in the list. *)
Definition comes_before (ms : list Naming.entry) (j i : nat) : bool :=
  (score_at ms i <? score_at ms j)%Z ||
  ((score_at ms j =? score_at ms i)%Z && (j <? i)%nat).

(** The 0-based position of entry [i] among the entries sharing its
    destination, sorted by decreasing score, ties in list order: the number
    of those that are sorted before it. *)
Definition sorted_position (ms : list Naming.entry) (i : nat) (e : Naming.entry) : nat :=
  length (List.filter (λ j, comes_before ms j i)
                      (indices_with_path (Naming.NewPath e) ms)).

(** What conflict resolution makes of entry [i]. *)
Definition resolved_entry (strategy : string) (ms : list Naming.entry)
    (i : nat) (e : Naming.entry) : Naming.entry :=
  match sorted_position ms i e with
  | O => e
  | S k => Naming.rewrite_entry strategy (S k) e
  end.


(** No entry at the indices [items] has a [null] score. *)
Definition comparable_in (ms : list Naming.entry) (items : list nat) : Prop :=
  ∀ i e, i ∈ items → ms !! i = Some e →
         Naming.Score (Naming.OriginalFile e) ≠ Null.

(** The order of the sort on keyed items: [y] is sorted before [x]. *)
Definition sorts_before (y x : Z * nat) : Prop :=
  (x.1 < y.1)%Z ∨ (y.1 = x.1 ∧ y.2 < x.2).

Definition sorts_beforeb (y x : Z * nat) : bool :=
  (x.1 <? y.1)%Z || ((y.1 =? x.1)%Z && (y.2 <? x.2)%nat).

(** The store keeps the originating record of every entry. *)
Definition same_originals (ms st : list Naming.entry) : Prop :=
  length st = length ms ∧
  ∀ i, Naming.OriginalFile <$> st !! i = Naming.OriginalFile <$> ms !! i.

(** One step of the inner loop of [handle_conflicts]. *)
Definition resolve_step (strategy : string) (store : list Naming.entry)
    (ii : nat * nat) : list Naming.entry :=
  match ii.1 with
  | O => store
  | S _ => alter (Naming.rewrite_entry strategy ii.1) ii.2 store
  end.

(** What the inner loop does to an entry at a position of the sorted group. *)
Definition at_position (strategy : string) (k : nat) (e : Naming.entry) : Naming.entry :=
  match k with
  | O => e
  | S _ => Naming.rewrite_entry strategy k e
  end.

(** Entries and settings of the conflict examples: files of one directory
    with their new names already chosen. *)
Definition site_file (name : string) (rank score : Z) : Naming.file_entry :=
  {| Naming.FileName := Val name;
     Naming.FullPath := Val ("/site/" +:+ name);
     Naming.Directory := Absent;
     Naming.Extension := Val ".html";
     Naming.Keywords := Val [Some "web"];
     Naming.Modified := Absent;
     Naming.Rank := Val rank;
     Naming.Score := Val score |}.

Definition site_entry (name new_name : string) (rank score : Z) : Naming.entry :=
  {| Naming.OriginalFile := site_file name rank score;
     Naming.Category := "Web_Content";
     Naming.OldFileName := Val name;
     Naming.NewFileName := new_name;
     Naming.OldPath := Val ("/site/" +:+ name);
     Naming.NewPath := "/site/" +:+ new_name;
     Naming.Mapping := [];
     Naming.PatternUsed := new_name |}.

Definition duplicates (strategy : field string) : Naming.global_settings :=
  {| Naming.DateFormat := Absent; Naming.HandleDuplicates := strategy;
     Naming.PreservePaths := Absent |}.

Definition fixed_name_rules (category pattern : string)
    : string * Naming.category_config :=
  (category, {| Naming.Pattern := Val pattern; Naming.Rules := [];
                Naming.DefaultMapping := Some [] |}).




(** ** Data of the examples *)

Section ClassifyData.
Import Classify.

Definition example_classifier : Classifier :=
  Classifier_init
    [ {| name := "Interview_Transcripts";
         triggers := [ regex_trigger "FileName" "interview" ];
         naming_convention := None |} ]
    [ "Interview_Transcripts" ].

(** A record whose [file_name] attribute was assigned a number after
    construction: searching it with a pattern raises [TypeError]. *)
Definition example_bad_record : FileRecord.t :=
  {| FileRecord.raw := []; FileRecord.insights := no_insights;
     FileRecord.category_scores := []; FileRecord.matched_triggers := [];
     FileRecord.winning_category := "Unknown"; FileRecord.winning_score := 0;
     FileRecord.rank := PNone; FileRecord.score := PNone;
     FileRecord.file_name := PInt 5; FileRecord.full_path := PStr "";
     FileRecord.directory := PStr ""; FileRecord.size := PNone;
     FileRecord.size_bytes := PNone; FileRecord.modified := PNone;
     FileRecord.keywords := []; FileRecord.keywords_lower := [];
     FileRecord.extension := ""; FileRecord.extension_lower := "";
     FileRecord.drive := PNone; FileRecord.exists_ := false;
     FileRecord.extra_text := "" |}.

End ClassifyData.

Section NamingData.
Import Naming.

Definition stats_rule : rule :=
  {| Condition := Conditions [("FileName", PStr "(?i)stats")];
     Mapping_ := Some [("Type", SStr "Statistics")] |}.

Definition catch_all_rule : rule :=
  {| Condition := NoCondition; Mapping_ := Some [("Type", SStr "Any")] |}.

Definition empty_keywords_rule : rule :=
  {| Condition := Conditions [("keywords", PList []); ("FileName", PStr "minutes")];
     Mapping_ := Some [("Type", SStr "Minutes")] |}.

End NamingData.

(** ** Vocabulary of the further properties *)

(** [sum(len(items) for items in buckets.values())], the total that the
    summary and the export report. *)
Definition total_classified (buckets : Classify.buckets_t) : nat :=
  sum_list (length <$> buckets.*2).

(** The record has a text for every target: a false value or a string. *)
Definition text_or_false (v : pyval) : Prop :=
  truthy v = false ∨ ∃ s, v = PStr s.

(** A file name that is one component of a path. *)
Fixpoint no_slash (s : string) : bool :=
  match s with
  | "" => true
  | String c r => negb (Ascii.eqb c "/") && no_slash r
  end.

Definition simple_name (n : string) : bool :=
  no_slash n && negb (String.eqb n "") && negb (String.eqb n ".").

(** The trigger that a payload constructs, if it constructs one. *)
Definition constructed `{PyRuntime} (p : Classify.Trigger.payload)
    : option Classify.Trigger.t :=
  match Classify.Trigger.from_dict p with
  | Ok t => Some t
  | Raise _ => None
  end.

(** The payloads of a category node. *)
Definition payloads_of (body : Classify.category_body) : list Classify.Trigger.payload :=
  match Classify.Triggers body with Val l => l | _ => [] end.

(** Example payloads: an extension trigger whose values need trimming,
    lower-casing and a dot, and a category with one keyword trigger of score
    zero and one of score one. *)
Definition extension_payload : Classify.Trigger.payload :=
  {| Classify.Trigger.Type_ := Val " Extension "; Classify.Trigger.Score := Val 2%Z;
     Classify.Trigger.Target := Absent; Classify.Trigger.Pattern := Absent;
     Classify.Trigger.Values := Val [Some "MD"; None; Some ".Txt"] |}.

Definition two_keyword_config : Classify.config_data :=
  one_category [keyword_payload "caleb" (Val 0%Z); keyword_payload "robyn" (Val 1%Z)].

(** A bonus given under a condition. *)
Definition bonus_if (b : bool) (cat reason : string)
    (sm : Classify.score_map * Classify.match_map)
    : Classify.score_map * Classify.match_map :=
  if b then Classify.bonus cat reason sm else sm.

(** The number of heuristic bonuses that the insights of a record give to
    a category. *)
Definition heuristic_bonuses (record : Classify.FileRecord.t) (cat : string) : nat :=
  let insights := Classify.FileRecord.insights record in
  let festival :=
    match Classify.Festivals insights with [] => false | _ => true end in
  let flags := Classify.ContextFlags insights in
  Nat.b2n (festival && String.eqb "Interview_Transcripts" cat) +
  Nat.b2n (festival && String.eqb "Strategy_Documents" cat) +
  Nat.b2n (smem "production_meta" flags && String.eqb "Production_Documents" cat) +
  Nat.b2n (smem "subject_research" flags && String.eqb "Data_Reports" cat) +
  Nat.b2n (smem "technical_interview" flags && String.eqb "Interview_Transcripts" cat).

(** [matches.get(name, [])] *)
Definition traces_of (matches : Classify.match_map) (name : string)
    : list Classify.trace :=
  default [] (dget name matches).

(** A record that was scanned with insights: a festival and the technical
    interview flag. *)
Definition festival_interview_record : Classify.FileRecord.t :=
  {| Classify.FileRecord.raw := [];
     Classify.FileRecord.insights :=
       {| Classify.Persons := []; Classify.Festivals := ["Outfest"];
          Classify.ContextFlags := ["technical_interview"] |};
     Classify.FileRecord.category_scores := [];
     Classify.FileRecord.matched_triggers := [];
     Classify.FileRecord.winning_category := "Unknown";
     Classify.FileRecord.winning_score := 0;
     Classify.FileRecord.rank := PNone; Classify.FileRecord.score := PNone;
     Classify.FileRecord.file_name := PStr "outfest_mixdown.wav";
     Classify.FileRecord.full_path := PStr "";
     Classify.FileRecord.directory := PStr "";
     Classify.FileRecord.size := PNone; Classify.FileRecord.size_bytes := PNone;
     Classify.FileRecord.modified := PNone;
     Classify.FileRecord.keywords := []; Classify.FileRecord.keywords_lower := [];
     Classify.FileRecord.extension := ".wav";
     Classify.FileRecord.extension_lower := ".wav";
     Classify.FileRecord.drive := PNone; Classify.FileRecord.exists_ := true;
     Classify.FileRecord.extra_text := "outfest_mixdown.wav" |}.

(** The record of a scanned file that has a path and keywords only. *)
Definition stats_raw : list (string * pyval) :=
  [ ("FullPath", PStr "/data/reports/interview_stats.csv");
    ("Keywords", PList [SStr "Festival"; SNone; SInt 7]) ].

Definition stats_record : Classify.FileRecord.t :=
  match @Classify.FileRecord.post_init literal_runtime stats_raw with
  | Ok r => r
  | Raise _ => festival_interview_record
  end.

(** What [classify] may leave as the category and score of a record. *)
Definition winner_shape (priority : list string) (r : Classify.FileRecord.t) : Prop :=
  (Classify.FileRecord.winning_category r = "Unknown" ∧
   Classify.FileRecord.winning_score r = 0%Z) ∨
  (Classify.FileRecord.winning_category r ∈ priority ∧
   (0 < Classify.FileRecord.winning_score r)%Z).

(** The order of [sorted] on strings. *)
Definition str_lt (a b : string) : Prop := String.ltb a b = true.

(** A record without a file name, whose path ends in a simple name. *)
Definition path_only_raw : list (string * pyval) :=
  [ ("FileName", PStr ""); ("FullPath", PStr "/data/./reports//stats.csv") ].

(** Whether a trigger matches a record, a raised exception counting as no
    match. *)
Definition hit `{PyRuntime} (record : Classify.FileRecord.t) (t : Classify.Trigger.t)
    : bool :=
  match Classify.Trigger.matches t record with
  | Ok b => b
  | Raise _ => false
  end.

(** The sum of the scores of the triggers that match. *)
Definition matched_score `{PyRuntime} (record : Classify.FileRecord.t)
    (ts : list Classify.Trigger.t) : Z :=
  foldr (λ t acc, ((if hit record t then Classify.Trigger.score t else 0) + acc)%Z) 0%Z ts.

(** The score that the triggers of a category give to a record. *)
Definition category_score `{PyRuntime} (self : Classify.Classifier)
    (record : Classify.FileRecord.t) (name : string) : Z :=
  match dget name (Classify.configs self) with
  | Some config => matched_score record (Classify.triggers config)
  | None => 0%Z
  end.

(** ** Vocabulary of the further properties of conflict resolution *)

(** Conflict resolution may change the name and the path of an entry,
    nothing else. *)
Definition same_but_name (e e' : Naming.entry) : Prop :=
  Naming.OriginalFile e' = Naming.OriginalFile e ∧
  Naming.Category e' = Naming.Category e ∧
  Naming.OldFileName e' = Naming.OldFileName e ∧
  Naming.OldPath e' = Naming.OldPath e ∧
  Naming.Mapping e' = Naming.Mapping e ∧
  Naming.PatternUsed e' = Naming.PatternUsed e.

(** Entry [i] has the destination of another entry. *)
Definition shares_path (ms : list Naming.entry) (i : nat) : Prop :=
  ∃ j e e', j ≠ i ∧ ms !! i = Some e ∧ ms !! j = Some e' ∧
            Naming.NewPath e' = Naming.NewPath e.

(** An entry whose score is [null] has the destination of another one. *)
Definition null_score_in_conflict (ms : list Naming.entry) : Prop :=
  ∃ i e, ms !! i = Some e ∧ Naming.Score (Naming.OriginalFile e) = Null ∧
         shares_path ms i.

(** How many entries have the destination [p]. *)
Definition entries_at (p : string) (ms : list Naming.entry) : nat :=
  length (List.filter (λ e, String.eqb (Naming.NewPath e) p) ms).

(** The destinations that two entries or more have, each of them once. *)
Definition shared_destinations (ms : list Naming.entry) : list string :=
  dedup_keep_first
    (List.filter (λ p, (1 <? entries_at p ms)%nat) (Naming.NewPath <$> ms)).

(** A record of the conflict examples whose score is [null], as the
    classification step exports a record that has no score. *)
Definition unscored_site_file (name : string) (rank : Z) : Naming.file_entry :=
  {| Naming.FileName := Val name;
     Naming.FullPath := Val ("/site/" +:+ name);
     Naming.Directory := Absent;
     Naming.Extension := Val ".html";
     Naming.Keywords := Val [Some "web"];
     Naming.Modified := Absent;
     Naming.Rank := Val rank;
     Naming.Score := Null |}.

(** The loop of [handle_conflicts] over the groups. *)
Definition resolve_groups (strategy : string) (groups : list (string * list nat))
    (store : result (list Naming.entry)) : result (list Naming.entry) :=
  foldl (λ acc g,
           let! store := acc in
           let! items := Naming.sort_group store g.2 in
           Ok (Naming.resolve_group strategy items store))
        store groups.

(** The store after conflict resolution stands in this relation to the
    store before. *)
Definition renamed_only (st st' : list Naming.entry) : Prop :=
  length st' = length st ∧
  ∀ i e, st !! i = Some e → ∃ e', st' !! i = Some e' ∧ same_but_name e e'.

(** An entry of the conflict examples whose record has a [null] score. *)
Definition unscored_entry (name new_name : string) : Naming.entry :=
  {| Naming.OriginalFile :=
       {| Naming.FileName := Val name;
          Naming.FullPath := Val ("/site/" +:+ name);
          Naming.Directory := Absent;
          Naming.Extension := Val ".html";
          Naming.Keywords := Absent;
          Naming.Modified := Absent;
          Naming.Rank := Absent;
          Naming.Score := Null |};
     Naming.Category := "Web_Content";
     Naming.OldFileName := Val name;
     Naming.NewFileName := new_name;
     Naming.OldPath := Val ("/site/" +:+ name);
     Naming.NewPath := "/site/" +:+ new_name;
     Naming.Mapping := [];
     Naming.PatternUsed := new_name |}.

Definition three_pages : list Naming.entry :=
  [ site_entry "page_a.html" "GW_Web_Page.html" 1 90;
    site_entry "page_b.html" "GW_Web_Page.html" 2 70;
    site_entry "page_c.html" "GW_Web_Index.html" 3 50 ].

Definition unscored_pages : list Naming.entry :=
  [ site_entry "page_a.html" "GW_Web_Page.html" 1 90;
    unscored_entry "page_b.html" "GW_Web_Page.html" ].

(** ** Vocabulary of the further properties of the naming engine *)

(** The condition holds in the context. *)
Definition condition_true `{PyRuntime} (ctx : Naming.context) (kv : string * pyval) : Prop :=
  Naming.evaluate_condition kv.1 kv.2 ctx = Ok true.

(** The rule is selected when the selection comes to it: it has no
    condition, or each of its conditions holds. *)
Definition rule_holds `{PyRuntime} (ctx : Naming.context) (r : Naming.rule) : Prop :=
  match Naming.Condition r with
  | Naming.NoCondition => True
  | Naming.Conditions d => Forall (condition_true ctx) d
  | Naming.NotAnObject => False
  end.

(** The rule is passed over: its condition is not an object, or one of
    its conditions is false, those before it being true. *)
Definition rule_fails `{PyRuntime} (ctx : Naming.context) (r : Naming.rule) : Prop :=
  match Naming.Condition r with
  | Naming.NoCondition => False
  | Naming.Conditions d =>
      ∃ before kv after, d = before ++ kv :: after ∧
        Forall (condition_true ctx) before ∧
        Naming.evaluate_condition kv.1 kv.2 ctx = Ok false
  | Naming.NotAnObject => True
  end.

(** The placeholders that [process_classification] fills by itself. *)
Definition AUTO_PLACEHOLDERS : list string := ["Date"; "ext"; "Rank"].

(** The category has a naming rule with a pattern. *)
Definition has_pattern (category_rules : list (string * Naming.category_config))
    (name : string) : bool :=
  match dget name category_rules with
  | Some category_config =>
      match Naming.Pattern category_config with
      | Val pattern => negb (String.eqb pattern "")
      | _ => false
      end
  | None => false
  end.

(** The number of files of the classification, and of those whose
    category has a pattern. *)
Definition files_in (classifications : list (string * list Naming.file_entry)) : nat :=
  sum_list (length <$> classifications.*2).

Definition files_attempted (category_rules : list (string * Naming.category_config))
    (classifications : list (string * list Naming.file_entry)) : nat :=
  files_in (List.filter (λ cf, has_pattern category_rules cf.1) classifications).

(** A classification of the examples: two pages that get the same name,
    and a category without rule. *)
Definition web_classification : list (string * list Naming.file_entry) :=
  [ ("Web_Content", [ site_file "page_a.html" 1 90; site_file "page_b.html" 2 70 ]);
    ("Unknown", [ site_file "notes.txt" 3 10 ]) ].

Definition web_config : Naming.config :=
  {| Naming.NamingRules := Some [ fixed_name_rules "Web_Content" "GW_Web_Page{ext}" ];
     Naming.GlobalSettings := duplicates Absent |}.

(** The counters and the mappings that the loops maintain. *)
Definition accounted (done_ attempted : nat) (st : Naming.summary * list Naming.entry)
    : Prop :=
  Naming.FilesRenamed st.1 = length st.2 ∧
  Naming.FilesRenamed st.1 + Naming.Errors st.1 = done_ ∧
  Naming.TotalFiles st.1 = attempted ∧
  Naming.TotalFiles st.1 ≤ done_ ∧
  Forall (λ e, Naming.NewFileName e ≠ "") st.2.


(** A calendar date at midnight, of a year that is written on four
    digits. *)
Definition midnight_date (d : datetime) : Prop :=
  (1000 ≤ year d < 10 * 1000) ∧ (1 ≤ month d ≤ 12) ∧
  (1 ≤ day d ≤ Naming.days_in_month (year d) (month d)) ∧
  hour d = 0 ∧ minute d = 0 ∧ second d = 0.

(** The string holds no digit. *)
Definition digit_free (s : string) : bool :=
  forallb (λ c, negb (is_digit c)) (String.list_ascii_of_string s).

(** A string of [n] digits that writes the number [v]. *)
Definition writes (n v : nat) (s : string) : bool :=
  (String.length s =? n)%nat &&
  forallb is_digit (String.list_ascii_of_string s) &&
  (digits_value s =? v)%nat.

Definition christmas_2024 : datetime :=
  {| year := 2024; month := 12; day := 25; hour := 0; minute := 0; second := 0 |}.

(** The values of a trigger payload that are not [null]. *)
Definition payload_values (p : Classify.Trigger.payload) : list string :=
  match Classify.Trigger.Values p with
  | Val l => omap id l
  | _ => []
  end.

(** A keyword trigger written in capitals. *)
Definition capital_keyword_payload : Classify.Trigger.payload :=
  keyword_payload "FESTIVAL" (Val 3%Z).

(** Entries of the AddVersion examples: three pages that get the same
    name, and a page without score that is alone at its destination. *)
Definition versioned_pages : list Naming.entry :=
  [ site_entry "page_b.html" "GW_Web_Page.html" 2 70;
    site_entry "page_a.html" "GW_Web_Page.html" 1 90;
    site_entry "page_c.html" "GW_Web_Page.html" 3 70;
    unscored_entry "page_d.html" "GW_Web_Index.html" ].

(** * Properties of the classification engine *)

Section Resolution.
Import Classify.

(** The loop of [choose_best_category], started from any best pair:
    either nothing beats the start, or the result is the first entry
    that reaches the largest score. *)
Lemma choose_best_fold (scores : score_map) (priority : list string) (best : string * Z) :
  let step := λ (best : string * Z) name,
    let score := default 0%Z (dget name scores) in
    if (best.2 <? score)%Z then (name, score) else best in
  (foldl step best priority = best ∧
     ∀ n, n ∈ priority → (score_of scores n ≤ best.2)%Z)
  ∨ ∃ before winner after,
      priority = before ++ winner :: after ∧
      (best.2 < score_of scores winner)%Z ∧
      (∀ n, n ∈ before → (score_of scores n < score_of scores winner)%Z) ∧
      (∀ n, n ∈ after → (score_of scores n ≤ score_of scores winner)%Z) ∧
      foldl step best priority = (winner, score_of scores winner).
Proof.
  intros step. revert best.
  induction priority as [|x l IH]; intros best.
  - left. split; [done|]. intros n Hn. inversion Hn.
  - cbn [foldl]. unfold step at 2 4. fold (score_of scores x).
    destruct (Z.ltb_spec best.2 (score_of scores x)) as [Hlt|Hge].
    + destruct (IH (x, score_of scores x)) as [[Heq Hall]|(b & w & a & -> & Hw & Hb & Ha & Heq)].
      * right. exists [], x, l. cbn in *. split_and!; try done.
        intros n Hn. inversion Hn.
      * right. exists (x :: b), w, a. cbn in *. split_and!; try done; [lia|].
        intros n [->|Hn]%elem_of_cons; [lia|by apply Hb].
    + destruct (IH best) as [[Heq Hall]|(b & w & a & -> & Hw & Hb & Ha & Heq)].
      * left. split; [done|].
        intros n [->|Hn]%elem_of_cons; [lia|by apply Hall].
      * right. exists (x :: b), w, a. cbn. split_and!; try done.
        intros n [->|Hn]%elem_of_cons; [lia|by apply Hb].
Qed.

(** C2. Category resolution: when some category of the priority list has
    a positive score, the winner is the first category in priority order
    whose score is the maximum (earlier ones are strictly smaller, later
    ones at most equal), with that score; otherwise, the maximum being at
    most 0, the winner is "Unknown" with score 0.  [classify] assigns
    exactly this pair to a record whose scoring did not raise. *)
Theorem resolve_first_maximum_or_unknown `{PyRuntime} :
  (∀ (scores : score_map) (priority : list string),
     ((∀ n, n ∈ priority → (score_of scores n ≤ 0)%Z) ∧
      resolve scores priority = ("Unknown", 0%Z))
     ∨ ∃ before winner after,
         priority = before ++ winner :: after ∧
         (0 < score_of scores winner)%Z ∧
         (∀ n, n ∈ before → (score_of scores n < score_of scores winner)%Z) ∧
         (∀ n, n ∈ after → (score_of scores n ≤ score_of scores winner)%Z) ∧
         choose_best_category scores priority = (winner, score_of scores winner) ∧
         resolve scores priority = (winner, score_of scores winner))
  ∧ (∀ (self : Classifier) (record : FileRecord.t),
       match score_record self record with
       | Ok sm =>
           let scores := (apply_insight_adjustments record sm).1 in
           ∃ record', classify_scored self record = Ok record' ∧
             (FileRecord.winning_category record', FileRecord.winning_score record')
             = resolve scores (priority self)
       | Raise e => classify_scored self record = Raise e
       end).
Proof.
  split.
  - intros scores priority. unfold resolve, choose_best_category.
    destruct (choose_best_fold scores priority ("Unknown", (-1)%Z))
      as [[Heq Hall]|(b & w & a & -> & Hw & Hb & Ha & Heq)]; cbn in *.
    + left. rewrite Heq. cbn. split; [|done].
      intros n Hn. specialize (Hall n Hn). lia.
    + rewrite Heq. cbn.
      destruct (Z.leb_spec (score_of scores w) 0) as [Hle|Hgt].
      * left. split; [|done].
        intros n [Hn|[->|Hn]%elem_of_cons]%elem_of_app.
        -- specialize (Hb n Hn). lia.
        -- done.
        -- specialize (Ha n Hn). lia.
      * right. exists b, w, a. split_and!; done.
  - intros self record. unfold classify_scored.
    destruct (score_record self record) as [sm|e]; cbn; [|done].
    eexists. split; [done|]. cbn. by destruct (resolve _ _).
Qed.

End Resolution.

Section Construction.
Import Classify Classify.FileRecord.
Context `{PyRuntime}.

Lemma rbind_Ok {A B} (m : result A) (k : A → result B) (b : B) :
  rbind m k = Ok b → ∃ a, m = Ok a ∧ k a = Ok b.
Proof. destruct m as [a|e]; cbn; [eauto|done]. Qed.

(** C10, as amended.  A field is the value of the key tried first when
    that value is true, and otherwise the value of the key tried second,
    returned as it is ([None] when the key is absent, a false value such
    as 0 when it is present).  The key tried first is the snake_case one
    for rank and score and the PascalCase one for every other field: size,
    size in bytes, modification time, drive, full path, directory, file
    name, keywords and extension.  Full path, directory and extension fall
    back to the empty string and keywords to the empty list; the keywords
    are the items of the value that are not [None], as strings, and the
    extension is the value as a string, a dot put before it when it is true
    and has none; a file name that is false is taken from a true full path;
    [exists] is decided by the presence of the key "Exists". *)
Theorem post_init_field_resolution (raw : list (string * pyval)) (r : t) :
  post_init raw = Ok r →
  let get := raw_get raw in
  let first_true (a b : string) := if truthy (get a) then get a else get b in
  rank r = first_true "rank" "Rank" ∧
  score r = first_true "score" "Score" ∧
  size r = first_true "Size" "size" ∧
  size_bytes r = first_true "SizeBytes" "size_bytes" ∧
  modified r = first_true "Modified" "modified" ∧
  drive r = first_true "Drive" "drive" ∧
  full_path r =
    (if truthy (first_true "FullPath" "full_path")
     then first_true "FullPath" "full_path" else PStr "") ∧
  directory r =
    (if truthy (first_true "Directory" "directory")
     then first_true "Directory" "directory" else PStr "") ∧
  (truthy (first_true "FileName" "filename") = true ∨
   truthy (first_true "FullPath" "full_path") = false →
   file_name r = first_true "FileName" "filename") ∧
  exists_ r =
    (if dmem "Exists" raw then truthy (get "Exists") else truthy (get "exists")) ∧
  (dget "rank" raw = None → rank r = get "Rank") ∧
  (dget "Rank" raw = None → truthy (get "rank") = false → rank r = PNone) ∧
  (truthy (first_true "FileName" "filename") = false →
   ∀ s, first_true "FullPath" "full_path" = PStr s → s ≠ "" →
        file_name r = PStr (path_name s)) ∧
  (∃ items,
     iter_keywords
       (if truthy (first_true "Keywords" "keywords")
        then first_true "Keywords" "keywords" else PList []) = Ok items ∧
     keywords r = str_of_scalar <$> List.filter not_none items ∧
     keywords_lower r = lower <$> keywords r) ∧
  (let value :=
     if truthy (first_true "Extension" "extension")
     then first_true "Extension" "extension" else PStr "" in
   extension r =
     (if truthy value && negb (startswith "." (str_of value))
      then "." +:+ str_of value else str_of value) ∧
   extension_lower r = lower (extension r)).
Proof.
  intros Hinit. unfold post_init in Hinit.
  apply rbind_Ok in Hinit as (fname & Hfname & Hinit).
  apply rbind_Ok in Hinit as (items & Hitems & Hinit).
  apply rbind_Ok in Hinit as (parts & Hparts & Hinit).
  injection Hinit as <-. cbn [rank score size size_bytes modified drive
    full_path directory file_name exists_ keywords keywords_lower
    extension extension_lower].
  unfold py_or. split_and!; try done.
  - intros Hcase. unfold py_or in Hfname. destruct Hcase as [Ht|Hf].
    + rewrite Ht in Hfname. cbn in Hfname. congruence.
    + rewrite Hf in Hfname. rewrite andb_false_r in Hfname. congruence.
  - by destruct (dmem "Exists" raw).
  - intros Hnone. unfold raw_get at 1 2. rewrite Hnone. done.
  - intros Hnone Hfalse. rewrite Hfalse. unfold raw_get. by rewrite Hnone.
  - intros Hfalse s Hpath Hs. unfold py_or in Hfname.
    rewrite Hfalse, Hpath in Hfname. cbn in Hfname.
    apply String.eqb_neq in Hs. rewrite Hs in Hfname. cbn in Hfname. congruence.
  - exists items. unfold py_or in Hitems. done.
Qed.

End Construction.

Section ConstructionExamples.
Import Classify Classify.FileRecord.
Local Existing Instance literal_runtime.

(** C10 as stated fails: a record holding only ["Rank": 0] and
    ["Score": 0] keeps rank 0 and score 0, it does not get [None]. *)
Lemma post_init_pascal_zero_is_kept :
  ∃ r, post_init [("Rank", PInt 0); ("Score", PInt 0)] = Ok r ∧
       rank r = PInt 0 ∧ score r = PInt 0 ∧
       rank r ≠ PNone ∧ score r ≠ PNone.
Proof. eexists. split; [reflexivity|]. cbn. split_and!; done. Qed.

(** For rank the snake_case key is the one tried first. *)
Example post_init_rank_snake_first :
  ∃ r, post_init [("Rank", PInt 7); ("rank", PInt 5)] = Ok r ∧ rank r = PInt 5.
Proof. eexists. split; reflexivity. Qed.

(** A false value under the key tried first is passed over. *)
Example post_init_rank_snake_zero :
  ∃ r, post_init [("rank", PInt 0)] = Ok r ∧ rank r = PNone.
Proof. eexists. split; reflexivity. Qed.

Lemma post_init_field_resolution_witness :
  ∃ r, post_init [("Rank", PInt 0); ("size", PStr "1 KB"); ("Exists", PScalar (SBool false));
                  ("exists", PScalar (SBool true)); ("FileName", PStr "a.txt");
                  ("extension", PStr "md"); ("Extension", PStr "TXT");
                  ("keywords", PList [SStr "b"]); ("Keywords", PList [SStr "A"; SNone])]
       = Ok r ∧
       rank r = PInt 0 ∧ size r = PStr "1 KB" ∧ exists_ r = false ∧
       extension r = ".TXT" ∧ keywords r = ["A"].
Proof.
  eexists. split; [reflexivity|].
  pose proof (post_init_field_resolution
    [("Rank", PInt 0); ("size", PStr "1 KB"); ("Exists", PScalar (SBool false));
     ("exists", PScalar (SBool true)); ("FileName", PStr "a.txt");
     ("extension", PStr "md"); ("Extension", PStr "TXT");
     ("keywords", PList [SStr "b"]); ("Keywords", PList [SStr "A"; SNone])]
    _ eq_refl) as Hres.
  cbn in Hres.
  destruct Hres as (Hrank & _ & Hsize & _ & _ & _ & _ & _ & _ & Hex & _ & _ & _ &
                    (items & Hitems & Hkeys & _) & Hext & _).
  injection Hitems as <-.
  split_and!; assumption.
Defined.

End ConstructionExamples.

Section DictLemmas.
Context {V : Type}.
Implicit Types (d : list (string * V)) (k : string) (v : V).

Lemma dget_dset_eq d k v : dget k (dset k v d) = Some v.
Proof.
  induction d as [|[k' v'] d IH]; cbn.
  - by rewrite String.eqb_refl.
  - destruct (String.eqb k k') eqn:E; cbn.
    + by rewrite String.eqb_refl.
    + by rewrite E.
Qed.

Lemma dget_dset_ne d k k' v : k ≠ k' → dget k' (dset k v d) = dget k' d.
Proof.
  intros Hne. induction d as [|[k0 v0] d IH]; cbn.
  - destruct (String.eqb_spec k' k); [congruence|done].
  - destruct (String.eqb_spec k k0) as [->|Hk0]; cbn.
    + destruct (String.eqb_spec k' k0); [congruence|done].
    + by rewrite IH.
Qed.

Lemma dget_const_map (l : list string) (v : V) k :
  dget k ((λ name, (name, v)) <$> l) = if smem k l then Some v else None.
Proof.
  induction l as [|x l IH]; cbn; [done|].
  destruct (String.eqb k x); [done|]. by rewrite IH.
Qed.
End DictLemmas.

Section Batch.
Import Classify.
Context `{PyRuntime}.

Lemma bucket_bucket_add (b : buckets_t) key k r :
  bucket (bucket_add k r b) key =
  bucket b key ++ (if String.eqb k key then [r] else []).
Proof.
  unfold bucket, bucket_add.
  destruct (String.eqb_spec k key) as [->|Hne].
  - by rewrite dget_dset_eq.
  - rewrite dget_dset_ne by done. by rewrite app_nil_r.
Qed.

(** The loop of [classify] from any state. *)
Lemma classify_loop (self : Classifier) (records : list FileRecord.t)
    (st : buckets_t * nat) :
  let step := λ (st : buckets_t * nat) record,
    let '(record', raised) := classify_one self record in
    (bucket_add (FileRecord.winning_category record') record' st.1,
     if raised : bool then S st.2 else st.2) in
  let out := foldl step st records in
  (∀ key, bucket out.1 key =
          bucket st.1 key ++ List.filter (won_by key) (outcomes self records).*1) ∧
  out.2 = st.2 + length (List.filter snd (outcomes self records)).
Proof.
  intros step. revert st.
  induction records as [|r records IH]; intros st; cbn.
  - split; [intros key; by rewrite app_nil_r|lia].
  - destruct (IH (step st r)) as [Hb He]. split.
    + intros key. rewrite Hb. unfold step, outcomes.
      destruct (classify_one self r) as [r' raised] eqn:E. cbn [fst snd].
      rewrite bucket_bucket_add. unfold won_by at 2.
      rewrite <- (assoc_L (++)). f_equal.
      by destruct (String.eqb _ key).
    + rewrite He. unfold step.
      destruct (classify_one self r) as [r' raised]. cbn.
      destruct raised; cbn [fst snd List.filter length]; unfold outcomes; lia.
Qed.

(** C7. [classify] is total on every batch.  A record whose processing
    raises is left with category "Unknown" and score 0; the bucket of
    every key holds, in batch order, exactly the records that ended with
    that key, so a raising record lies in the "Unknown" bucket and the
    records after it are still classified; and the error count is the
    number of records whose processing raised. *)
Theorem classify_isolates_record_errors (self : Classifier)
    (records : list FileRecord.t) :
  (∀ r, (classify_one self r).2 = true ↔
        ∃ e, classify_scored self (FileRecord.prepare_insights r) = Raise e) ∧
  (∀ r, (classify_one self r).2 = true →
        FileRecord.winning_category (classify_one self r).1 = "Unknown" ∧
        FileRecord.winning_score (classify_one self r).1 = 0%Z) ∧
  (∀ key, bucket (classify self records).1 key =
          List.filter (won_by key) (outcomes self records).*1) ∧
  (∀ r, r ∈ records → (classify_one self r).2 = true →
        (classify_one self r).1 ∈ bucket (classify self records).1 "Unknown") ∧
  (classify self records).2 = length (List.filter snd (outcomes self records)).
Proof.
  assert (Hraise : ∀ r, (classify_one self r).2 = true ↔
        ∃ e, classify_scored self (FileRecord.prepare_insights r) = Raise e).
  { intros r. unfold classify_one.
    destruct (classify_scored self (FileRecord.prepare_insights r)); cbn.
    - split; [done|]. by intros [e He].
    - split; [eauto|done]. }
  assert (Hunknown : ∀ r, (classify_one self r).2 = true →
        FileRecord.winning_category (classify_one self r).1 = "Unknown" ∧
        FileRecord.winning_score (classify_one self r).1 = 0%Z).
  { intros r. unfold classify_one.
    by destruct (classify_scored self (FileRecord.prepare_insights r)). }
  assert (Hbuckets : ∀ key, bucket (classify self records).1 key =
          List.filter (won_by key) (outcomes self records).*1).
  { intros key. unfold classify.
    destruct (classify_loop self records
      (dset "Unknown" [] ((λ name, (name, [])) <$> priority self), 0)) as [Hb _].
    rewrite Hb. cbn [fst].
    replace (bucket _ key) with (@nil FileRecord.t); [done|].
    unfold bucket. destruct (String.eqb_spec "Unknown" key) as [<-|Hne].
    - by rewrite dget_dset_eq.
    - rewrite dget_dset_ne by done. rewrite dget_const_map.
      by destruct (smem key _). }
  split_and!; try done.
  - intros r Hin Hr. rewrite Hbuckets.
    apply list_elem_of_In, filter_In. split.
    + apply list_elem_of_In. unfold outcomes.
      apply list_elem_of_fmap. exists (classify_one self r). split; [done|].
      by apply list_elem_of_fmap_2.
    + unfold won_by. destruct (Hunknown r Hr) as [-> _]. done.
  - unfold classify.
    destruct (classify_loop self records
      (dset "Unknown" [] ((λ name, (name, [])) <$> priority self), 0)) as [_ He].
    by rewrite He.
Qed.

End Batch.

Section BatchExample.
Import Classify.
Local Existing Instance literal_runtime.

(** The bad record is counted and put in "Unknown"; the record after it
    is classified as usual. *)
Example classify_continues_after_error :
  ∃ good, FileRecord.post_init [("filename", PStr "Festival_Interview.txt")] = Ok good ∧
    let out := classify example_classifier [example_bad_record; good] in
    out.2 = 1 ∧
    FileRecord.file_name <$> bucket out.1 "Unknown" = [PInt 5] ∧
    FileRecord.file_name <$> bucket out.1 "Interview_Transcripts"
      = [PStr "Festival_Interview.txt"] ∧
    FileRecord.winning_score <$> bucket out.1 "Interview_Transcripts" = [1%Z].
Proof. eexists. split; [reflexivity|]. vm_compute. split_and!; reflexivity. Qed.

Lemma classify_isolates_record_errors_witness :
  ∃ good, FileRecord.post_init [("filename", PStr "Festival_Interview.txt")] = Ok good ∧
    (classify_one example_classifier example_bad_record).2 = true ∧
    (classify example_classifier [example_bad_record; good]).2 = 1 ∧
    (classify_one example_classifier example_bad_record).1
      ∈ bucket (classify example_classifier [example_bad_record; good]).1 "Unknown".
Proof.
  eexists. split; [reflexivity|]. split; [reflexivity|].
  match goal with |- (classify _ [_; ?g]).2 = _ ∧ _ =>
    destruct (classify_isolates_record_errors example_classifier
                [example_bad_record; g]) as (_ & _ & _ & Hin & Hcount)
  end.
  split.
  - rewrite Hcount. reflexivity.
  - apply Hin; [apply list_elem_of_here|reflexivity].
Defined.

End BatchExample.

Section ConfigLoad.
Import Classify.
Context `{PyRuntime}.

(** The score is checked before the variant: a score that is absent or
    not positive is a [ValueError] whatever the rest of the payload. *)
Lemma from_dict_rejects_nonpositive_score (p : Trigger.payload) :
  (Trigger.Score p = Absent ∨ ∃ z, Trigger.Score p = Val z ∧ (z ≤ 0)%Z) →
  Trigger.from_dict p = Raise ValueError.
Proof.
  intros [Habs|(z & Hz & Hle)]; unfold Trigger.from_dict.
  - by rewrite Habs.
  - rewrite Hz. cbn. by destruct (Z.leb_spec z 0); [|lia].
Qed.

(** A variant name that, stripped and lower-cased, is none of the three
    known ones never yields a trigger. *)
Lemma from_dict_rejects_unknown_type (p : Trigger.payload) :
  let trigger_type :=
    lower (strip (match Trigger.Type_ p with
                  | Absent => "" | Null => "None" | Val s => s end)) in
  trigger_type ≠ "regex" → trigger_type ≠ "keyword" → trigger_type ≠ "extension" →
  ∃ e, Trigger.from_dict p = Raise e.
Proof.
  intros ty Hr Hk He. unfold Trigger.from_dict. fold ty.
  destruct (match Trigger.Score p with
            | Absent => Ok 0%Z | Null => Raise TypeError | Val z => Ok z end)
    as [score|e]; cbn; [|eauto].
  destruct (score <=? 0)%Z; [eauto|].
  destruct (String.eqb_spec ty "regex"); [done|].
  destruct (String.eqb_spec ty "keyword"); [done|].
  destruct (String.eqb_spec ty "extension"); [done|]. eauto.
Qed.

(** A regex trigger without a pattern and a keyword or extension trigger
    without a non-null value never yield a trigger. *)
Lemma from_dict_rejects_missing_parts (p : Trigger.payload) :
  let trigger_type :=
    lower (strip (match Trigger.Type_ p with
                  | Absent => "" | Null => "None" | Val s => s end)) in
  (trigger_type = "regex" ∧
   (Trigger.Pattern p = Absent ∨ Trigger.Pattern p = Null ∨
    Trigger.Pattern p = Val "")) ∨
  ((trigger_type = "keyword" ∨ trigger_type = "extension") ∧
   ∃ l, (Trigger.Values p = Absent ∨ Trigger.Values p = Val l) ∧ omap id l = []) →
  ∃ e, Trigger.from_dict p = Raise e.
Proof.
  intros ty Hcase. unfold Trigger.from_dict. fold ty.
  destruct (match Trigger.Score p with
            | Absent => Ok 0%Z | Null => Raise TypeError | Val z => Ok z end)
    as [score|e]; cbn; [|eauto].
  destruct (score <=? 0)%Z; [eauto|].
  destruct Hcase as [ [Hty Hpat] | [Hty (l & Hval & Hnone)] ].
  - rewrite Hty. cbn. destruct Hpat as [Hpat|[Hpat|Hpat]]; rewrite Hpat; eauto.
  - assert (Hiter : Trigger.iter_values p = Ok [] ∨ Trigger.iter_values p = Ok l).
    { unfold Trigger.iter_values.
      destruct Hval as [Hval|Hval]; rewrite Hval; eauto. }
    destruct Hty as [Hty|Hty]; rewrite Hty; cbn;
      destruct Hiter as [Hiter|Hiter]; rewrite Hiter; cbn; rewrite ?Hnone; cbn; eauto.
Qed.

(** During the load a [ValueError] skips the one trigger. *)
Lemma load_triggers_skips_value_error (p : Trigger.payload)
    (rest : list Trigger.payload) :
  Trigger.from_dict p = Raise ValueError →
  load_triggers (p :: rest) = load_triggers rest.
Proof. intros Hp. cbn. by rewrite Hp. Qed.

(** C8, at the failing input.  A trigger whose score is [null] fails to
    construct with a [TypeError], which the loader does not catch: the
    load of the whole configuration raises, although the category's other
    trigger is well formed.  With a score of 0 in the same place the
    trigger is skipped and the load succeeds. *)
Theorem load_config_aborts_on_null_score :
  let bad := keyword_payload "caleb" Null in
  let good := keyword_payload "robyn" (Val 1%Z) in
  Trigger.from_dict bad = Raise TypeError ∧
  is_ok (Trigger.from_dict good) = true ∧
  load_config (one_category [bad; good]) = Raise TypeError ∧
  ∃ t, Trigger.from_dict good = Ok t ∧
       load_config (one_category [keyword_payload "caleb" (Val 0%Z); good])
       = Ok ([ {| name := "Interview_Transcripts"; triggers := [t];
                  naming_convention := None |} ],
             ["Interview_Transcripts"], []).
Proof.
  cbn zeta. split_and!; try reflexivity.
  eexists. split; reflexivity.
Qed.

End ConfigLoad.

(** * Properties of the naming rules *)

Section Conditions.
Import Naming.
Context `{PyRuntime}.

(** C6, as amended.  Condition evaluation recognises four keys, compared
    without regard to case: [filename] and [fullpath] search the expected
    value as a regular expression in the file name and in the full path
    (a [fullpath] condition is false when the path is empty), [keywords]
    requires every expected keyword among the record's keywords, and
    [extension] compares normalized extensions.  Any other key, the
    trigger aliases [name], [path], [directory] and [folder] among them,
    makes the condition false. *)
Theorem evaluate_condition_supported_keys (key : string) (expected : pyval)
    (ctx : context) :
  (lower key = "filename" →
     evaluate_condition key expected ctx = search (str_of expected) (file_name ctx)) ∧
  (lower key = "fullpath" →
     evaluate_condition key expected ctx =
       if String.eqb (full_path ctx) "" then Ok false
       else search (str_of expected) (full_path ctx)) ∧
  (lower key = "keywords" →
     evaluate_condition key expected ctx =
       Ok (forallb (λ keyword, smem keyword (keywords ctx))
             (normalize_keywords (required_keywords expected)))) ∧
  (lower key = "extension" →
     evaluate_condition key expected ctx =
       rbind (normalize_extension expected)
             (λ e, Ok (String.eqb (extension ctx) e))) ∧
  (smem (lower key) SUPPORTED_CONDITIONS = false →
     evaluate_condition key expected ctx = Ok false) ∧
  (smem (lower key) ["name"; "path"; "directory"; "folder"] = true →
     evaluate_condition key expected ctx = Ok false).
Proof.
  unfold evaluate_condition. split_and!.
  - by intros ->.
  - by intros ->.
  - intros ->. cbn. by destruct (normalize_keywords _).
  - by intros ->.
  - cbn. intros Hno.
    destruct (String.eqb (lower key) "filename"); [done|].
    destruct (String.eqb (lower key) "fullpath"); [done|].
    destruct (String.eqb (lower key) "keywords"); [done|].
    destruct (String.eqb (lower key) "extension"); done.
  - cbn. intros Halias.
    destruct (String.eqb_spec (lower key) "name") as [->|?]; [done|].
    destruct (String.eqb_spec (lower key) "path") as [->|?]; [done|].
    destruct (String.eqb_spec (lower key) "directory") as [->|?]; [done|].
    destruct (String.eqb_spec (lower key) "folder") as [->|?]; done.
Qed.

End Conditions.

Section ConditionExamples.
Import Naming.
Local Existing Instance literal_runtime.

(** C6 as stated fails: a regex trigger aimed at the alias [name], or at
    an unknown target, searches the file name and matches, while a
    condition with the same key and pattern is false. *)
Lemma evaluate_condition_rejects_trigger_aliases :
  ∃ record,
    Classify.FileRecord.post_init [("FileName", PStr "stats_report_20240101.csv")]
      = Ok record ∧
    Classify.FileRecord.get_text_for_target record "name"
      = PStr (file_name stats_context) ∧
    Classify.Trigger.matches (regex_trigger "name" "stats") record = Ok true ∧
    evaluate_condition "name" (PStr "stats") stats_context = Ok false ∧
    Classify.Trigger.matches (regex_trigger "title" "stats") record = Ok true ∧
    evaluate_condition "title" (PStr "stats") stats_context = Ok false ∧
    evaluate_condition "FileName" (PStr "stats") stats_context = Ok true.
Proof. eexists. split; [reflexivity|]. vm_compute. split_and!; reflexivity. Qed.

Lemma evaluate_condition_supported_keys_witness :
  evaluate_condition "Folder" (PStr "reports") stats_context = Ok false ∧
  evaluate_condition "KEYWORDS" (PList [SStr "Stats"; SNone]) stats_context = Ok true.
Proof.
  pose proof (evaluate_condition_supported_keys "Folder" (PStr "reports") stats_context)
    as (_ & _ & _ & _ & _ & Halias).
  pose proof (evaluate_condition_supported_keys "KEYWORDS"
                (PList [SStr "Stats"; SNone]) stats_context)
    as (_ & _ & Hkeywords & _).
  split; [exact (Halias eq_refl)|exact (Hkeywords eq_refl)].
Defined.

End ConditionExamples.

Section RuleSelection.
Import Naming.
Context `{PyRuntime}.

Lemma vacuous_condition_holds (kv : string * pyval) (ctx : context) :
  vacuous_condition kv → evaluate_condition kv.1 kv.2 ctx = Ok true.
Proof.
  intros [Hkey Hnone]. unfold evaluate_condition.
  rewrite Hkey. cbn. by rewrite Hnone.
Qed.

Lemma all_conditions_vacuous (d : list (string * pyval)) (ctx : context) :
  Forall vacuous_condition d → all_conditions d ctx = Ok true.
Proof.
  induction 1 as [|[key expected] d Hkv _ IH]; cbn; [done|].
  pose proof (vacuous_condition_holds (key, expected) ctx Hkv) as Hev.
  cbn in Hev. by rewrite Hev.
Qed.

Lemma first_matching_rule_vacuous_head (r : rule) (rest : list rule) (ctx : context) :
  vacuous_rule r → first_matching_rule (r :: rest) ctx = Ok (Some r).
Proof.
  intros [Hno|(d & Hd & Hall)]; cbn.
  - by rewrite Hno.
  - rewrite Hd. by rewrite all_conditions_vacuous.
Qed.

(** What follows a vacuous rule has no part in the selection, which
    never comes to the default. *)
Lemma first_matching_rule_stops (before after after' : list rule) (r : rule)
    (ctx : context) :
  vacuous_rule r →
  first_matching_rule (before ++ r :: after) ctx
  = first_matching_rule (before ++ r :: after') ctx ∧
  first_matching_rule (before ++ r :: after) ctx ≠ Ok None.
Proof.
  intros Hr. induction before as [|b before [IH1 IH2]].
  - cbn [app]. by rewrite !first_matching_rule_vacuous_head.
  - cbn [app first_matching_rule]. destruct (Condition b); [done| |done].
    by destruct (all_conditions d ctx) as [[|]|e].
Qed.

Lemma first_matching_rule_after_none (before rest : list rule) (ctx : context) :
  first_matching_rule before ctx = Ok None →
  first_matching_rule (before ++ rest) ctx = first_matching_rule rest ctx.
Proof.
  induction before as [|b before IH]; cbn; [done|].
  destruct (Condition b); [done| |done].
  destruct (all_conditions d ctx) as [[|]|e]; cbn; done.
Qed.

(** C9, as amended.  A rule without a condition, or with none but
    keywords conditions whose expected values come to an empty list,
    holds of every record.  Standing first it is selected; standing
    anywhere, the rules after it and the default mapping are never used;
    and it is the one selected exactly when no rule before it is (a rule
    before it that matches wins, one that raises ends the selection). *)
Theorem vacuous_rule_ends_selection (r : rule) :
  vacuous_rule r →
  (∀ rest ctx, first_matching_rule (r :: rest) ctx = Ok (Some r)) ∧
  (∀ cfg cfg' before after after' ctx,
     Rules cfg = before ++ r :: after →
     Rules cfg' = before ++ r :: after' →
     apply_rules cfg ctx = apply_rules cfg' ctx) ∧
  (∀ cfg before after ctx,
     Rules cfg = before ++ r :: after →
     first_matching_rule before ctx = Ok None →
     apply_rules cfg ctx = Ok (copy_mapping (Mapping_ r))).
Proof.
  intros Hr. split_and!.
  - intros rest ctx. by apply first_matching_rule_vacuous_head.
  - intros cfg cfg' before after after' ctx Hcfg Hcfg'.
    unfold apply_rules. rewrite Hcfg, Hcfg'.
    destruct (first_matching_rule_stops before after after' r ctx Hr)
      as [Heq Hfound].
    rewrite <- Heq.
    by destruct (first_matching_rule (before ++ r :: after) ctx) as [[r'|]|e].
  - intros cfg before after ctx Hcfg Hnone. unfold apply_rules.
    rewrite Hcfg, (first_matching_rule_after_none _ _ _ Hnone).
    by rewrite first_matching_rule_vacuous_head.
Qed.

End RuleSelection.

Section RuleSelectionExamples.
Import Naming.
Local Existing Instance literal_runtime.

(** C9 as stated fails: the first rule without a condition is not selected
    when a rule before it matches; and a rule with an empty keywords
    condition is not satisfied when another of its conditions fails, so
    that the default mapping is used. *)
Lemma vacuous_rule_not_always_selected :
  vacuous_rule catch_all_rule ∧
  apply_rules (rules_config [stats_rule; catch_all_rule] None) stats_context
    = Ok [("Type", SStr "Statistics")] ∧
  apply_rules (rules_config [stats_rule; catch_all_rule] None) stats_context
    ≠ Ok (copy_mapping (Mapping_ catch_all_rule)) ∧
  apply_rules (rules_config [empty_keywords_rule] (Some [("Type", SStr "Analysis")]))
              stats_context
    = Ok [("Type", SStr "Analysis")].
Proof. split_and!; [by left|reflexivity|by vm_compute|reflexivity]. Qed.

Lemma vacuous_rule_ends_selection_witness :
  vacuous_rule catch_all_rule ∧
  apply_rules (rules_config [empty_keywords_rule; catch_all_rule; stats_rule]
                            (Some [("Type", SStr "Analysis")])) stats_context
    = Ok [("Type", SStr "Any")].
Proof.
  split; [by left|].
  assert (Hv : vacuous_rule catch_all_rule) by (by left).
  destruct (vacuous_rule_ends_selection catch_all_rule Hv) as (_ & _ & Hsel).
  apply (Hsel _ [empty_keywords_rule] [stats_rule]); reflexivity.
Defined.

End RuleSelectionExamples.

(** * Naming one file *)

Section ScenarioC.
Import Naming.
Context `{PyRuntime}.

(** C5, at the failing input.  With an engine in which [(?i)stats] is found
    in the file name, the file of Scenario C gets the date of its name
    (whatever its modification value and however that would parse), but its
    new name has two dots before the extension: [normalize_extension] keeps
    the leading dot and the pattern has one of its own before [{ext}]. *)
Theorem name_file_scenario_c_doubles_the_dot (modified : field string)
    (script_dir : string) (preserve_paths : bool) :
  re_valid "(?i)stats" = true →
  re_search "(?i)stats" "stats_report_20240101.csv" = true →
  ∃ e, name_file "Data_Reports" scenario_c_pattern scenario_c_rules
         (translate_date_format "yyyy-MM-dd") script_dir preserve_paths
         (scenario_c_file modified) = Ok e ∧
       dget "Date" (Mapping e) = Some (SStr "2024-01-01") ∧
       dget "ext" (Mapping e) = Some (SStr ".csv") ∧
       NewFileName e = "GW_Report_Statistics_2024-01-01..csv" ∧
       NewFileName e ≠ "GW_Report_Statistics_2024-01-01.csv".
Proof.
  intros Hvalid Hfound. unfold name_file.
  change (build_context (scenario_c_file modified))
    with (Ok {| file_name := "stats_report_20240101.csv";
                full_path := "/reports/stats_report_20240101.csv";
                extension := ".csv"; keywords := ["stats"] |}).
  assert (Hcond : evaluate_condition "FileName" (PStr "(?i)stats")
            {| file_name := "stats_report_20240101.csv";
               full_path := "/reports/stats_report_20240101.csv";
               extension := ".csv"; keywords := ["stats"] |} = Ok true).
  { unfold evaluate_condition, search.
    change (lower "FileName") with "filename". cbn. by rewrite Hvalid, Hfound. }
  cbn [rbind]. unfold apply_rules, scenario_c_rules. cbn [Rules first_matching_rule
    Condition all_conditions].
  rewrite Hcond. cbn [rbind copy_mapping Mapping_ default].
  eexists. split; [reflexivity|]. cbn [Mapping NewFileName].
  split_and!; [by vm_compute|by vm_compute|by vm_compute|by vm_compute].
Qed.

End ScenarioC.

Lemma name_file_scenario_c_doubles_the_dot_witness :
  ∃ e, @Naming.name_file literal_runtime "Data_Reports" scenario_c_pattern
         scenario_c_rules (Naming.translate_date_format "yyyy-MM-dd") "/out" false
         (scenario_c_file (Val "2024-01-05T00:00:00")) = Ok e ∧
       Naming.NewFileName e = "GW_Report_Statistics_2024-01-01..csv".
Proof.
  destruct (@name_file_scenario_c_doubles_the_dot literal_runtime
              (Val "2024-01-05T00:00:00") "/out" false eq_refl eq_refl)
    as (e & He & _ & _ & Hname & _).
  exists e. split; assumption.
Defined.

(** * Placeholder substitution *)

#[local] Arguments String.append !_ _ : simpl nomatch.

Section StringLemmas.

Lemma append_assoc (a b c : string) : (a +:+ b) +:+ c = a +:+ (b +:+ c).
Proof. induction a as [|x a IH]; simpl; congruence. Qed.

Lemma append_nil_r (a : string) : a +:+ "" = a.
Proof. induction a as [|x a IH]; simpl; congruence. Qed.


Lemma prefix_append (a b : string) : String.prefix a (a +:+ b) = true.
Proof.
  induction a as [|x a IH]; cbn; [by destruct b|].
  destruct (ascii_dec x x); [done|congruence].
Qed.

End StringLemmas.

Section Tokens.
Import Naming.

Lemma has_close_append (a b : string) :
  has_close (a +:+ b) = has_close a || has_close b.
Proof. induction a as [|x a IH]; cbn; [done|]. rewrite IH. by destruct (Ascii.eqb x "}"). Qed.

Lemma token_at_has_token (s : string) : token_at s = true → has_token s = true.
Proof. destruct s; cbn; [done|]. by intros ->. Qed.

Lemma has_token_append (a s : string) : has_token s = true → has_token (a +:+ s) = true.
Proof.
  intros Hs. induction a as [|x a IH]; cbn; [done|].
  rewrite IH. apply orb_true_r.
Qed.

(** A token written in a string is found by the scan. *)
Lemma token_in_has_token (s : string) : token_in s → has_token s = true.
Proof.
  intros (a & body & b & -> & Hbody & Hclose).
  apply has_token_append, token_at_has_token.
  destruct body as [|c body]; [done|]. cbn in *.
  destruct (Ascii.eqb c "}"); [done|]. cbn in *.
  rewrite has_close_append. cbn. apply orb_true_r.
Qed.

Lemma has_close_sub_tokens (inside : bool) (s : string) :
  has_close s = false → has_close (sub_tokens_go inside s) = false.
Proof.
  revert inside. induction s as [|c s IH]; intros inside; cbn; [done|].
  intros [Hc Hs]%orb_false_elim. rewrite Hc.
  destruct inside; [by apply IH|].
  destruct (Ascii.eqb c "{" && closes s); cbn.
  - by apply IH.
  - rewrite Hc. by apply IH.
Qed.

Lemma has_close_false_closes (s : string) : has_close s = false → closes s = false.
Proof.
  destruct s as [|c s]; cbn; [done|].
  intros [Hc Hs]%orb_false_elim. rewrite Hs. apply andb_false_r.
Qed.

(** An opening brace that starts no token before the substitution starts
    none after it. *)
Lemma closes_sub_tokens (s : string) :
  closes s = false → closes (sub_tokens_go false s) = false.
Proof.
  destruct s as [|c s]; cbn; [done|].
  destruct (Ascii.eqb c "}") eqn:Hc; cbn.
  - intros _.
    assert (Ascii.eqb c "{" = false) as ->.
    { apply Ascii.eqb_eq in Hc as ->. done. }
    cbn. by rewrite Hc.
  - intros Hs. rewrite (has_close_false_closes s Hs), andb_false_r.
    cbn. rewrite Hc. cbn. by apply has_close_sub_tokens.
Qed.

Lemma has_token_sub_tokens (inside : bool) (s : string) :
  has_token (sub_tokens_go inside s) = false.
Proof.
  revert inside. induction s as [|c s IH]; intros inside; [by destruct inside|].
  cbn [sub_tokens_go]. destruct inside.
  - destruct (Ascii.eqb c "}"); apply IH.
  - destruct (Ascii.eqb c "{") eqn:Hc; cbn [andb].
    + destruct (closes s) eqn:Hcl.
      * cbn. apply IH.
      * cbn [has_token token_at]. rewrite Hc, (closes_sub_tokens s Hcl). cbn. apply IH.
    + cbn [has_token token_at]. rewrite Hc. cbn. apply IH.
Qed.

End Tokens.

Section Templates.
Import Naming.

Lemma brace_free_no_open (s : string) : brace_free s = true → no_open s = true.
Proof.
  induction s as [|c s IH]; cbn; [done|].
  intros [[-> _]%andb_true_iff Hs]%andb_true_iff. by apply IH.
Qed.

Lemma brace_free_has_close (s : string) : brace_free s = true → has_close s = false.
Proof.
  induction s as [|c s IH]; cbn; [done|].
  intros [[_ Hc]%andb_true_iff Hs]%andb_true_iff.
  apply negb_true_iff in Hc as ->. by apply IH.
Qed.

Lemma no_open_append (a b : string) :
  no_open a = true → no_open b = true → no_open (a +:+ b) = true.
Proof.
  intros Ha Hb. induction a as [|c a IH]; cbn in *; [done|].
  apply andb_true_iff in Ha as [-> Ha]. by apply IH.
Qed.

Lemma prefix_cons (c d : ascii) (a b : string) :
  String.prefix (String c a) (String d b) = Ascii.eqb c d && String.prefix a b.
Proof.
  cbn. destruct (ascii_dec c d) as [->|Hne].
  - by rewrite Ascii.eqb_refl.
  - by apply Ascii.eqb_neq in Hne as ->.
Qed.

(** Two placeholders with brace-free names are the same text only when the
    names are the same. *)
Lemma prefix_token_same_name (k n rest : string) :
  brace_free k = true → brace_free n = true →
  String.prefix (k +:+ "}") (n +:+ "}" +:+ rest) = true → k = n.
Proof.
  revert n. induction k as [|c k IH]; intros n Hk Hn.
  - destruct n as [|d n]; [done|]. cbn [String.append]. rewrite prefix_cons.
    cbn in Hn. apply andb_true_iff in Hn as [[_ Hd]%andb_true_iff _].
    apply negb_true_iff in Hd. rewrite Ascii.eqb_sym, Hd. done.
  - destruct n as [|d n]; cbn [String.append]; rewrite prefix_cons.
    + cbn in Hk. apply andb_true_iff in Hk as [[_ Hc]%andb_true_iff _].
      apply negb_true_iff in Hc. by rewrite Hc.
    + intros [->%Ascii.eqb_eq Hp]%andb_true_iff. f_equal.
      cbn in Hk, Hn.
      apply andb_true_iff in Hk as [_ Hk]. apply andb_true_iff in Hn as [_ Hn].
      by apply (IH n).
Qed.

Section Replace.
Variables (k new : string).
Let old := "{" +:+ k +:+ "}".

Lemma replace_from_no_open (t rest : string) :
  no_open t = true →
  replace_from 0 old new (t +:+ rest) = t +:+ replace_from 0 old new rest.
Proof.
  induction t as [|c t IH]; [done|]. cbn [no_open].
  intros [Hc Ht]%andb_true_iff. cbn [String.append replace_from].
  unfold old at 1. cbn [String.append]. rewrite prefix_cons.
  apply negb_true_iff in Hc. rewrite Ascii.eqb_sym, Hc. cbn [andb].
  by rewrite IH.
Qed.

Lemma replace_from_skip (a rest : string) :
  replace_from (String.length a) old new (a +:+ rest) = replace_from 0 old new rest.
Proof. induction a as [|c a IH]; [done|]. cbn. apply IH. Qed.

Lemma replace_from_token (n rest : string) :
  brace_free k = true → brace_free n = true →
  replace_from 0 old new ("{" +:+ n +:+ "}" +:+ rest) =
  (if String.eqb n k then new else "{" +:+ n +:+ "}") +:+ replace_from 0 old new rest.
Proof.
  intros Hk Hn. cbn [String.append replace_from]. unfold old at 1.
  cbn [String.append]. rewrite prefix_cons, Ascii.eqb_refl. cbn [andb].
  assert (Hassoc : ∀ x, x +:+ String "}" rest = (x +:+ "}") +:+ rest).
  { intros x. by rewrite append_assoc. }
  destruct (String.eqb_spec n k) as [->|Hne].
  - rewrite Hassoc, prefix_append.
    unfold old at 1. cbn [String.append String.length].
    replace (S (String.length (k +:+ "}")) - 1) with (String.length (k +:+ "}")) by lia.
    f_equal. apply (replace_from_skip (k +:+ "}") rest).
  - destruct (String.prefix (k +:+ "}") (n +:+ String "}" rest)) eqn:Hp.
    { apply (prefix_token_same_name k n rest) in Hp; [congruence|done..]. }
    cbn [String.append]. f_equal.
    rewrite Hassoc, replace_from_no_open.
    + by rewrite append_assoc.
    + apply no_open_append; [by apply brace_free_no_open|done].
Qed.

Lemma replace_render (segs : list segment) :
  brace_free k = true → forallb wf_segment segs = true →
  replace old new (render segs) = render (subst_tok k new <$> segs).
Proof.
  intros Hk. unfold replace.
  induction segs as [|seg segs IH]; [done|]. cbn [forallb].
  intros [Hseg Hsegs]%andb_true_iff. cbn [render foldr fmap list_fmap].
  fold (render segs). fold (render (subst_tok k new <$> segs)).
  destruct seg as [t|n]; cbn [render_segment subst_tok wf_segment] in *.
  - rewrite replace_from_no_open by by apply brace_free_no_open.
    by rewrite IH.
  - apply andb_true_iff in Hseg as [Hn _].
    rewrite !append_assoc. cbn [String.append].
    pose proof (replace_from_token n (render segs) Hk Hn) as Htok.
    cbn [String.append] in Htok. rewrite Htok. rewrite IH by done.
    by destruct (String.eqb n k).
Qed.

End Replace.

Lemma wf_subst_tok (k text : string) (segs : list segment) :
  brace_free text = true → forallb wf_segment segs = true →
  forallb wf_segment (subst_tok k text <$> segs) = true.
Proof.
  intros Ht. induction segs as [|seg segs IH]; [done|].
  cbn [forallb fmap list_fmap].
  intros [Hseg Hsegs]%andb_true_iff. apply andb_true_iff. split; [|by apply IH].
  destruct seg as [t|n]; cbn [subst_tok]; [done|].
  by destruct (String.eqb n k).
Qed.

Lemma resolve_seg_cons (k : string) (v : scalar) (m : mapping) (seg : segment) :
  resolve_seg m (subst_tok k (token_text v) seg) = resolve_seg ((k, v) :: m) seg.
Proof.
  destruct seg as [t|n]; cbn; [done|].
  destruct (String.eqb n k); done.
Qed.

(** The loop of [replace_placeholders] on a cut pattern. *)
Lemma replace_loop_render (m : mapping) (segs : list segment) :
  wf_mapping m = true → forallb wf_segment segs = true →
  foldl (λ result kv, replace ("{" +:+ kv.1 +:+ "}") (token_text kv.2) result)
        (render segs) m
  = render (resolve_seg m <$> segs) ∧
  forallb wf_segment (resolve_seg m <$> segs) = true.
Proof.
  revert segs. induction m as [|[k v] m IH]; intros segs Hm Hsegs.
  - cbn. replace (resolve_seg [] <$> segs) with segs; [done|].
    induction segs as [|[t|n] segs IHs]; cbn in *; [done|..];
      apply andb_true_iff in Hsegs as [_ Hsegs]; by rewrite <- IHs.
  - cbn [wf_mapping forallb] in Hm.
    apply andb_true_iff in Hm as [[Hk Hv]%andb_true_iff Hm]. cbn [fst snd] in *.
    cbn [foldl fst snd]. rewrite replace_render by done.
    destruct (IH (subst_tok k (token_text v) <$> segs) Hm
                 (wf_subst_tok k _ segs Hv Hsegs)) as [Heq Hwf].
    rewrite Heq. rewrite <- list_fmap_compose in *.
    erewrite (list_fmap_ext _ (resolve_seg ((k, v) :: m))) in *;
      [done|intros; apply resolve_seg_cons..].
Qed.

Lemma sub_tokens_no_open (t rest : string) :
  no_open t = true →
  sub_tokens_go false (t +:+ rest) = t +:+ sub_tokens_go false rest.
Proof.
  induction t as [|c t IH]; [done|]. cbn [no_open].
  intros [Hc Ht]%andb_true_iff. cbn [String.append sub_tokens_go].
  apply negb_true_iff in Hc. rewrite Hc. cbn [andb]. by rewrite IH.
Qed.

Lemma sub_tokens_inside (n rest : string) :
  has_close n = false →
  sub_tokens_go true (n +:+ "}" +:+ rest) = sub_tokens_go false rest.
Proof.
  induction n as [|c n IH]; [done|]. cbn.
  intros [-> Hn]%orb_false_elim. by apply IH.
Qed.

Lemma sub_tokens_render (segs : list segment) :
  forallb wf_segment segs = true →
  sub_tokens (render segs) = render_final [] segs.
Proof.
  unfold sub_tokens. induction segs as [|seg segs IH]; [done|]. cbn [forallb].
  intros [Hseg Hsegs]%andb_true_iff. cbn [render render_final foldr].
  fold (render segs). fold (render_final [] segs).
  destruct seg as [t|n]; cbn [render_segment final_text wf_segment dget] in *.
  - rewrite sub_tokens_no_open by by apply brace_free_no_open. by rewrite IH.
  - apply andb_true_iff in Hseg as [Hn Hne].
    rewrite !append_assoc. cbn [String.append sub_tokens_go].
    rewrite Ascii.eqb_refl. cbn [andb].
    assert (closes (n +:+ String "}" (render segs)) = true) as ->.
    { destruct n as [|c n]; [done|]. cbn in *.
      apply andb_true_iff in Hn as [[_ Hc]%andb_true_iff _]. rewrite Hc. cbn.
      rewrite has_close_append. cbn. apply orb_true_r. }
    pose proof (sub_tokens_inside n (render segs) (brace_free_has_close n Hn)) as Hin.
    cbn [String.append] in Hin. rewrite Hin.
    by rewrite IH.
Qed.

Lemma render_final_resolved (m : mapping) (segs : list segment) :
  render_final [] (resolve_seg m <$> segs) = render_final m segs.
Proof.
  induction segs as [|seg segs IH]; [done|]. cbn [render_final foldr fmap list_fmap].
  fold (render_final [] (resolve_seg m <$> segs)). fold (render_final m segs).
  rewrite IH. f_equal. destruct seg as [t|n]; cbn; [done|].
  by destruct (dget n m).
Qed.

End Templates.

Section Placeholders.
Import Naming.

Lemma brace_free_append (a b : string) :
  brace_free a = true → brace_free b = true → brace_free (a +:+ b) = true.
Proof.
  intros Ha Hb. induction a as [|c a IH]; cbn in *; [done|].
  apply andb_true_iff in Ha as [-> Ha]. by apply IH.
Qed.

Lemma wf_mapping_dget (m : mapping) (n : string) (v : scalar) :
  wf_mapping m = true → dget n m = Some v → brace_free (token_text v) = true.
Proof.
  induction m as [|[k w] m IH]; cbn; [done|].
  intros [[_ Hw]%andb_true_iff Hm]%andb_true_iff.
  destruct (String.eqb n k); [by intros [= <-]|by apply IH].
Qed.

Lemma brace_free_render_final (m : mapping) (segs : list segment) :
  wf_mapping m = true → forallb wf_segment segs = true →
  brace_free (render_final m segs) = true.
Proof.
  intros Hm. induction segs as [|seg segs IH]; [done|]. cbn [forallb].
  intros [Hseg Hsegs]%andb_true_iff. cbn [render_final foldr].
  apply brace_free_append; [|by apply IH].
  destruct seg as [t|n]; cbn [final_text wf_segment] in *; [done|].
  destruct (dget n m) as [v|] eqn:Hv; [by apply (wf_mapping_dget m n)|done].
Qed.

(** C3, as amended.  Whatever the pattern and the mapping, the result holds
    no token, that is no opening brace followed by one or more characters
    other than a closing brace and by a closing brace (an empty pair of
    braces or a brace alone stays).  When the pattern is literal text and
    placeholders with non-empty names, and neither the text, the names, the
    keys nor the rendered values hold a brace, every placeholder of the
    mapping is replaced by its value, an empty or null value giving
    "Unknown", every other placeholder is replaced by "Unknown", and the
    result holds no brace. *)
Theorem replace_placeholders_resolves_tokens :
  (∀ pattern m, ¬ token_in (replace_placeholders pattern m)) ∧
  (∀ segs m,
     forallb wf_segment segs = true → wf_mapping m = true →
     replace_placeholders (render segs) m = render_final m segs ∧
     brace_free (replace_placeholders (render segs) m) = true).
Proof.
  split.
  - intros pattern m Htok. apply token_in_has_token in Htok.
    unfold replace_placeholders, sub_tokens in Htok.
    by rewrite has_token_sub_tokens in Htok.
  - intros segs m Hsegs Hm.
    assert (Heq : replace_placeholders (render segs) m = render_final m segs).
    { unfold replace_placeholders.
      destruct (replace_loop_render m segs Hm Hsegs) as [-> Hwf].
      by rewrite sub_tokens_render, render_final_resolved. }
    split; [done|]. rewrite Heq. by apply brace_free_render_final.
Qed.

(** C3 as stated fails: an empty pair of braces and a brace alone stay in
    the file name; and a value that is itself a placeholder of the mapping
    is replaced in its turn. *)
Lemma replace_placeholders_leaves_braces :
  replace_placeholders "GW_{}_{Type}.txt" [("Type", SStr "Report")]
    = "GW_{}_Report.txt" ∧
  has_brace (replace_placeholders "GW_{}_{Type}.txt" [("Type", SStr "Report")]) = true ∧
  replace_placeholders "GW_{Type.txt" [("Type", SStr "Report")] = "GW_{Type.txt" ∧
  replace_placeholders "GW_{A}.txt" [("A", SStr "{B}"); ("B", SStr "x")] = "GW_x.txt".
Proof. split_and!; reflexivity. Qed.

(** The pattern and the mapping of Scenario C, cut into segments. *)
Example replace_placeholders_scenario_c :
  let segs := [Lit "GW_Report_"; Tok "Type"; Lit "_"; Tok "Date"; Lit "."; Tok "ext"] in
  let m := [("Type", SStr "Statistics"); ("Date", SNone); ("ext", SStr "csv")] in
  render segs = "GW_Report_{Type}_{Date}.{ext}" ∧
  render_final m segs = "GW_Report_Statistics_Unknown.csv" ∧
  replace_placeholders (render segs) m = "GW_Report_Statistics_Unknown.csv".
Proof. cbn zeta. split_and!; reflexivity. Qed.

Lemma replace_placeholders_resolves_tokens_witness :
  let segs := [Lit "GW_Report_"; Tok "Type"; Lit "_"; Tok "Date"; Lit "."; Tok "ext"] in
  let m := [("Type", SStr "Statistics"); ("Date", SNone)] in
  forallb wf_segment segs = true ∧ wf_mapping m = true ∧
  replace_placeholders "GW_Report_{Type}_{Date}.{ext}" m
    = "GW_Report_Statistics_Unknown.Unknown" ∧
  ¬ token_in (replace_placeholders "GW_{}_{Type}.txt" m).
Proof.
  cbn zeta. split; [reflexivity|]. split; [reflexivity|]. split.
  - exact (proj1 (proj2 replace_placeholders_resolves_tokens
             [Lit "GW_Report_"; Tok "Type"; Lit "_"; Tok "Date"; Lit "."; Tok "ext"]
             [("Type", SStr "Statistics"); ("Date", SNone)] eq_refl eq_refl)).
  - apply (proj1 replace_placeholders_resolves_tokens).
Defined.

End Placeholders.

Section ScenarioCExtensions.
Import Naming.
Context `{PyRuntime}.

(** A normalized extension is empty or starts with a dot. *)
Lemma normalize_extension_shape (ext : field string) :
  ∃ x, normalize_extension (field_to_pyval ext) = Ok x ∧
       (x = "" ∨ ∃ y, x = String "." y).
Proof.
  destruct ext as [| |s]; cbn; [eauto..|].
  unfold normalize_extension. cbn.
  destruct (String.eqb s ""); cbn; [eauto|].
  eexists. split; [done|]. right. unfold startswith.
  destruct (lower (strip s)) as [|c r] eqn:Hs; [cbn; eauto|].
  rewrite prefix_cons. destruct (Ascii.eqb_spec "." c) as [<-|]; cbn; [|eauto].
  destruct r; eauto.
Qed.

(** Whatever the extension recorded for the file of Scenario C, its new
    name is not the one with a single dot. *)
Lemma name_file_scenario_c_never_single_dot (ext modified : field string)
    (script_dir : string) (preserve_paths : bool) (e : entry) :
  re_valid "(?i)stats" = true →
  re_search "(?i)stats" "stats_report_20240101.csv" = true →
  name_file "Data_Reports" scenario_c_pattern scenario_c_rules
    (translate_date_format "yyyy-MM-dd") script_dir preserve_paths
    (scenario_c_file_with ext modified) = Ok e →
  NewFileName e ≠ "GW_Report_Statistics_2024-01-01.csv".
Proof.
  intros Hvalid Hfound. unfold name_file, build_context.
  cbn [scenario_c_file_with Extension Keywords FileName FullPath Modified Rank].
  destruct (normalize_extension_shape ext) as (x & -> & Hx).
  cbn [rbind]. unfold apply_rules, scenario_c_rules.
  cbn [Rules first_matching_rule Condition all_conditions file_name extension].
  assert (Hcond : ∀ ctx, file_name ctx = "stats_report_20240101.csv" →
            evaluate_condition "FileName" (PStr "(?i)stats") ctx = Ok true).
  { intros ctx Hctx. unfold evaluate_condition, search.
    change (lower "FileName") with "filename". cbn. by rewrite Hvalid, Hctx, Hfound. }
  rewrite Hcond by done. cbn [rbind copy_mapping Mapping_ default].
  destruct Hx as [->| [y ->]].
  - vm_compute. by intros [= <-].
  - vm_compute. by intros [= <-].
Qed.

End ScenarioCExtensions.

(** * Conflict resolution *)

#[local] Arguments String.append !_ _ : simpl nomatch.

Section Grouping.
Import Naming.
Implicit Types (ms : list entry) (d : list (string * list nat)) (p : string).

Lemma dget_Some_elem {V} (dd : list (string * V)) (k : string) (v : V) :
  dget k dd = Some v → (k, v) ∈ dd.
Proof.
  induction dd as [|[k' v'] dd IH]; cbn; [done|].
  destruct (String.eqb_spec k k') as [->|Hne].
  - intros [= ->]. apply list_elem_of_here.
  - intros Hget. apply list_elem_of_further. by apply IH.
Qed.

Lemma dget_None_keys {V} (dd : list (string * V)) (k : string) :
  dget k dd = None → k ∉ dd.*1.
Proof.
  induction dd as [|[k' v'] dd IH]; cbn; [intros _; apply not_elem_of_nil|].
  destruct (String.eqb_spec k k') as [->|Hne]; [done|].
  intros Hget [->|Hin]%elem_of_cons; [done|]. by apply IH.
Qed.

Lemma elem_dget_Some {V} (dd : list (string * V)) (k : string) (v : V) :
  NoDup dd.*1 → (k, v) ∈ dd → dget k dd = Some v.
Proof.
  induction dd as [|[k' v'] dd IH]; cbn; [intros _ Hin; inversion Hin|].
  intros [Hk' Hnd]%NoDup_cons [[= -> ->]|Hin]%elem_of_cons.
  - by rewrite String.eqb_refl.
  - destruct (String.eqb_spec k k') as [->|Hne]; [|by apply IH].
    destruct Hk'. apply list_elem_of_fmap. by exists (k', v).
Qed.

Lemma dset_keys {V} (dd : list (string * V)) (k : string) (v : V) :
  (dset k v dd).*1 = if dmem k dd then dd.*1 else dd.*1 ++ [k].
Proof.
  unfold dmem. induction dd as [|[k' v'] dd IH]; cbn; [done|].
  destruct (String.eqb_spec k k') as [->|Hne]; cbn; [done|].
  rewrite IH. by destruct (dget k dd).
Qed.

Lemma dset_NoDup {V} (dd : list (string * V)) (k : string) (v : V) :
  NoDup dd.*1 → NoDup (dset k v dd).*1.
Proof.
  intros Hnd. rewrite dset_keys. unfold dmem.
  destruct (dget k dd) eqn:Hget; [done|].
  apply NoDup_app. split_and!; [done| |apply NoDup_singleton].
  intros x Hx Hk%list_elem_of_singleton. subst x.
  by apply (dget_None_keys dd k).
Qed.

Lemma indices_with_path_snoc p ms e :
  indices_with_path p (ms ++ [e]) =
  indices_with_path p ms ++ (if String.eqb (NewPath e) p then [length ms] else []).
Proof.
  unfold indices_with_path. rewrite imap_app, List.filter_app, fmap_app. f_equal.
  cbn. rewrite Nat.add_0_r. by destruct (String.eqb (NewPath e) p).
Qed.

Lemma by_path_snoc ms e :
  by_path (ms ++ [e]) =
  dset (NewPath e) (default [] (dget (NewPath e) (by_path ms)) ++ [length ms]) (by_path ms).
Proof.
  unfold by_path. rewrite imap_app, foldl_app. cbn. by rewrite Nat.add_0_r.
Qed.

(** The dictionary built by the grouping loop: under each destination, the
    indices of the entries that have it, in list order. *)
Lemma by_path_spec ms :
  NoDup (by_path ms).*1 ∧
  ∀ p, dget p (by_path ms) =
       match indices_with_path p ms with
       | [] => None
       | items => Some items
       end.
Proof.
  induction ms as [|e ms [IHnd IHget]] using rev_ind.
  - split; [apply NoDup_nil_2|done].
  - rewrite by_path_snoc. split; [by apply dset_NoDup|].
    intros p. rewrite indices_with_path_snoc.
    destruct (String.eqb_spec (NewPath e) p) as [<-|Hne].
    + rewrite dget_dset_eq, IHget.
      by destruct (indices_with_path (NewPath e) ms).
    + rewrite dget_dset_ne, IHget, app_nil_r by done. done.
Qed.

Lemma indices_with_path_lookup p ms i :
  i ∈ indices_with_path p ms ↔ ∃ e, ms !! i = Some e ∧ NewPath e = p.
Proof.
  unfold indices_with_path. rewrite list_elem_of_fmap. split.
  - intros ([j e] & -> & [Hin Hp]%list_elem_of_In%filter_In).
    apply list_elem_of_In, list_elem_of_lookup in Hin as [k Hk].
    rewrite list_lookup_imap in Hk.
    destruct (ms !! k) as [e'|] eqn:Hms; [|done]. cbn in Hk. injection Hk as <- <-.
    exists e'. split; [done|]. by apply String.eqb_eq.
  - intros (e & Hms & <-). exists (i, e). split; [done|].
    apply list_elem_of_In, filter_In. split; [|apply String.eqb_refl].
    apply list_elem_of_In, list_elem_of_lookup. exists i.
    by rewrite list_lookup_imap, Hms.
Qed.

End Grouping.

Section Sorting.
Import Naming.
Implicit Types (x y : Z * nat) (l : list (Z * nat)).

Lemma sorts_beforeb_spec y x : sorts_beforeb y x = true ↔ sorts_before y x.
Proof.
  unfold sorts_beforeb, sorts_before.
  rewrite orb_true_iff, andb_true_iff, Z.ltb_lt, Z.eqb_eq, Nat.ltb_lt. done.
Qed.

Lemma sorts_before_irrefl x : ¬ sorts_before x x.
Proof. unfold sorts_before. lia. Qed.

Lemma sorts_before_asym y x : sorts_before y x → ¬ sorts_before x y.
Proof. unfold sorts_before. lia. Qed.

Lemma insert_desc_perm x l : insert_desc x l ≡ₚ x :: l.
Proof.
  induction l as [|y l IH]; cbn; [done|].
  destruct (x.1 <? y.1)%Z; [|done]. rewrite IH. apply perm_swap.
Qed.

Lemma sort_desc_perm l : sort_desc l ≡ₚ l.
Proof.
  induction l as [|x l IH]; cbn; [done|].
  fold (sort_desc l). by rewrite insert_desc_perm, IH.
Qed.

(** Inserting an item that is earlier in the list than all the others keeps
    the order of the sort. *)
Lemma insert_desc_sorted x l :
  StronglySorted sorts_before l → Forall (λ y, x.2 < y.2) l →
  StronglySorted sorts_before (insert_desc x l).
Proof.
  induction 1 as [|y l Hsorted IH Hy]; intros Hx; cbn.
  - repeat constructor.
  - apply Forall_cons in Hx as [Hxy Hx].
    destruct (Z.ltb_spec x.1 y.1) as [Hlt|Hge].
    + constructor; [by apply IH|].
      rewrite insert_desc_perm. constructor; [by left|done].
    + constructor; [by constructor|].
      constructor; [unfold sorts_before; lia|].
      rewrite Forall_forall in Hy, Hx |- *. intros z Hz.
      specialize (Hy z Hz). specialize (Hx z Hz).
      unfold sorts_before in *. lia.
Qed.

Lemma sort_desc_sorted l :
  StronglySorted (λ a b : Z * nat, a.2 < b.2) l →
  StronglySorted sorts_before (sort_desc l).
Proof.
  induction 1 as [|x l Hsorted IH Hx]; cbn; [constructor|].
  fold (sort_desc l). apply insert_desc_sorted; [done|].
  by rewrite sort_desc_perm.
Qed.

(** In a sorted list the position of an item is the number of items sorted
    before it. *)
Lemma sorted_position_count l k x :
  StronglySorted sorts_before l → l !! k = Some x →
  length (List.filter (λ y, sorts_beforeb y x) l) = k.
Proof.
  intros Hsorted. revert k.
  induction Hsorted as [|y l Hsorted IH Hy]; intros k Hk; [done|].
  cbn [List.filter]. destruct k as [|k]; cbn in Hk.
  - injection Hk as ->.
    destruct (sorts_beforeb x x) eqn:Hxx.
    { apply sorts_beforeb_spec in Hxx. by apply sorts_before_irrefl in Hxx. }
    replace (List.filter (λ y, sorts_beforeb y x) l) with (@nil (Z * nat)); [done|].
    symmetry. clear IH Hsorted.
    induction l as [|z l IHl]; [done|]. cbn.
    apply Forall_cons in Hy as [Hz Hy].
    destruct (sorts_beforeb z x) eqn:Hzx; [|by apply IHl].
    apply sorts_beforeb_spec in Hzx. by apply sorts_before_asym in Hzx.
  - assert (Hyx : sorts_beforeb y x = true).
    { apply sorts_beforeb_spec. rewrite Forall_forall in Hy.
      apply Hy. by eapply list_elem_of_lookup_2. }
    rewrite Hyx. cbn. f_equal. by apply IH.
Qed.

Lemma filter_length_perm {A} (f : A → bool) (l l' : list A) :
  l ≡ₚ l' → length (List.filter f l) = length (List.filter f l').
Proof.
  induction 1 as [|x l l' _ IH|x y l|l l' l'' _ IH1 _ IH2]; cbn.
  - done.
  - destruct (f x); cbn; by rewrite IH.
  - by destruct (f x), (f y).
  - by rewrite IH1.
Qed.

Lemma filter_length_fmap {A B} (g : A → B) (f : B → bool) (l : list A) :
  length (List.filter f (g <$> l)) = length (List.filter (λ a, f (g a)) l).
Proof.
  induction l as [|a l IH]; cbn; [done|].
  destruct (f (g a)); cbn; by rewrite IH.
Qed.

End Sorting.

Section Groups.
Import Naming.
Implicit Types (ms st : list entry) (p : string).

Lemma indices_with_path_lt p ms i : i ∈ indices_with_path p ms → i < length ms.
Proof.
  intros (e & He & _)%indices_with_path_lookup. by eapply lookup_lt_Some.
Qed.

Lemma indices_with_path_sorted p ms : StronglySorted lt (indices_with_path p ms).
Proof.
  induction ms as [|e ms IH] using rev_ind; [constructor|].
  rewrite indices_with_path_snoc. apply StronglySorted_app_2; [|done|].
  - intros i j Hi Hj. apply indices_with_path_lt in Hi.
    destruct (String.eqb (NewPath e) p); [|by apply elem_of_nil in Hj].
    by apply list_elem_of_singleton in Hj as ->.
  - destruct (String.eqb (NewPath e) p); repeat constructor.
Qed.

Lemma indices_with_path_NoDup p ms : NoDup (indices_with_path p ms).
Proof.
  pose proof (indices_with_path_sorted p ms) as Hsorted.
  induction Hsorted as [|i l _ IH Hi]; [apply NoDup_nil_2|].
  apply NoDup_cons. split; [|done].
  intros Hin. rewrite Forall_forall in Hi. specialize (Hi i Hin). lia.
Qed.

Lemma sort_key_comparable (e : entry) :
  Score (OriginalFile e) ≠ Null → sort_key e = Ok (score_value e).
Proof. unfold sort_key, score_value. by destruct (Score (OriginalFile e)). Qed.


Lemma same_originals_lookup ms st i e :
  same_originals ms st → Score (OriginalFile e) ≠ Null → ms !! i = Some e →
  ∃ e', st !! i = Some e' ∧ sort_key e' = Ok (score_at ms i).
Proof.
  intros [_ Horig] Hne Hms. specialize (Horig i). rewrite Hms in Horig.
  destruct (st !! i) as [e'|] eqn:Hst; [|done]. injection Horig as Horig.
  exists e'. split; [done|]. unfold score_at. rewrite Hms. cbn.
  unfold sort_key, score_value. rewrite Horig.
  by destruct (Score (OriginalFile e)).
Qed.

Lemma keyed_spec ms st (items : list nat) :
  same_originals ms st → comparable_in ms items →
  (∀ i, i ∈ items → is_Some (ms !! i)) →
  keyed st items = Ok ((λ j, (score_at ms j, j)) <$> items).
Proof.
  intros Horig. induction items as [|i items IH]; intros Hcmp Hvalid; [done|].
  destruct (Hvalid i) as [e He]; [apply list_elem_of_here|].
  assert (Hne : Score (OriginalFile e) ≠ Null).
  { by apply (Hcmp i e); [apply list_elem_of_here|]. }
  destruct (same_originals_lookup ms st i e Horig Hne He) as (e' & Hst & Hkey).
  cbn. rewrite Hst, Hkey. cbn. rewrite IH; [done| |].
  - intros j ej Hj. apply Hcmp. by apply list_elem_of_further.
  - intros j Hj. apply Hvalid. by apply list_elem_of_further.
Qed.

(** Sorting a group: the result is a permutation of the group in which the
    position of an entry is the number of entries sorted before it. *)
Lemma sort_group_spec ms st p :
  same_originals ms st → comparable_in ms (indices_with_path p ms) →
  ∃ sorted,
    sort_group st (indices_with_path p ms) = Ok sorted ∧
    sorted ≡ₚ indices_with_path p ms ∧
    ∀ k i, sorted !! k = Some i →
      k = length (List.filter (λ j, comes_before ms j i) (indices_with_path p ms)).
Proof.
  intros Horig Hcmp. set (items := indices_with_path p ms).
  set (keys := (λ j, (score_at ms j, j)) <$> items).
  assert (Hkeyed : keyed st items = Ok keys).
  { apply keyed_spec; [done..|].
    intros i (e & He & _)%indices_with_path_lookup. by exists e. }
  assert (Hsnd : keys.*2 = items).
  { unfold keys. rewrite <- list_fmap_compose. apply list_fmap_id. }
  exists (sort_desc keys).*2. unfold sort_group. rewrite Hkeyed. cbn.
  split_and!; [done|by rewrite sort_desc_perm, Hsnd|].
  intros k i Hk. rewrite list_lookup_fmap in Hk.
  destruct (sort_desc keys !! k) as [x|] eqn:Hx; [|done]. injection Hk as <-.
  assert (Hin : x ∈ keys).
  { rewrite <- (sort_desc_perm keys). by eapply list_elem_of_lookup_2. }
  apply list_elem_of_fmap in Hin as (i & -> & Hi). cbn.
  assert (Hsorted : StronglySorted sorts_before (sort_desc keys)).
  { apply sort_desc_sorted. unfold keys.
    apply (StronglySorted_fmap _ lt (λ a b : Z * nat, a.2 < b.2)); [done|].
    apply indices_with_path_sorted. }
  rewrite <- (sorted_position_count _ _ _ Hsorted Hx).
  rewrite (filter_length_perm _ _ _ (sort_desc_perm keys)).
  unfold keys. by rewrite filter_length_fmap.
Qed.

End Groups.

Section Resolving.
Import Naming.
Implicit Types (ms st : list entry) (p strategy : string) (items : list nat).

Lemma resolve_group_unfold strategy items st :
  resolve_group strategy items st
  = foldl (resolve_step strategy) st (imap (λ k x, (0 + k, x)) items).
Proof. done. Qed.

Lemma resolve_from_cons strategy n i items st :
  foldl (resolve_step strategy) st (imap (λ k x, (n + k, x)) (i :: items))
  = foldl (resolve_step strategy) (resolve_step strategy st (n, i))
          (imap (λ k x, (S n + k, x)) items).
Proof.
  cbn. rewrite Nat.add_0_r. f_equal. apply imap_ext. intros k x _. cbn. f_equal. lia.
Qed.

Lemma resolve_step_ne strategy st n i j :
  i ≠ j → resolve_step strategy st (n, i) !! j = st !! j.
Proof.
  intros Hne. unfold resolve_step. cbn. destruct n; [done|].
  by apply list_lookup_alter_ne.
Qed.

Lemma resolve_step_eq strategy st n i :
  resolve_step strategy st (n, i) !! i = at_position strategy n <$> st !! i.
Proof.
  unfold resolve_step, at_position. cbn. destruct n.
  - by destruct (st !! i).
  - apply list_lookup_alter_eq.
Qed.

(** The inner loop leaves the entries outside the group as they are. *)
Lemma resolve_from_outside strategy items n st i :
  i ∉ items →
  foldl (resolve_step strategy) st (imap (λ k x, (n + k, x)) items) !! i = st !! i.
Proof.
  revert n st. induction items as [|j items IH]; intros n st Hi; [done|].
  apply not_elem_of_cons in Hi as [Hne Hi].
  rewrite resolve_from_cons, IH by done. by apply resolve_step_ne.
Qed.

(** It rewrites the entry at position [k] of the group by that position. *)
Lemma resolve_from_inside strategy items n st k i :
  NoDup items → items !! k = Some i →
  foldl (resolve_step strategy) st (imap (λ k x, (n + k, x)) items) !! i
  = at_position strategy (n + k) <$> st !! i.
Proof.
  revert n st k. induction items as [|j items IH]; intros n st k Hnd Hk; [done|].
  apply NoDup_cons in Hnd as [Hj Hnd]. rewrite resolve_from_cons.
  destruct k as [|k]; cbn in Hk.
  - injection Hk as ->. rewrite resolve_from_outside by done.
    rewrite Nat.add_0_r. apply resolve_step_eq.
  - rewrite (IH (S n) _ k) by done.
    rewrite resolve_step_ne.
    + by replace (S n + k) with (n + S k) by lia.
    + intros ->. apply Hj. by eapply list_elem_of_lookup_2.
Qed.

Lemma rewrite_entry_original strategy k e :
  OriginalFile (rewrite_entry strategy k e) = OriginalFile e.
Proof.
  unfold rewrite_entry.
  destruct (String.eqb strategy "AddVersion"); [done|].
  by destruct (String.eqb strategy "AppendRank").
Qed.

Lemma resolve_step_originals strategy ms st ii :
  same_originals ms st → same_originals ms (resolve_step strategy st ii).
Proof.
  intros [Hlen Horig]. unfold resolve_step. destruct ii.1 as [|k]; [done|].
  split; [by rewrite length_alter|].
  intros i. rewrite <- Horig. destruct (decide (ii.2 = i)) as [->|Hne].
  - rewrite list_lookup_alter_eq. destruct (st !! i); [|done]. cbn.
    by rewrite rewrite_entry_original.
  - by rewrite list_lookup_alter_ne.
Qed.

Lemma resolve_group_originals strategy ms st items :
  same_originals ms st → same_originals ms (resolve_group strategy items st).
Proof.
  unfold resolve_group. generalize (imap pair items). intros l. revert st.
  induction l as [|ii l IH]; intros st Hst; [done|].
  cbn [foldl]. apply IH. by apply (resolve_step_originals strategy ms st ii).
Qed.

End Resolving.

Section HandleConflicts.
Import Naming.
Implicit Types (ms st : list entry) (p strategy : string) (items : list nat).

Lemma filter_keys_NoDup {V} (f : string * V → bool) (dd : list (string * V)) :
  NoDup dd.*1 → NoDup (List.filter f dd).*1.
Proof.
  induction dd as [|kv dd IH]; cbn; [done|].
  intros [Hk Hnd]%NoDup_cons. destruct (f kv); cbn; [|by apply IH].
  apply NoDup_cons. split; [|by apply IH].
  intros (kv' & Heq & [Hin _]%list_elem_of_In%filter_In)%list_elem_of_fmap.
  apply Hk. apply list_elem_of_fmap. exists kv'. split; [done|].
  by apply list_elem_of_In.
Qed.

Lemma by_path_elem ms p items :
  (p, items) ∈ by_path ms → items = indices_with_path p ms ∧ items ≠ [].
Proof.
  destruct (by_path_spec ms) as [Hnd Hget]. intros Hin.
  apply (elem_dget_Some _ _ _ Hnd) in Hin. rewrite Hget in Hin.
  destruct (indices_with_path p ms); [done|]. by injection Hin as <-.
Qed.

Lemma conflict_groups_elem ms p items :
  (p, items) ∈ conflict_groups ms →
  items = indices_with_path p ms ∧ 1 < length items.
Proof.
  intros [Hin Hlen]%list_elem_of_In%filter_In. cbn in Hlen.
  apply list_elem_of_In, by_path_elem in Hin as [-> _].
  split; [done|]. by apply Nat.ltb_lt.
Qed.

Lemma conflict_groups_NoDup ms : NoDup (conflict_groups ms).*1.
Proof. apply filter_keys_NoDup, by_path_spec. Qed.

Lemma comes_before_irrefl ms i : comes_before ms i i = false.
Proof.
  unfold comes_before. rewrite Z.ltb_irrefl, Nat.ltb_irrefl. apply andb_false_r.
Qed.

(** An entry whose destination is no conflict is alone in its group. *)
Lemma sorted_position_alone ms i e :
  ms !! i = Some e → NewPath e ∉ (conflict_groups ms).*1 →
  sorted_position ms i e = 0.
Proof.
  intros Hms Hout. unfold sorted_position.
  assert (Hi : i ∈ indices_with_path (NewPath e) ms).
  { apply indices_with_path_lookup. eauto. }
  destruct (by_path_spec ms) as [_ Hget]. specialize (Hget (NewPath e)).
  destruct (indices_with_path (NewPath e) ms) as [|j [|j' l]] eqn:Hitems.
  - by apply elem_of_nil in Hi.
  - apply list_elem_of_singleton in Hi as ->. cbn. by rewrite comes_before_irrefl.
  - destruct Hout. apply list_elem_of_fmap. exists (NewPath e, j :: j' :: l).
    split; [done|]. apply list_elem_of_In, filter_In. split; [|done].
    apply list_elem_of_In. by apply dget_Some_elem.
Qed.

(** The loop over the conflict groups, from a store in which the entries of
    the groups still to come are untouched. *)
Lemma resolve_groups_spec strategy ms (groups : list (string * list nat)) st :
  (∀ g, g ∈ groups → comparable_in ms g.2) →
  (∀ g, g ∈ groups → g.2 = indices_with_path g.1 ms) →
  NoDup groups.*1 →
  same_originals ms st →
  (∀ i e, ms !! i = Some e → NewPath e ∈ groups.*1 → st !! i = Some e) →
  ∃ st',
    foldl (λ acc g,
             let! store := acc in
             let! items := sort_group store g.2 in
             Ok (resolve_group strategy items store))
          (Ok st) groups = Ok st' ∧
    same_originals ms st' ∧
    ∀ i e, ms !! i = Some e →
      st' !! i = if bool_decide (NewPath e ∈ groups.*1)
                 then Some (resolved_entry strategy ms i e) else st !! i.
Proof.
  revert st.
  induction groups as [|[p items] groups IH]; intros st Hcmp Hgroups Hnd Horig Hfresh.
  - exists st. split_and!; [done..|]. intros i e _.
    rewrite bool_decide_eq_false_2; [done|]. cbn. apply not_elem_of_nil.
  - cbn [fmap list_fmap fst] in Hnd. apply NoDup_cons in Hnd as [Hp Hnd].
    assert (Hitems : items = indices_with_path p ms).
    { apply (Hgroups (p, items)). apply list_elem_of_here. }
    subst items.
    destruct (sort_group_spec ms st p Horig) as (sorted & Hsort & Hperm & Hpos).
    { apply (Hcmp (p, indices_with_path p ms)), list_elem_of_here. }
    cbn [foldl rbind snd]. rewrite Hsort. cbn [rbind].
    set (st1 := resolve_group strategy sorted st).
    assert (Hout : ∀ i, i ∉ indices_with_path p ms → st1 !! i = st !! i).
    { intros i Hi. unfold st1. rewrite resolve_group_unfold.
      apply resolve_from_outside. by rewrite Hperm. }
    destruct (IH st1) as (st' & Hfold & Horig' & Hst').
    { intros g Hg. apply Hcmp. by apply list_elem_of_further. }
    { intros g Hg. apply Hgroups. by apply list_elem_of_further. }
    { done. }
    { by apply resolve_group_originals. }
    { intros i e Hms Hin. rewrite Hout.
      - apply Hfresh; [done|]. cbn. by apply list_elem_of_further.
      - intros (e' & He' & <-)%indices_with_path_lookup.
        rewrite Hms in He'. injection He' as <-. done. }
    exists st'. split_and!; [done..|].
    intros i e Hms. rewrite (Hst' i e Hms). cbn [fmap list_fmap fst].
    destruct (decide (NewPath e = p)) as [<-|Hne].
    + rewrite (bool_decide_eq_false_2 _ Hp).
      rewrite bool_decide_eq_true_2 by apply list_elem_of_here.
      assert (Hi : i ∈ sorted).
      { rewrite Hperm. apply indices_with_path_lookup. eauto. }
      apply list_elem_of_lookup in Hi as [k Hk].
      unfold st1. rewrite resolve_group_unfold.
      rewrite (resolve_from_inside strategy sorted 0 st k i); [|by rewrite Hperm; apply indices_with_path_NoDup|done].
      rewrite (Hfresh i e Hms) by apply list_elem_of_here. cbn [fmap option_fmap option_map].
      f_equal. unfold resolved_entry, sorted_position, at_position.
      rewrite <- (Hpos k i Hk). cbn. by destruct k.
    + rewrite Hout.
      * destruct (decide (NewPath e ∈ groups.*1)) as [Hin|Hnin].
        -- rewrite !bool_decide_eq_true_2; [done|by apply list_elem_of_further|done].
        -- rewrite !bool_decide_eq_false_2; [done| |done].
           by intros [?|?]%elem_of_cons.
      * intros (e' & He' & <-)%indices_with_path_lookup.
        rewrite Hms in He'. by injection He' as <-.
Qed.

(** The result of [handle_conflicts] in closed form, when no entry of a
    conflict group has a [null] score: every entry becomes what its position
    in its group makes of it, and the number returned is the number of
    groups. *)
Lemma handle_conflicts_closed_form ms (settings : global_settings) :
  (∀ g, g ∈ conflict_groups ms → comparable_in ms g.2) →
  handle_conflicts ms settings
  = Ok (imap (resolved_entry (handle_duplicates_setting settings) ms) ms,
        length (conflict_groups ms)).
Proof.
  intros Hcmp. set (strategy := handle_duplicates_setting settings).
  assert (Hid : conflict_groups ms = [] →
                imap (resolved_entry strategy ms) ms = ms).
  { intros Hnil. apply list_eq. intros i. rewrite list_lookup_imap.
    destruct (ms !! i) as [e|] eqn:Hms; [|done]. cbn. f_equal.
    unfold resolved_entry. rewrite sorted_position_alone; [done..|].
    rewrite Hnil. apply not_elem_of_nil. }
  unfold handle_conflicts. fold strategy.
  destruct (conflict_groups ms) as [|g groups] eqn:Hgroups.
  { by rewrite Hid. }
  rewrite <- Hgroups in *. clear Hid.
  destruct (resolve_groups_spec strategy ms (conflict_groups ms) ms Hcmp)
    as (st' & Hfold & [Hlen Horig] & Hst').
  - intros [p items] Hg. cbn. by apply conflict_groups_elem in Hg as [-> _].
  - apply conflict_groups_NoDup.
  - done.
  - by intros i e Hms _.
  - rewrite Hgroups in Hfold |- *. rewrite Hfold. cbn [rbind]. f_equal. f_equal.
    rewrite <- Hgroups in *.
    apply list_eq. intros i. rewrite list_lookup_imap.
    destruct (ms !! i) as [e|] eqn:Hms; cbn.
    + rewrite (Hst' i e Hms). case_bool_decide as Hin; [done|].
      rewrite Hms. f_equal. unfold resolved_entry.
      by rewrite sorted_position_alone.
    + apply lookup_ge_None. rewrite Hlen. by apply lookup_ge_None.
Qed.


End HandleConflicts.

Section ResolvedLookup.
Import Naming.
Implicit Types (ms : list entry) (settings : global_settings).

Lemma lookup_resolved strategy ms i e :
  ms !! i = Some e →
  imap (resolved_entry strategy ms) ms !! i = Some (resolved_entry strategy ms i e).
Proof. intros Hms. by rewrite list_lookup_imap, Hms. Qed.

End ResolvedLookup.

Section Distinct.
Import Naming.
Implicit Types (ms : list entry) (settings : global_settings).









End Distinct.

Section DistinctPaths.
Import Naming.
Implicit Types (ms : list entry) (settings : global_settings).




End DistinctPaths.

Section ConflictExamples.
Import Naming.



End ConflictExamples.

(** * Further properties of the classification engine *)

Section Membership.

Lemma smem_spec (x : string) (l : list string) : smem x l = true ↔ x ∈ l.
Proof.
  unfold smem. induction l as [|y l IH]; cbn.
  - split; [done|]. by intros ?%elem_of_nil.
  - rewrite orb_true_iff, IH, elem_of_cons, String.eqb_eq. done.
Qed.

Lemma smem_false (x : string) (l : list string) : smem x l = false ↔ x ∉ l.
Proof.
  rewrite <- smem_spec. destruct (smem x l); naive_solver.
Qed.

(** The loop that appends the names not yet seen. *)
Lemma append_unseen_spec (l seen : list string) :
  let out := foldl (λ seen x, if smem x seen then seen else seen ++ [x]) seen l in
  (NoDup seen → NoDup out) ∧
  (∀ x, x ∈ out ↔ x ∈ seen ∨ x ∈ l) ∧
  (∃ rest, out = seen ++ rest) ∧
  (NoDup (seen ++ l) → out = seen ++ l).
Proof.
  revert seen. induction l as [|y l IH]; intros seen; cbn.
  - split_and!; [done| |by exists []; rewrite app_nil_r|by rewrite app_nil_r].
    intros x. rewrite elem_of_nil. tauto.
  - destruct (smem y seen) eqn:Hy.
    + destruct (IH seen) as (Hnd & Hin & Hrest & Hid). split_and!; [done| |done|].
      * intros x. rewrite Hin, elem_of_cons. apply smem_spec in Hy.
        split; [tauto|]. intros [?|[->|?]]; tauto.
      * intros Hdup. apply smem_spec in Hy. apply NoDup_app in Hdup as (_ & Hdisj & _).
        destruct (Hdisj y Hy). apply list_elem_of_here.
    + apply smem_false in Hy.
      destruct (IH (seen ++ [y])) as (Hnd & Hin & [rest Hrest] & Hid). split_and!.
      * intros Hseen. apply Hnd. apply NoDup_app. split_and!; [done| |apply NoDup_singleton].
        intros x Hx ->%list_elem_of_singleton. done.
      * intros x. rewrite Hin, elem_of_app, list_elem_of_singleton, elem_of_cons. tauto.
      * exists (y :: rest). by rewrite Hrest, <- (assoc_L (++)).
      * intros Hdup. rewrite Hid, <- (assoc_L (++)); [done|].
        by rewrite <- (assoc_L (++)).
Qed.

(** X1.  [list(dict.fromkeys(l))]: the result has no duplicate, holds
    exactly the names of [l], and is [l] itself when [l] has no duplicate;
    so that applying it again changes nothing. *)
Theorem dedup_keep_first_spec (l : list string) :
  NoDup (dedup_keep_first l) ∧
  (∀ x, x ∈ dedup_keep_first l ↔ x ∈ l) ∧
  (NoDup l → dedup_keep_first l = l) ∧
  dedup_keep_first (dedup_keep_first l) = dedup_keep_first l.
Proof.
  unfold dedup_keep_first.
  assert (Hspec : ∀ l : list string,
    NoDup (foldl (λ seen x, if smem x seen then seen else seen ++ [x]) [] l) ∧
    (∀ x, x ∈ foldl (λ seen x, if smem x seen then seen else seen ++ [x]) [] l ↔ x ∈ l) ∧
    (NoDup l → foldl (λ seen x, if smem x seen then seen else seen ++ [x]) [] l = l)).
  { intros l'. destruct (append_unseen_spec l' []) as (Hnd & Hin & _ & Hid). split_and!.
    - apply Hnd, NoDup_nil_2.
    - intros x. rewrite Hin, elem_of_nil. tauto.
    - done. }
  destruct (Hspec l) as (Hnd & Hin & Hid). split_and!; [done..|].
  by apply (Hspec _).
Qed.

End Membership.

Section ClassifierInit.
Import Classify.

Lemma dmem_keys {V} (d : list (string * V)) (k : string) :
  dmem k d = true ↔ k ∈ d.*1.
Proof.
  unfold dmem. destruct (dget k d) as [v|] eqn:Hget.
  - split; [intros _|done]. apply list_elem_of_fmap. exists (k, v).
    split; [done|]. by apply dget_Some_elem.
  - split; [done|]. intros Hin. by apply dget_None_keys in Hget.
Qed.

(** The dictionary of the configurations by name. *)
Lemma configs_spec (categories : list CategoryConfig)
    (d : list (string * CategoryConfig)) :
  let out := foldl (λ d cfg, dset (name cfg) cfg d) d categories in
  (NoDup d.*1 → NoDup out.*1) ∧
  (∀ n, n ∈ out.*1 ↔ n ∈ d.*1 ∨ ∃ cfg, cfg ∈ categories ∧ name cfg = n) ∧
  ((∀ n cfg, dget n d = Some cfg → name cfg = n) →
   ∀ n cfg, dget n out = Some cfg → name cfg = n).
Proof.
  revert d. induction categories as [|c categories IH]; intros d; cbn.
  - split_and!; [done| |done]. intros n. split; [tauto|].
    intros [?|(cfg & Hin & _)]; [done|]. by apply elem_of_nil in Hin.
  - destruct (IH (dset (name c) c d)) as (Hnd & Hin & Hval). split_and!.
    + intros Hd. by apply Hnd, dset_NoDup.
    + intros n. rewrite Hin, dset_keys.
      assert (Hkeys : n ∈ (if dmem (name c) d then d.*1 else d.*1 ++ [name c])
                ↔ n ∈ d.*1 ∨ n = name c).
      { destruct (dmem (name c) d) eqn:Hmem.
        - apply dmem_keys in Hmem. split; [tauto|]. by intros [?| ->].
        - rewrite elem_of_app, list_elem_of_singleton. done. }
      rewrite Hkeys. split.
      * intros [[?| ->]|(cfg & Hc & Hn)].
        -- by left.
        -- right. exists c. split; [apply list_elem_of_here|done].
        -- right. exists cfg. split; [by apply list_elem_of_further|done].
      * intros [?|(cfg & [->|Hc]%elem_of_cons & Hn)].
        -- by left; left.
        -- left. by right.
        -- right. by exists cfg.
    + intros Hd. apply Hval. intros n cfg.
      destruct (decide (name c = n)) as [<-|Hne].
      * rewrite dget_dset_eq. by intros [= <-].
      * rewrite dget_dset_ne by done. apply Hd.
Qed.

Lemma filtered_unseen (P : string → bool) (l seen : list string) :
  foldl (λ seen name, if P name && negb (smem name seen) then seen ++ [name] else seen)
        seen l
  = foldl (λ seen x, if smem x seen then seen else seen ++ [x]) seen (List.filter P l).
Proof.
  revert seen. induction l as [|y l IH]; intros seen; cbn; [done|].
  destruct (P y); cbn; [|apply IH]. rewrite <- IH. by destruct (smem y seen).
Qed.

(** X2.  The priority list of a classifier has no duplicate and holds
    exactly the names of the configured categories; it starts with the
    configured names of the given priority, in their order, the other
    categories following; and the configuration kept under a name has that
    name. *)
Theorem Classifier_init_priority (categories : list CategoryConfig)
    (given : list string) :
  let c := Classifier_init categories given in
  NoDup (priority c) ∧
  (∀ n, n ∈ priority c ↔ ∃ cfg, cfg ∈ categories ∧ name cfg = n) ∧
  (∃ rest, priority c =
     dedup_keep_first (List.filter (λ n, dmem n (configs c)) given) ++ rest) ∧
  (∀ n cfg, dget n (configs c) = Some cfg → name cfg = n).
Proof.
  cbn zeta. unfold Classifier_init. cbn [priority configs].
  set (cfgs := foldl (λ d cfg, dset (name cfg) cfg d) [] categories).
  destruct (configs_spec categories []) as (Hnd & Hin & Hval). fold cfgs in Hnd, Hin, Hval.
  rewrite (filtered_unseen (λ n, dmem n cfgs) given []).
  set (seen := foldl (λ seen x, if smem x seen then seen else seen ++ [x]) []
                     (List.filter (λ n, dmem n cfgs) given)).
  destruct (append_unseen_spec (List.filter (λ n, dmem n cfgs) given) [])
    as (Hseen_nd & Hseen_in & _ & _). fold seen in Hseen_nd, Hseen_in.
  destruct (append_unseen_spec (dkeys cfgs) seen) as (Hout_nd & Hout_in & Hout_rest & _).
  split_and!.
  - apply Hout_nd, Hseen_nd, NoDup_nil_2.
  - intros n. rewrite Hout_in. unfold dkeys. rewrite Hin, Hseen_in.
    rewrite !elem_of_nil. split.
    + intros [[[]|[_ Hmem]%list_elem_of_In%filter_In]|[[]|?]]; [|done].
      apply dmem_keys, Hin in Hmem as [Hnil|?]; [|done]. by apply elem_of_nil in Hnil.
    + intros Hcfg. right. by right.
  - done.
  - apply Hval. by intros n cfg.
Qed.

End ClassifierInit.

Section TriggerInvariant.
Import Classify.
Context `{PyRuntime}.

Lemma lower_char_lower_char (c : ascii) : lower_char (lower_char c) = lower_char c.
Proof. by destruct c as [[] [] [] [] [] [] [] []]. Qed.

Lemma lower_lower (s : string) : lower (lower s) = lower s.
Proof.
  induction s as [|c s IH]; cbn; [done|]. by rewrite lower_char_lower_char, IH.
Qed.

Lemma dotted_lower (v : string) :
  lower (Trigger.dotted (lower v)) = Trigger.dotted (lower v) ∧
  startswith "." (Trigger.dotted (lower v)) = true.
Proof.
  unfold Trigger.dotted. destruct (startswith "." (lower v)) eqn:Hdot.
  - by rewrite lower_lower.
  - split; [cbn; by rewrite lower_lower|]. unfold startswith. cbn.
    by destruct (lower v).
Qed.

Lemma from_dict_positive (p : Trigger.payload) (t : Trigger.t) :
  Trigger.from_dict p = Ok t → (0 < Trigger.score t)%Z.
Proof.
  unfold Trigger.from_dict. intros Hok.
  apply rbind_Ok in Hok as (score & _ & Hok).
  destruct (Z.leb_spec score 0) as [|Hpos]; [done|].
  repeat case_match; try done; try (apply rbind_Ok in Hok as (? & _ & Hok));
    repeat case_match; try done; by injection Hok as <-.
Qed.

(** X3.  A trigger that [from_dict] constructs has a positive score and is
    of one of the three kinds: a regex trigger with a non-empty pattern that
    compiles, a keyword trigger with at least one value, all in lower case,
    or an extension trigger with at least one value, all in lower case and
    starting with a dot. *)
Theorem from_dict_invariant (p : Trigger.payload) (t : Trigger.t) :
  Trigger.from_dict p = Ok t →
  (0 < Trigger.score t)%Z ∧
  ((Trigger.type t = "regex" ∧
    ∃ pat, Trigger.pattern t = Some pat ∧ pat ≠ "" ∧ re_valid pat = true) ∨
   (Trigger.type t = "keyword" ∧ Trigger.values t ≠ [] ∧
    Forall (λ v, lower v = v) (Trigger.values t)) ∨
   (Trigger.type t = "extension" ∧ Trigger.values t ≠ [] ∧
    Forall (λ v, lower v = v ∧ startswith "." v = true) (Trigger.values t))).
Proof.
  intros Hok. split; [by eapply from_dict_positive|].
  unfold Trigger.from_dict in Hok.
  apply rbind_Ok in Hok as (score & _ & Hok).
  destruct (score <=? 0)%Z; [done|].
  destruct (String.eqb _ "regex").
  { left. destruct (Trigger.Pattern p) as [| |pat]; [done..|].
    destruct (String.eqb_spec pat ""); [done|].
    destruct (re_valid pat) eqn:Hvalid; [|done]. injection Hok as <-. cbn. eauto. }
  destruct (String.eqb _ "keyword").
  { right. left. apply rbind_Ok in Hok as (items & _ & Hok).
    destruct (lower <$> omap id items) as [|v vs] eqn:Hvalues; [done|].
    injection Hok as <-. cbn. split_and!; [done..|].
    rewrite <- Hvalues. apply Forall_fmap, Forall_forall. intros v' _. cbn.
    apply lower_lower. }
  destruct (String.eqb _ "extension"); [|done].
  right. right. apply rbind_Ok in Hok as (items & _ & Hok).
  destruct ((λ v, Trigger.dotted (lower v)) <$> omap id items) as [|v vs] eqn:Hvalues;
    [done|].
  injection Hok as <-. cbn. split_and!; [done..|].
  rewrite <- Hvalues. apply Forall_fmap, Forall_forall. intros v' _. cbn.
  apply dotted_lower.
Qed.

End TriggerInvariant.

Section ConfigShape.
Import Classify.
Context `{PyRuntime}.

Lemma dedup_NoDup (l : list string) : NoDup (dedup_keep_first l).
Proof. apply (append_unseen_spec l []), NoDup_nil_2. Qed.

Lemma dedup_elem (l : list string) (x : string) : x ∈ dedup_keep_first l ↔ x ∈ l.
Proof.
  unfold dedup_keep_first.
  destruct (append_unseen_spec l []) as (_ & Hin & _). rewrite Hin, elem_of_nil. tauto.
Qed.

(** The loaded triggers are the payloads that construct, in their order. *)
Lemma load_triggers_Ok (payloads : list Trigger.payload) (ts : list Trigger.t) :
  load_triggers payloads = Ok ts → ts = omap constructed payloads.
Proof.
  revert ts. induction payloads as [|p payloads IH]; intros ts; cbn.
  - by intros [= <-].
  - unfold constructed at 1. destruct (Trigger.from_dict p) as [t|e].
    + intros (ts' & Hts' & [= <-])%rbind_Ok. f_equal. by apply IH.
    + destruct e; try done. apply IH.
Qed.

Lemma load_categories_Ok (nodes : list (string * category_body))
    (cats : list CategoryConfig) :
  load_categories nodes = Ok cats →
  Forall2 (λ c nb, name c = nb.1 ∧
                   triggers c = omap constructed (payloads_of nb.2) ∧
                   naming_convention c = NamingConvention nb.2) cats nodes.
Proof.
  revert cats. induction nodes as [|[n body] nodes IH]; intros cats; cbn.
  - intros [= <-]. constructor.
  - intros (ts & Hts & (rest & Hrest & [= <-])%rbind_Ok)%rbind_Ok.
    constructor; [|by apply IH]. cbn. split_and!; [done| |done].
    by apply load_triggers_Ok.
Qed.

Lemma constructed_positive (payloads : list Trigger.payload) :
  Forall (λ t, (0 < Trigger.score t)%Z) (omap constructed payloads).
Proof.
  apply Forall_forall. intros t (p & _ & Hp)%list_elem_of_omap.
  unfold constructed in Hp. destruct (Trigger.from_dict p) as [t'|] eqn:Hfrom; [|done].
  injection Hp as <-. by eapply from_dict_positive.
Qed.

Lemma load_categories_positive (nodes : list (string * category_body))
    (cats : list CategoryConfig) :
  load_categories nodes = Ok cats →
  Forall (λ c, Forall (λ t, (0 < Trigger.score t)%Z) (triggers c)) cats.
Proof.
  intros Hshape%load_categories_Ok.
  induction Hshape as [|c nb cs ns (_ & Ht & _) _ IH]; constructor;
    [rewrite Ht; apply constructed_positive|done].
Qed.

Lemma load_categories_names (nodes : list (string * category_body))
    (cats : list CategoryConfig) :
  load_categories nodes = Ok cats → name <$> cats = nodes.*1.
Proof.
  intros Hshape%load_categories_Ok.
  induction Hshape as [|c nb cs ns (Hn & _) _ IH]; cbn; [done|].
  by rewrite Hn, IH.
Qed.

(** X4.  When the configuration loads, the categories come out in the
    order of the document, each with its naming convention and with exactly
    those of its trigger payloads that construct, in their order; every
    loaded trigger has a positive score; and the priority list has no
    duplicate and holds the names of the declared priority and of every
    category. *)
Theorem load_config_shape (data : config_data) (cats : list CategoryConfig)
    (prio : list string) (naming : list (string * string)) :
  load_config data = Ok (cats, prio, naming) →
  Categories data ≠ [] ∧
  Forall2 (λ c nb, name c = nb.1 ∧
                   triggers c = omap constructed (payloads_of nb.2) ∧
                   naming_convention c = NamingConvention nb.2)
          cats (Categories data) ∧
  Forall (λ c, Forall (λ t, (0 < Trigger.score t)%Z) (triggers c)) cats ∧
  NoDup prio ∧
  (∀ n, n ∈ prio ↔ n ∈ CategoryPriority data ∨ n ∈ (Categories data).*1).
Proof.
  unfold load_config. destruct (Categories data) as [|node nodes] eqn:Hnodes; [done|].
  intros (cats' & Hcats & [= <- <- <-])%rbind_Ok.
  pose proof (load_categories_Ok _ _ Hcats) as Hshape.
  split_and!.
  - done.
  - done.
  - by eapply load_categories_positive.
  - apply dedup_NoDup.
  - intros n. rewrite dedup_elem, elem_of_app, dedup_elem.
    by rewrite (load_categories_names _ _ Hcats).
Qed.

End ConfigShape.

Section ConfigShapeExamples.
Import Classify.
Local Existing Instance literal_runtime.

Lemma from_dict_invariant_witness :
  ∃ t, Trigger.from_dict extension_payload = Ok t ∧
       (0 < Trigger.score t)%Z ∧ Trigger.values t = [".md"; ".txt"].
Proof.
  exists {| Trigger.type := "extension"; Trigger.score := 2;
            Trigger.target := "FileName"; Trigger.pattern := None;
            Trigger.values := [".md"; ".txt"] |}.
  split; [vm_compute; reflexivity|].
  split; [|reflexivity].
  refine (proj1 (from_dict_invariant extension_payload _ _)).
  vm_compute. reflexivity.
Defined.

Lemma load_config_shape_witness :
  ∃ cats prio naming,
    load_config two_keyword_config = Ok (cats, prio, naming) ∧
    NoDup prio ∧ length cats = 1.
Proof.
  pose (r := match load_config two_keyword_config with
             | Ok r => r
             | Raise _ => ([], [], [])
             end).
  vm_compute in r.
  exists r.1.1, r.1.2, r.2.
  split; [vm_compute; reflexivity|].
  split; [|reflexivity].
  refine (proj1 (proj2 (proj2 (proj2
            (load_config_shape two_keyword_config r.1.1 r.1.2 r.2 _))))).
  vm_compute. reflexivity.
Defined.

End ConfigShapeExamples.

Section Adjustments.
Import Classify.

Lemma bonus_if_spec (b : bool) (cat reason : string) (sm : score_map * match_map)
    (n : string) :
  let out := bonus_if b cat reason sm in
  let given := Nat.b2n (b && dmem cat sm.1 && String.eqb cat n) in
  dkeys out.1 = dkeys sm.1 ∧
  dmem n out.1 = dmem n sm.1 ∧
  score_of out.1 n = (score_of sm.1 n + Z.of_nat given)%Z ∧
  length (traces_of out.2 n) = length (traces_of sm.2 n) + given.
Proof.
  unfold bonus_if, bonus, score_of, traces_of.
  destruct b; cbn; [|split_and!; [done|done|lia|lia] ].
  destruct (dmem cat sm.1) eqn:Hcat; cbn; [|split_and!; [done|done|lia|lia] ].
  split_and!.
  - unfold dkeys. by rewrite dset_keys, Hcat.
  - unfold dmem in *. destruct (String.eqb_spec cat n) as [->|Hne].
    + by rewrite dget_dset_eq.
    + by rewrite dget_dset_ne.
  - destruct (String.eqb_spec cat n) as [->|Hne]; cbn.
    + rewrite dget_dset_eq. cbn. lia.
    + rewrite dget_dset_ne by done. lia.
  - destruct (String.eqb_spec cat n) as [->|Hne]; cbn.
    + rewrite dget_dset_eq. cbn. rewrite length_app. cbn. lia.
    + rewrite dget_dset_ne by done. lia.
Qed.

Lemma apply_insight_adjustments_chain (record : FileRecord.t)
    (sm : score_map * match_map) :
  let festival :=
    match Festivals (FileRecord.insights record) with [] => false | _ => true end in
  let flags := ContextFlags (FileRecord.insights record) in
  apply_insight_adjustments record sm =
  bonus_if (smem "technical_interview" flags)
    "Interview_Transcripts" "Technical interview context"
    (bonus_if (smem "subject_research" flags) "Data_Reports" "Subject research context"
       (bonus_if (smem "production_meta" flags)
          "Production_Documents" "Production meta context"
          (bonus_if festival "Strategy_Documents" "Festival context bonus"
             (bonus_if festival "Interview_Transcripts" "Festival context bonus" sm)))).
Proof.
  unfold apply_insight_adjustments, bonus_if.
  by destruct (Festivals (FileRecord.insights record)).
Qed.

(** X5.  The heuristic bonuses keep the keys of the scores; a category
    that has no score gets none, and the score of one that has a score is
    raised by exactly the number of bonuses that the insights give it, one
    trace being added for each: so no score is lowered, none is raised by
    more than 2, and only the four categories named by the heuristics
    change. *)
Theorem apply_insight_adjustments_spec (record : FileRecord.t)
    (sm : score_map * match_map) :
  let out := apply_insight_adjustments record sm in
  dkeys out.1 = dkeys sm.1 ∧
  ∀ n,
    let given := if dmem n sm.1 then heuristic_bonuses record n else 0 in
    score_of out.1 n = (score_of sm.1 n + Z.of_nat given)%Z ∧
    length (traces_of out.2 n) = length (traces_of sm.2 n) + given ∧
    given ≤ 2 ∧
    (n ∉ ["Interview_Transcripts"; "Strategy_Documents";
          "Production_Documents"; "Data_Reports"] → given = 0).
Proof.
  cbn zeta. rewrite apply_insight_adjustments_chain. cbn zeta.
  set (festival := match Festivals _ with [] => false | _ => true end).
  set (flags := ContextFlags _).
  set (s1 := bonus_if festival "Interview_Transcripts" _ sm).
  set (s2 := bonus_if festival "Strategy_Documents" _ s1).
  set (s3 := bonus_if _ "Production_Documents" _ s2).
  set (s4 := bonus_if _ "Data_Reports" _ s3).
  assert (Hmem : ∀ b cat reason s k, dmem k (bonus_if b cat reason s).1 = dmem k s.1).
  { intros b cat reason s k. by destruct (bonus_if_spec b cat reason s k) as (_ & -> & _). }
  assert (Hkeys : ∀ b cat reason s, dkeys (bonus_if b cat reason s).1 = dkeys s.1).
  { intros b cat reason s. by destruct (bonus_if_spec b cat reason s "") as (-> & _). }
  split.
  - unfold s4, s3, s2, s1. by rewrite !Hkeys.
  - intros n.
    destruct (bonus_if_spec (smem "technical_interview" flags) "Interview_Transcripts"
                "Technical interview context" s4 n) as (_ & _ & -> & ->).
    unfold s4 at 1 3.
    destruct (bonus_if_spec (smem "subject_research" flags) "Data_Reports"
                "Subject research context" s3 n) as (_ & _ & -> & ->).
    unfold s3 at 1 3.
    destruct (bonus_if_spec (smem "production_meta" flags) "Production_Documents"
                "Production meta context" s2 n) as (_ & _ & -> & ->).
    unfold s2 at 1 3.
    destruct (bonus_if_spec festival "Strategy_Documents"
                "Festival context bonus" s1 n) as (_ & _ & -> & ->).
    unfold s1 at 1 3.
    destruct (bonus_if_spec festival "Interview_Transcripts"
                "Festival context bonus" sm n) as (_ & _ & -> & ->).
    unfold s4, s3, s2, s1. rewrite !Hmem.
    assert (Hswap : ∀ (b : bool) cat,
              b && dmem cat sm.1 && String.eqb cat n = b && dmem n sm.1 && String.eqb cat n).
    { intros b cat. destruct (String.eqb_spec cat n) as [->|_]; [done|].
      by rewrite !andb_false_r. }
    rewrite !Hswap. unfold heuristic_bonuses. fold festival flags.
    assert (Hnot : n ∉ ["Interview_Transcripts"; "Strategy_Documents";
                        "Production_Documents"; "Data_Reports"] →
                   String.eqb "Interview_Transcripts" n = false ∧
                   String.eqb "Strategy_Documents" n = false ∧
                   String.eqb "Production_Documents" n = false ∧
                   String.eqb "Data_Reports" n = false).
    { intros Hn. rewrite !String.eqb_neq.
      split_and!; intros <-; apply Hn; rewrite !elem_of_cons; tauto. }
    clearbody festival flags.
    destruct (dmem n sm.1).
    + rewrite !andb_true_r. split_and!; [lia|lia| |].
      * destruct (String.eqb_spec "Interview_Transcripts" n) as [E|_];
          [rewrite <- E; cbn|].
        { rewrite ?andb_false_r, ?andb_true_r.
          destruct festival, (smem "technical_interview" flags); cbn; lia. }
        destruct (String.eqb_spec "Strategy_Documents" n) as [E|_];
          [rewrite <- E; cbn|].
        { rewrite ?andb_false_r, ?andb_true_r. destruct festival; cbn; lia. }
        destruct (String.eqb_spec "Production_Documents" n) as [E|_];
          [rewrite <- E; cbn|].
        { rewrite ?andb_false_r, ?andb_true_r.
          destruct (smem "production_meta" flags); cbn; lia. }
        rewrite !andb_false_r. cbn [Nat.b2n].
        destruct (smem "subject_research" flags && String.eqb "Data_Reports" n);
          cbn [Nat.b2n]; lia.
      * intros (-> & -> & -> & ->)%Hnot. by rewrite !andb_false_r.
    + rewrite !andb_false_r. cbn. split_and!; lia.
Qed.

End Adjustments.

Section ConstructedRecords.
Import Classify.
Import FileRecord.
Context `{PyRuntime}.

Lemma join_true_parts_Ok (parts : list pyval) (l : list string) :
  join_true_parts parts = Ok l → Forall text_or_false parts.
Proof.
  revert l. induction parts as [|p parts IH]; intros l; cbn; [by constructor|].
  destruct (truthy p) eqn:Hp.
  - destruct p as [[| | |s]|]; try done.
    intros (r' & Hr' & _)%rbind_Ok. constructor; [|by eapply IH].
    right. by exists s.
  - intros Hl. constructor; [by left|by eapply IH].
Qed.

(** A constructed record has a text, or a false value, for every target. *)
Lemma post_init_texts (raw : list (string * pyval)) (r : t) :
  post_init raw = Ok r → ∀ target, text_or_false (get_text_for_target r target).
Proof.
  unfold post_init.
  intros (fn & _ & (items & _ & (parts & Hparts & [= <-])%rbind_Ok)%rbind_Ok)%rbind_Ok.
  apply join_true_parts_Ok in Hparts.
  apply Forall_cons in Hparts as [Hname Hparts].
  apply Forall_cons in Hparts as [Hpath Hparts].
  apply Forall_cons in Hparts as [Hdir _].
  intros target. unfold get_text_for_target. cbn.
  repeat match goal with |- context [if ?b then _ else _] => destruct b end;
    try done.
  right. by eexists.
Qed.

Lemma matches_total (trigger : Trigger.t) (r : t) :
  (∀ target, text_or_false (get_text_for_target r target)) →
  ∃ hit, Trigger.matches trigger r = Ok hit.
Proof.
  intros Htext. unfold Trigger.matches.
  destruct (String.eqb (Trigger.type trigger) "regex").
  - destruct (Htext (Trigger.target trigger)) as [->|[s ->] ]; cbn; [by eexists|].
    destruct (negb _); [by eexists|]. destruct (Trigger.pattern trigger); by eexists.
  - repeat match goal with |- context [if ?b then _ else _] => destruct b end;
      by eexists.
Qed.

Lemma score_category_total (r : t) (name : string) (triggers : list Trigger.t)
    (sm : score_map * match_map) :
  (∀ target, text_or_false (get_text_for_target r target)) →
  ∃ sm', score_category r name triggers sm = Ok sm'.
Proof.
  intros Htext. unfold score_category. revert sm.
  induction triggers as [|trigger triggers IH]; intros sm; cbn; [by eexists|].
  destruct (matches_total trigger r Htext) as [hit ->]. cbn. apply IH.
Qed.

Lemma score_record_total (self : Classifier) (r : t) :
  (∀ target, text_or_false (get_text_for_target r target)) →
  ∃ sm, score_record self r = Ok sm.
Proof.
  intros Htext. unfold score_record.
  generalize ((λ name : string, (name, 0%Z)) <$> priority self,
              (λ name : string, (name, @nil trace)) <$> priority self).
  induction (priority self) as [|name names IH]; intros sm; cbn; [by eexists|].
  destruct (dget name (configs self)) as [config|]; [|apply IH].
  destruct (score_category_total r name (triggers config) sm Htext) as [sm' ->].
  apply IH.
Qed.

Lemma classify_one_total (self : Classifier) (r : t) :
  (∀ target, text_or_false (get_text_for_target r target)) →
  (classify_one self r).2 = false.
Proof.
  intros Htext. unfold classify_one, classify_scored.
  destruct (score_record_total self (prepare_insights r)) as [sm ->]; [|done].
  intros target. apply Htext.
Qed.

(** X6.  The exception handler of [classify] never runs for a record as
    its constructor leaves it: for a batch of constructed records the
    error count is 0, whatever the configuration and the regular
    expression engine. *)
Theorem classify_constructed_records_never_raise (self : Classifier)
    (records : list t) :
  Forall (λ r, ∃ raw, post_init raw = Ok r) records →
  Forall (λ o, o.2 = false) (outcomes self records) ∧
  (classify self records).2 = 0.
Proof.
  intros Hrecords.
  assert (Hout : Forall (λ o, o.2 = false) (outcomes self records)).
  { unfold outcomes. apply Forall_fmap. eapply Forall_impl; [exact Hrecords|].
    intros r [raw Hraw]. cbn. eapply classify_one_total, post_init_texts, Hraw. }
  split; [done|].
  unfold classify.
  match goal with |- (foldl _ ?st _).2 = _ =>
    destruct (classify_loop self records st) as [_ ->] end.
  cbn. induction Hout as [|[r' b] os Hb _ IH]; cbn; [done|].
  cbn in Hb. by rewrite Hb.
Qed.

End ConstructedRecords.

Section Buckets.
Import Classify.
Context `{PyRuntime}.

Lemma total_bucket_add (key : string) (r : FileRecord.t) (b : buckets_t) :
  total_classified (bucket_add key r b) = S (total_classified b).
Proof.
  unfold total_classified, bucket_add.
  induction b as [|[k v] b IH]; cbn; [done|].
  destruct (String.eqb key k); cbn.
  - rewrite length_app. cbn. lia.
  - by rewrite IH.
Qed.

Lemma total_dset_empty (key : string) (b : buckets_t) :
  total_classified b = 0 → total_classified (dset key [] b) = 0.
Proof.
  unfold total_classified.
  induction b as [|[k v] b IH]; cbn; [done|].
  destruct (String.eqb key k); cbn; lia.
Qed.

Lemma total_empty_buckets (names : list string) :
  total_classified ((λ name, (name, @nil FileRecord.t)) <$> names) = 0.
Proof. unfold total_classified. by induction names. Qed.

(** X7.  Every record of the batch lands in exactly one bucket: the sizes
    of the buckets add up to the number of records, whether or not the
    processing of a record raised. *)
Theorem classify_total_is_batch_size (self : Classifier)
    (records : list FileRecord.t) :
  total_classified (classify self records).1 = length records.
Proof.
  unfold classify.
  set (step := λ (st : buckets_t * nat) record, _).
  assert (Hloop : ∀ st, total_classified (foldl step st records).1
                        = total_classified st.1 + length records).
  { induction records as [|r records IH]; intros st; cbn; [lia|].
    rewrite IH. unfold step. destruct (classify_one self r) as [r' raised].
    cbn [fst]. rewrite total_bucket_add. lia. }
  rewrite Hloop. cbn [fst].
  by rewrite total_dset_empty by apply total_empty_buckets.
Qed.

Lemma resolve_shape (scores : score_map) (names : list string) :
  resolve scores names = ("Unknown", 0%Z) ∨
  ((resolve scores names).1 ∈ names ∧ (0 < (resolve scores names).2)%Z).
Proof.
  unfold resolve, choose_best_category.
  destruct (choose_best_fold scores names ("Unknown", (-1)%Z))
    as [[Heq _]|(b & w & a & -> & _ & _ & _ & Heq)]; cbn in *; rewrite Heq; cbn;
    [by left|].
  destruct (Z.leb_spec (score_of scores w) 0); [by left|right]. cbn.
  split; [|done]. rewrite elem_of_app, elem_of_cons. tauto.
Qed.

Lemma classify_one_winner (self : Classifier) (r : FileRecord.t) :
  winner_shape (priority self) (classify_one self r).1.
Proof.
  unfold classify_one, classify_scored, winner_shape.
  destruct (score_record self (FileRecord.prepare_insights r)) as [sm|e]; cbn;
    [|by left].
  destruct (resolve_shape (apply_insight_adjustments (FileRecord.prepare_insights r) sm).1
              (priority self)) as [->|?]; [by left|by right].
Qed.

(** X8.  [classify] creates no bucket.  The priority list having no
    duplicate, as [Classifier.__init__] leaves it, the keys of the result
    are the priority list, followed by "Unknown" unless the list holds it,
    in that order; and every record ends either as "Unknown" with score 0
    or with a category of the priority list and a positive score. *)
Theorem classify_keeps_bucket_keys (self : Classifier)
    (records : list FileRecord.t) :
  NoDup (priority self) →
  dkeys (classify self records).1 =
    (if smem "Unknown" (priority self) then priority self
     else priority self ++ ["Unknown"]) ∧
  Forall (λ o, winner_shape (priority self) o.1) (outcomes self records).
Proof.
  intros _. split.
  - unfold classify.
    set (step := λ (st : buckets_t * nat) record, _).
    set (start := dset "Unknown" [] _).
    assert (Hstart : dkeys start =
              if smem "Unknown" (priority self) then priority self
              else priority self ++ ["Unknown"]).
    { unfold start, dkeys. rewrite dset_keys. unfold dmem.
      rewrite dget_const_map, <- list_fmap_compose.
      assert (Hid : (fst ∘ (λ name : string, (name, @nil FileRecord.t)) <$> priority self)
                    = priority self).
      { induction (priority self) as [|x l IH]; cbn; [done|]. by rewrite IH. }
      rewrite Hid. by destruct (smem "Unknown" (priority self)). }
    assert (Hin : ∀ k, k = "Unknown" ∨ k ∈ priority self → k ∈ dkeys start).
    { intros k Hk. rewrite Hstart.
      destruct (smem "Unknown" (priority self)) eqn:Hu.
      - destruct Hk as [->|?]; [by apply smem_spec|done].
      - rewrite elem_of_app, list_elem_of_singleton. tauto. }
    rewrite <- Hstart. clear Hstart.
    assert (Hloop : ∀ st, dkeys st.1 = dkeys start →
                          dkeys (foldl step st records).1 = dkeys start).
    { induction records as [|r records IH]; intros st Hst; cbn; [done|].
      apply IH. unfold step at 1.
      pose proof (classify_one_winner self r) as Hw.
      destruct (classify_one self r) as [r' raised]. cbn [fst] in *.
      unfold bucket_add, dkeys. rewrite dset_keys.
      assert (Hmem : dmem (FileRecord.winning_category r') st.1 = true).
      { apply dmem_keys. fold (dkeys st.1). rewrite Hst. apply Hin.
        destruct Hw as [[-> _]|[? _] ]; [by left|by right]. }
      match goal with |- (if ?b then _ else _) = _ =>
        replace b with true by (symmetry; exact Hmem) end.
      exact Hst. }
    by apply Hloop.
  - unfold outcomes. apply Forall_fmap, Forall_forall. intros r _. cbn.
    apply classify_one_winner.
Qed.

(** X9.  The target of a regex trigger is read without regard to case. *)
Theorem get_text_for_target_ignores_case (self : FileRecord.t) (target : string) :
  FileRecord.get_text_for_target self (lower target) =
  FileRecord.get_text_for_target self target.
Proof.
  unfold FileRecord.get_text_for_target. rewrite lower_lower.
  by destruct target.
Qed.

End Buckets.

Section ConstructedExamples.
Import Classify.
Local Existing Instance literal_runtime.

Lemma classify_keeps_bucket_keys_witness :
  NoDup (priority example_classifier) ∧
  dkeys (classify example_classifier [stats_record; example_bad_record]).1
  = ["Interview_Transcripts"; "Unknown"].
Proof.
  assert (Hnd : NoDup (priority example_classifier)).
  { vm_compute. constructor; [apply not_elem_of_nil|constructor]. }
  split; [exact Hnd|].
  exact (proj1 (classify_keeps_bucket_keys example_classifier
                  [stats_record; example_bad_record] Hnd)).
Defined.

Lemma classify_constructed_records_never_raise_witness :
  Forall (λ r, ∃ raw, FileRecord.post_init raw = Ok r) [stats_record] ∧
  (classify example_classifier [stats_record]).2 = 0.
Proof.
  assert (Hrecords : Forall (λ r, ∃ raw, FileRecord.post_init raw = Ok r) [stats_record]).
  { constructor; [|constructor]. exists stats_raw. vm_compute. reflexivity. }
  split; [exact Hrecords|].
  exact (proj2 (classify_constructed_records_never_raise
                  example_classifier [stats_record] Hrecords)).
Defined.

End ConstructedExamples.

Section SortedSet.

Lemma ascii_compare_refl (a : ascii) : Ascii.compare a a = Eq.
Proof. apply N.compare_refl. Qed.

Lemma ascii_compare_lt_trans (a b c : ascii) :
  Ascii.compare a b = Lt → Ascii.compare b c = Lt → Ascii.compare a c = Lt.
Proof. unfold Ascii.compare. rewrite !N.compare_lt_iff. lia. Qed.

Lemma string_compare_lt_trans (a b c : string) :
  String.compare a b = Lt → String.compare b c = Lt → String.compare a c = Lt.
Proof.
  revert b c. induction a as [|x a IH]; intros [|y b] [|z c]; cbn; try done.
  destruct (Ascii.compare x y) eqn:Exy; destruct (Ascii.compare y z) eqn:Eyz; try done.
  - apply Ascii.compare_eq_iff in Exy as ->. rewrite Eyz. apply IH.
  - apply Ascii.compare_eq_iff in Exy as ->. by rewrite Eyz.
  - apply Ascii.compare_eq_iff in Eyz as <-. by rewrite Exy.
  - by rewrite (ascii_compare_lt_trans _ _ _ Exy Eyz).
Qed.

Lemma str_lt_trans (a b c : string) : str_lt a b → str_lt b c → str_lt a c.
Proof.
  unfold str_lt, String.ltb.
  destruct (String.compare a b) eqn:Eab; try done.
  destruct (String.compare b c) eqn:Ebc; try done.
  by rewrite (string_compare_lt_trans _ _ _ Eab Ebc).
Qed.

Lemma string_compare_refl (a : string) : String.compare a a = Eq.
Proof. induction a as [|x a IH]; cbn; [done|]. by rewrite ascii_compare_refl. Qed.

Lemma str_lt_irrefl (a : string) : ¬ str_lt a a.
Proof. unfold str_lt, String.ltb. by rewrite string_compare_refl. Qed.

Lemma str_lt_total (a b : string) :
  String.eqb a b = false → String.ltb a b = false → str_lt b a.
Proof.
  unfold str_lt, String.ltb. rewrite (String.compare_antisym a b).
  intros Hne%String.eqb_neq.
  destruct (String.compare b a) eqn:E; cbn; try done.
  by apply String.compare_eq_iff in E.
Qed.

Lemma insert_sorted_elem (x y : string) (l : list string) :
  y ∈ insert_sorted x l ↔ y = x ∨ y ∈ l.
Proof.
  induction l as [|z l IH]; cbn.
  - rewrite list_elem_of_singleton, elem_of_nil. tauto.
  - destruct (String.eqb_spec x z) as [->|Hne].
    + rewrite elem_of_cons. tauto.
    + destruct (String.ltb x z); rewrite !elem_of_cons; [done|]. rewrite IH. tauto.
Qed.

Lemma insert_sorted_sorted (x : string) (l : list string) :
  StronglySorted str_lt l → StronglySorted str_lt (insert_sorted x l).
Proof.
  induction 1 as [|z l Hl IH Hz]; cbn; [repeat constructor|].
  destruct (String.eqb x z) eqn:Heq; [by constructor|].
  destruct (String.ltb x z) eqn:Hlt.
  - constructor; [by constructor|]. constructor; [done|].
    eapply Forall_impl; [exact Hz|]. intros w Hw. by eapply str_lt_trans.
  - constructor; [done|]. apply Forall_forall. intros w [->|Hw]%insert_sorted_elem.
    + by apply str_lt_total.
    + by eapply Forall_forall in Hz.
Qed.

(** [sorted(set(l))] is increasing, hence without duplicate, and holds
    exactly the members of [l]. *)
Lemma sorted_set_spec (l : list string) :
  StronglySorted str_lt (sorted_set l) ∧ NoDup (sorted_set l) ∧
  ∀ x, x ∈ sorted_set l ↔ x ∈ l.
Proof.
  assert (Hsorted : StronglySorted str_lt (sorted_set l)).
  { induction l as [|y l IH]; cbn; [constructor|]. by apply insert_sorted_sorted. }
  split_and!; [done| |].
  - induction Hsorted as [|z s _ IH Hz]; constructor; [|done].
    intros Hin. eapply Forall_forall in Hz; [|exact Hin]. by apply str_lt_irrefl in Hz.
  - intros x. clear Hsorted. induction l as [|y l IH]; cbn; [done|].
    rewrite insert_sorted_elem, elem_of_cons, IH. done.
Qed.

End SortedSet.

Section Insights.
Import Classify.
Import FileRecord.
Context `{PyRuntime}.

Lemma labels_found_elem (table : list (string * string)) (text label : string) :
  label ∈ labels_found table text ↔
  ∃ p, (p, label) ∈ table ∧ re_search p text = true.
Proof.
  unfold labels_found. rewrite list_elem_of_fmap. split.
  - intros ([p l] & -> & [Hin Hhit]%list_elem_of_In%filter_In). cbn in *.
    exists p. by rewrite list_elem_of_In.
  - intros (p & Hin & Hhit). exists (p, label). split; [done|].
    apply list_elem_of_In, filter_In. by rewrite <- list_elem_of_In.
Qed.

(** X10.  The insights of a record are increasing lists without
    duplicate.  A person is listed exactly when one of its patterns is found
    in the text of the record, a context flag exactly when one of its
    patterns is; the festivals are those whose pattern is found, and, when
    none is found, the generic "Festival" exactly when the record has the
    keyword "festival". *)
Theorem prepare_insights_spec (r : t) :
  let i := insights (prepare_insights r) in
  let text := extra_text r in
  let known := labels_found FESTIVAL_PATTERNS text in
  (StronglySorted str_lt (Persons i) ∧ StronglySorted str_lt (Festivals i) ∧
   StronglySorted str_lt (ContextFlags i)) ∧
  (∀ x, x ∈ Persons i ↔ ∃ p, (p, x) ∈ PERSON_PATTERNS ∧ re_search p text = true) ∧
  (∀ x, x ∈ ContextFlags i ↔
        ∃ ps p, (x, ps) ∈ CONTEXT_PATTERNS ∧ p ∈ ps ∧ re_search p text = true) ∧
  (known ≠ [] →
   ∀ x, x ∈ Festivals i ↔ ∃ p, (p, x) ∈ FESTIVAL_PATTERNS ∧ re_search p text = true) ∧
  (known = [] →
   Festivals i = if smem "festival" (keywords_lower r) then ["Festival"] else []).
Proof.
  cbn zeta. unfold prepare_insights. cbn [insights set_insights Persons Festivals ContextFlags].
  split_and!.
  - apply sorted_set_spec.
  - apply sorted_set_spec.
  - apply sorted_set_spec.
  - intros x. destruct (sorted_set_spec (labels_found PERSON_PATTERNS (extra_text r)))
      as (_ & _ & ->). apply labels_found_elem.
  - intros x.
    match goal with |- _ ∈ sorted_set ?l ↔ _ =>
      destruct (sorted_set_spec l) as (_ & _ & ->) end.
    rewrite list_elem_of_fmap. split.
    + intros ([flag ps] & -> & [Hin Hhit]%list_elem_of_In%filter_In). cbn in *.
      apply existsb_exists in Hhit as (p & Hp & Hhit).
      exists ps, p. by rewrite !list_elem_of_In.
    + intros (ps & p & Hin & Hp & Hhit). exists (x, ps). split; [done|].
      apply list_elem_of_In, filter_In. split; [by apply list_elem_of_In|].
      apply existsb_exists. exists p. by rewrite <- list_elem_of_In.
  - intros Hknown x.
    destruct (labels_found FESTIVAL_PATTERNS (extra_text r)) as [|f fs] eqn:Hfound;
      [done|].
    rewrite andb_false_r.
    destruct (sorted_set_spec (f :: fs)) as (_ & _ & ->).
    rewrite <- Hfound. apply labels_found_elem.
  - intros ->. rewrite andb_true_r.
    by destruct (smem "festival" (keywords_lower r)).
Qed.

End Insights.

Section PathName.
Import Classify.
Import FileRecord.

#[local] Arguments String.append !_ _ : simpl nomatch.

Lemma split_go_no_slash (cur n : string) :
  no_slash n = true → split_go "/" cur n = [cur +:+ n].
Proof.
  revert cur. induction n as [|c n IH]; intros cur; cbn.
  - intros _. f_equal. induction cur as [|d cur IHc]; cbn; [done|]. by rewrite <- IHc.
  - destruct (Ascii.eqb c "/"); [done|]. cbn. intros Hn. rewrite IH by done.
    f_equal. induction cur as [|d cur IHc]; cbn; [done|]. by rewrite IHc.
Qed.

Lemma split_go_slash (cur d rest : string) :
  ∃ front, split_go "/" cur (d +:+ String "/" rest) = front ++ split_go "/" "" rest.
Proof.
  revert cur. induction d as [|c d IH]; intros cur; cbn.
  - by exists [cur].
  - destruct (Ascii.eqb c "/").
    + destruct (IH "") as [front ->]. by exists (cur :: front).
    + apply IH.
Qed.

(** The name of a path that ends in a slash and a simple name is that
    name. *)
Lemma path_name_join (d n : string) :
  simple_name n = true → path_name (d +:+ String "/" n) = n.
Proof.
  unfold simple_name. intros [[Hslash Hempty]%andb_true_iff Hdot]%andb_true_iff.
  unfold path_name, split.
  destruct (split_go_slash "" d n) as [front ->].
  rewrite split_go_no_slash by done. cbn [String.append].
  rewrite List.filter_app. cbn [List.filter]. rewrite Hempty, Hdot. cbn.
  by rewrite last_last.
Qed.

End PathName.

Section FileNameFallback.
Import Classify.
Import FileRecord.
Context `{PyRuntime}.

(** X11.  A record without a file name takes it from its path: when the
    path ends in a slash and a simple name (no slash, not empty, not a
    dot), that name is the file name of the constructed record; a record
    that has a file name keeps it. *)
Theorem post_init_file_name_from_path (raw : list (string * pyval)) (r : t) :
  post_init raw = Ok r →
  let given := py_or (raw_get raw "FileName") (raw_get raw "filename") in
  let path := py_or (raw_get raw "FullPath") (raw_get raw "full_path") in
  (truthy given = true → file_name r = given) ∧
  (∀ d n, truthy given = false → path = PStr (d +:+ String "/" n) →
          simple_name n = true → file_name r = PStr n).
Proof.
  unfold post_init. cbn zeta.
  intros (fn & Hfn & (items & _ & (parts & _ & [= <-])%rbind_Ok)%rbind_Ok)%rbind_Ok.
  cbn [file_name]. split.
  - intros Hgiven. rewrite Hgiven in Hfn. cbn in Hfn. by injection Hfn as <-.
  - intros d n Hgiven Hpath Hn. rewrite Hgiven, Hpath in Hfn. cbn in Hfn.
    assert (Hne : truthy (PStr (d +:+ String "/" n)) = true).
    { cbn. by destruct d. }
    cbn in Hne. rewrite Hne in Hfn. injection Hfn as <-.
    by rewrite path_name_join.
Qed.

End FileNameFallback.

Section FileNameExamples.
Import Classify.
Import FileRecord.
Local Existing Instance literal_runtime.

Lemma post_init_file_name_from_path_witness :
  ∃ r, post_init path_only_raw = Ok r ∧ file_name r = PStr "stats.csv".
Proof.
  pose (r := match post_init path_only_raw with
             | Ok r => r
             | Raise _ => festival_interview_record
             end).
  assert (Hr : post_init path_only_raw = Ok r) by (vm_compute; reflexivity).
  exists r. split; [exact Hr|].
  exact (proj2 (post_init_file_name_from_path path_only_raw r Hr)
           "/data/./reports/" "stats.csv" eq_refl eq_refl eq_refl).
Defined.

End FileNameExamples.

Section TriggerScores.
Import Classify.
Context `{PyRuntime}.

Lemma score_category_spec (r : FileRecord.t) (name : string)
    (ts : list Trigger.t) (sm sm' : score_map * match_map) :
  score_category r name ts sm = Ok sm' →
  score_of sm'.1 name = (score_of sm.1 name + matched_score r ts)%Z ∧
  ∀ k, k ≠ name → score_of sm'.1 k = score_of sm.1 k.
Proof.
  unfold score_category. revert sm.
  induction ts as [|t ts IH]; intros sm.
  - cbn. intros [= <-]. split; [lia|done].
  - cbn [foldl].
    change (matched_score r (t :: ts))
      with ((if hit r t then Trigger.score t else 0) + matched_score r ts)%Z.
    unfold hit. destruct (Trigger.matches t r) as [b|e]; cbn [rbind].
    + intros [Hname Hother]%IH. destruct b; cbn [fst snd] in *.
      * split.
        -- rewrite Hname. unfold score_of. rewrite dget_dset_eq. cbn [default from_option].
           symmetry. apply Z.add_assoc.
        -- intros k Hk. rewrite Hother by done. unfold score_of.
           by rewrite dget_dset_ne.
      * split; [rewrite Hname; lia|done].
    + intros Hfold. exfalso. clear IH. revert Hfold.
      induction ts as [|t' ts IH]; cbn; [done|apply IH].
Qed.

Lemma score_names_spec (self : Classifier) (r : FileRecord.t) (names : list string)
    (sm sm' : score_map * match_map) :
  NoDup names →
  foldl (λ acc name,
           let! sm := acc in
           match dget name (configs self) with
           | None => Ok sm
           | Some config => score_category r name (triggers config) sm
           end) (Ok sm) names = Ok sm' →
  ∀ n, score_of sm'.1 n =
       (score_of sm.1 n + if smem n names then category_score self r n else 0)%Z.
Proof.
  revert sm. induction names as [|name names IH]; intros sm Hnd; cbn.
  - intros [= <-] n. lia.
  - apply NoDup_cons in Hnd as [Hname Hnd]. unfold category_score.
    destruct (dget name (configs self)) as [config|] eqn:Hconfig.
    + destruct (score_category r name (triggers config) sm) as [sm1|e] eqn:Hcat.
      * intros Hfold n. rewrite (IH sm1 Hnd Hfold n). unfold category_score.
        apply score_category_spec in Hcat as [Hhere Hother].
        destruct (String.eqb_spec n name) as [->|Hne]; cbn.
        -- apply smem_false in Hname. rewrite Hname, Hhere, Hconfig. lia.
        -- by rewrite Hother.
      * intros Hfold. exfalso. clear IH Hnd Hname. revert Hfold.
        induction names as [|n' names IH]; cbn; [done|apply IH].
    + intros Hfold n. rewrite (IH sm Hnd Hfold n).
      destruct (String.eqb_spec n name) as [->|Hne]; cbn; [|done].
      apply smem_false in Hname. rewrite Hname. unfold category_score.
      rewrite Hconfig. lia.
Qed.

(** X12.  When the scoring of a record does not raise, and the priority
    list has no duplicate (as [Classifier.__init__] leaves it), the score of
    every category of the priority list is the sum of the scores of its
    triggers that match the record; any other name has no score. *)
Theorem score_record_sums_matching_triggers (self : Classifier) (r : FileRecord.t)
    (sm : score_map * match_map) :
  NoDup (priority self) →
  score_record self r = Ok sm →
  ∀ n, score_of sm.1 n =
       if smem n (priority self) then category_score self r n else 0%Z.
Proof.
  intros Hnd Hscore n. unfold score_record in Hscore.
  rewrite (score_names_spec self r _ _ _ Hnd Hscore n). cbn [fst].
  unfold score_of at 1. rewrite dget_const_map.
  destruct (smem n (priority self)); cbn; lia.
Qed.

End TriggerScores.

Section TriggerScoresExample.
Import Classify.
Local Existing Instance literal_runtime.

Lemma score_record_sums_matching_triggers_witness :
  ∃ sm, score_record example_classifier stats_record = Ok sm ∧
        score_of sm.1 "Interview_Transcripts" = 1%Z.
Proof.
  pose (sm := match score_record example_classifier stats_record with
              | Ok sm => sm
              | Raise _ => ([], [])
              end).
  assert (Hsm : score_record example_classifier stats_record = Ok sm)
    by (vm_compute; reflexivity).
  assert (Hnd : NoDup (priority example_classifier)).
  { vm_compute. constructor; [apply not_elem_of_nil|constructor]. }
  exists sm. split; [exact Hsm|].
  exact (score_record_sums_matching_triggers example_classifier stats_record sm
           Hnd Hsm "Interview_Transcripts").
Defined.

End TriggerScoresExample.

Section TriggerCase.
Import Classify.
Context `{PyRuntime}.

Lemma post_init_keywords_lower (raw : list (string * pyval)) (r : FileRecord.t) :
  FileRecord.post_init raw = Ok r →
  FileRecord.keywords_lower r = lower <$> FileRecord.keywords r ∧
  FileRecord.extension_lower r = lower (FileRecord.extension r).
Proof.
  unfold FileRecord.post_init.
  intros (fn & _ & (items & _ & (parts & _ & [= <-])%rbind_Ok)%rbind_Ok)%rbind_Ok.
  done.
Qed.

Lemma from_dict_values (p : Trigger.payload) (t : Trigger.t) :
  Trigger.from_dict p = Ok t →
  (Trigger.type t = "keyword" → Trigger.values t = lower <$> payload_values p) ∧
  (Trigger.type t = "extension" →
   Trigger.values t = (λ v, Trigger.dotted (lower v)) <$> payload_values p).
Proof.
  unfold Trigger.from_dict, Trigger.iter_values, payload_values.
  intros (score & _ & Hrest)%rbind_Ok.
  destruct (score <=? 0)%Z; [done|].
  destruct (String.eqb _ "regex").
  { destruct (Trigger.Pattern p) as [| |pattern]; try done.
    destruct (String.eqb pattern ""); [done|].
    destruct (re_valid pattern); [|done]. by injection Hrest as <-. }
  destruct (String.eqb _ "keyword").
  { destruct (Trigger.Values p) as [| |items]; cbn in Hrest; try done.
    destruct (lower <$> omap id items) eqn:Hvalues; [done|].
    by injection Hrest as <-. }
  destruct (String.eqb _ "extension"); [|done].
  destruct (Trigger.Values p) as [| |items]; cbn in Hrest; try done.
  destruct ((λ v, Trigger.dotted (lower v)) <$> omap id items) eqn:Hvalues; [done|].
  by injection Hrest as <-.
Qed.

(** X20.  Keyword and extension triggers ignore case on both sides.  A
    keyword trigger built from a payload matches a constructed record
    exactly when one of the values of the payload and one of the keywords of
    the record are the same up to case; an extension trigger matches exactly
    when one of the values of the payload, a dot put before it if it has
    none, is the extension of the record up to case. *)
Theorem keyword_and_extension_triggers_ignore_case (p : Trigger.payload)
    (t : Trigger.t) (raw : list (string * pyval)) (r : FileRecord.t) :
  Trigger.from_dict p = Ok t → FileRecord.post_init raw = Ok r →
  (Trigger.type t = "keyword" →
   ∃ hit, Trigger.matches t r = Ok hit ∧
          (hit = true ↔ ∃ v k, v ∈ payload_values p ∧ k ∈ FileRecord.keywords r ∧
                               lower v = lower k)) ∧
  (Trigger.type t = "extension" →
   ∃ hit, Trigger.matches t r = Ok hit ∧
          (hit = true ↔ ∃ v, v ∈ payload_values p ∧
                              Trigger.dotted (lower v) = lower (FileRecord.extension r))).
Proof.
  intros [Hkw Hext]%from_dict_values [Hkl Hel]%post_init_keywords_lower.
  split.
  - intros Htype. unfold Trigger.matches. rewrite Htype. cbn. eexists. split; [done|].
    rewrite (Hkw Htype), Hkl. rewrite <- Is_true_true, existb_True, Exists_exists.
    split.
    + intros (lv & (v & -> & Hv)%list_elem_of_fmap & (k & Hk & Hin)%Is_true_true%smem_spec%list_elem_of_fmap).
      by exists v, k.
    + intros (v & k & Hv & Hk & Heq). exists (lower v). split.
      * apply list_elem_of_fmap. by exists v.
      * apply Is_true_true, smem_spec, list_elem_of_fmap. by exists k.
  - intros Htype. unfold Trigger.matches. rewrite Htype. cbn. eexists. split; [done|].
    rewrite (Hext Htype), Hel, smem_spec, list_elem_of_fmap. split.
    + intros (v & Heq & Hv). by exists v.
    + intros (v & Hv & Heq). by exists v.
Qed.

End TriggerCase.

Section TriggerCaseExample.
Import Classify.
Local Existing Instance literal_runtime.

Lemma keyword_and_extension_triggers_ignore_case_witness :
  ∃ t, Trigger.from_dict capital_keyword_payload = Ok t ∧
       Trigger.matches t stats_record = Ok true.
Proof.
  pose (t := {| Trigger.type := "keyword"; Trigger.score := 3;
                Trigger.target := "FileName"; Trigger.pattern := None;
                Trigger.values := ["festival"] |}).
  assert (Ht : Trigger.from_dict capital_keyword_payload = Ok t)
    by (vm_compute; reflexivity).
  assert (Hr : FileRecord.post_init stats_raw = Ok stats_record)
    by (vm_compute; reflexivity).
  exists t. split; [exact Ht|].
  destruct (proj1 (keyword_and_extension_triggers_ignore_case _ _ _ _ Ht Hr) eq_refl)
    as (hit & -> & Hhit).
  f_equal. apply Hhit. exists "FESTIVAL", "Festival".
  split_and!; [apply list_elem_of_here|apply list_elem_of_here|reflexivity].
Defined.

End TriggerCaseExample.

Section CategoryScores.
Import Classify.
Context `{PyRuntime}.







End CategoryScores.

Section CategoryScoresExample.
Import Classify.
Local Existing Instance literal_runtime.


End CategoryScoresExample.

(** * Further properties of conflict resolution *)

Section ConflictGroups.
Import Naming.
Implicit Types (ms st : list entry) (p strategy : string) (items : list nat).

Lemma two_members_length {A} (l : list A) (x y : A) :
  x ∈ l → y ∈ l → x ≠ y → 1 < length l.
Proof.
  destruct l as [|a [|b l] ]; cbn; [by intros ?%elem_of_nil| |lia].
  intros ->%list_elem_of_singleton ->%list_elem_of_singleton. done.
Qed.

Lemma other_member `{EqDecision A} (l : list A) (x : A) :
  NoDup l → 1 < length l → x ∈ l → ∃ y, y ∈ l ∧ y ≠ x.
Proof.
  destruct l as [|a [|b l] ]; cbn; [lia|lia|].
  intros [Ha _]%NoDup_cons _ _.
  assert (Hab : a ≠ b). { intros ->. apply Ha, list_elem_of_here. }
  destruct (decide (x = a)) as [->|Hne].
  - exists b. split; [apply list_elem_of_further, list_elem_of_here|done].
  - exists a. split; [apply list_elem_of_here|done].
Qed.

Lemma conflict_groups_intro ms p :
  1 < length (indices_with_path p ms) →
  (p, indices_with_path p ms) ∈ conflict_groups ms.
Proof.
  intros Hlen. destruct (by_path_spec ms) as [_ Hget]. specialize (Hget p).
  destruct (indices_with_path p ms) as [|i items] eqn:Hitems; [cbn in Hlen; lia|].
  apply dget_Some_elem in Hget.
  unfold conflict_groups. apply list_elem_of_In, filter_In.
  split; [by apply list_elem_of_In|]. cbn [snd]. by apply Nat.ltb_lt.
Qed.

(** The entries of the conflict groups are those that share their path. *)
Lemma shares_path_group ms i :
  shares_path ms i ↔ ∃ g, g ∈ conflict_groups ms ∧ i ∈ g.2.
Proof.
  split.
  - intros (j & e & e' & Hne & Hi & Hj & Hpath).
    exists (NewPath e, indices_with_path (NewPath e) ms). cbn [snd].
    assert (Hi' : i ∈ indices_with_path (NewPath e) ms).
    { apply indices_with_path_lookup. by exists e. }
    assert (Hj' : j ∈ indices_with_path (NewPath e) ms).
    { apply indices_with_path_lookup. by exists e'. }
    split; [|done]. apply conflict_groups_intro.
    by apply (two_members_length _ j i).
  - intros ([p items] & Hg & Hi). cbn [snd] in Hi.
    apply conflict_groups_elem in Hg as [-> Hlen].
    destruct (other_member _ i (indices_with_path_NoDup p ms) Hlen Hi) as (j & Hj & Hne).
    apply indices_with_path_lookup in Hi as (e & He & Hp).
    apply indices_with_path_lookup in Hj as (e' & He' & Hp').
    exists j, e, e'. split_and!; [done..|]. by rewrite Hp, Hp'.
Qed.

Lemma imap_pair_snd {A} (l : list A) : (imap pair l).*2 = l.
Proof.
  apply list_eq. intros i. rewrite list_lookup_fmap, list_lookup_imap.
  by destruct (l !! i).
Qed.

(** The size of a group is the number of entries that have its path. *)
Lemma indices_with_path_length ms p :
  length (indices_with_path p ms) = entries_at p ms.
Proof.
  unfold indices_with_path, entries_at. rewrite length_fmap.
  rewrite <- (imap_pair_snd ms) at 2. by rewrite filter_length_fmap.
Qed.

Lemma entries_at_elem ms p : 0 < entries_at p ms → p ∈ NewPath <$> ms.
Proof.
  unfold entries_at. induction ms as [|e ms IH]; cbn; [lia|].
  destruct (String.eqb_spec (NewPath e) p) as [<-|_].
  - intros _. apply list_elem_of_here.
  - intros Hpos. apply list_elem_of_further. by apply IH.
Qed.

Lemma conflict_groups_paths ms p :
  p ∈ (conflict_groups ms).*1 ↔ 1 < entries_at p ms.
Proof.
  rewrite <- indices_with_path_length. split.
  - intros ([p' items] & -> & Hg)%list_elem_of_fmap. cbn.
    by apply conflict_groups_elem in Hg as [-> Hlen].
  - intros Hlen. apply list_elem_of_fmap.
    exists (p, indices_with_path p ms). split; [done|].
    by apply conflict_groups_intro.
Qed.

Lemma shared_destinations_paths ms p :
  p ∈ shared_destinations ms ↔ 1 < entries_at p ms.
Proof.
  unfold shared_destinations. rewrite dedup_elem, list_elem_of_In, filter_In.
  rewrite <- list_elem_of_In, Nat.ltb_lt. split; [by intros [_ ?]|].
  intros Hlen. split; [|done]. apply entries_at_elem. lia.
Qed.

(** The shared destinations are those of two different entries. *)
Lemma shared_destinations_pairs ms p :
  p ∈ shared_destinations ms ↔
  ∃ i j ei ej, i ≠ j ∧ ms !! i = Some ei ∧ ms !! j = Some ej ∧
               NewPath ei = p ∧ NewPath ej = p.
Proof.
  rewrite shared_destinations_paths, <- indices_with_path_length. split.
  - intros Hlen.
    destruct (indices_with_path p ms) as [|i [|j l] ] eqn:Hitems;
      [cbn in Hlen; lia..|].
    pose proof (indices_with_path_NoDup p ms) as Hnd. rewrite Hitems in Hnd.
    assert (Hi : i ∈ indices_with_path p ms) by (rewrite Hitems; apply list_elem_of_here).
    assert (Hj : j ∈ indices_with_path p ms).
    { rewrite Hitems. apply list_elem_of_further, list_elem_of_here. }
    apply indices_with_path_lookup in Hi as (ei & Hi & Hpi).
    apply indices_with_path_lookup in Hj as (ej & Hj & Hpj).
    exists i, j, ei, ej. split_and!; [|done..].
    intros ->. apply NoDup_cons in Hnd as [Hnd _]. apply Hnd, list_elem_of_here.
  - intros (i & j & ei & ej & Hne & Hi & Hj & Hpi & Hpj).
    apply (two_members_length _ i j); [| |done];
      apply indices_with_path_lookup; eauto.
Qed.

(** The groups of [handle_conflicts] are as many as the destinations that
    two entries or more have. *)
Lemma conflict_groups_count ms :
  length (conflict_groups ms) = length (shared_destinations ms).
Proof.
  rewrite <- (length_fmap fst (conflict_groups ms)).
  apply Permutation_length, NoDup_Permutation.
  - apply conflict_groups_NoDup.
  - unfold shared_destinations. apply dedup_NoDup.
  - intros p. by rewrite conflict_groups_paths, shared_destinations_paths.
Qed.

End ConflictGroups.

Section ConflictLoop.
Import Naming.
Implicit Types (ms st : list entry) (p strategy : string) (items : list nat).

Lemma same_but_name_refl (e : entry) : same_but_name e e.
Proof. by repeat split. Qed.

Lemma same_but_name_trans (e1 e2 e3 : entry) :
  same_but_name e1 e2 → same_but_name e2 e3 → same_but_name e1 e3.
Proof. unfold same_but_name. intros (?&?&?&?&?&?) (?&?&?&?&?&?). split_and!; congruence. Qed.

Lemma rewrite_entry_same strategy k (e : entry) :
  same_but_name e (rewrite_entry strategy k e).
Proof.
  unfold rewrite_entry.
  destruct (String.eqb strategy "AddVersion"); [by repeat split|].
  destruct (String.eqb strategy "AppendRank"); by repeat split.
Qed.

Lemma rewrite_entry_unknown strategy k (e : entry) :
  strategy ∉ ["AddVersion"; "AppendRank"] → rewrite_entry strategy k e = e.
Proof.
  intros Hs. unfold rewrite_entry.
  destruct (String.eqb_spec strategy "AddVersion") as [->|_].
  { destruct Hs. apply list_elem_of_here. }
  destruct (String.eqb_spec strategy "AppendRank") as [->|_]; [|done].
  destruct Hs. apply list_elem_of_further, list_elem_of_here.
Qed.

Lemma renamed_only_refl st : renamed_only st st.
Proof. split; [done|]. intros i e He. exists e. split; [done|apply same_but_name_refl]. Qed.

Lemma renamed_only_trans st1 st2 st3 :
  renamed_only st1 st2 → renamed_only st2 st3 → renamed_only st1 st3.
Proof.
  intros [Hl12 H12] [Hl23 H23]. split; [congruence|].
  intros i e (e2 & He2 & Hs2)%H12. destruct (H23 i e2 He2) as (e3 & He3 & Hs3).
  exists e3. split; [done|]. by eapply same_but_name_trans.
Qed.

Lemma resolve_step_renamed strategy st (ii : nat * nat) :
  renamed_only st (resolve_step strategy st ii).
Proof.
  unfold resolve_step. destruct ii.1 as [|k]; [apply renamed_only_refl|].
  split; [apply length_alter|]. intros i e He.
  destruct (decide (ii.2 = i)) as [->|Hne].
  - rewrite list_lookup_alter_eq, He. cbn. eexists. split; [done|].
    apply rewrite_entry_same.
  - rewrite list_lookup_alter_ne by done. exists e.
    split; [done|apply same_but_name_refl].
Qed.

Lemma resolve_step_unknown strategy st (ii : nat * nat) :
  strategy ∉ ["AddVersion"; "AppendRank"] → resolve_step strategy st ii = st.
Proof.
  intros Hs. unfold resolve_step. destruct ii.1 as [|k]; [done|].
  apply list_eq. intros i. destruct (decide (ii.2 = i)) as [->|Hne].
  - rewrite list_lookup_alter_eq. destruct (st !! i); [|done]. cbn.
    by rewrite rewrite_entry_unknown.
  - by rewrite list_lookup_alter_ne.
Qed.

(** The inner loop: names and paths only, inside the group only, and
    nothing at all under a strategy that is not known. *)
Lemma resolve_group_inv strategy items st :
  renamed_only st (resolve_group strategy items st) ∧
  (∀ i, i ∉ items → resolve_group strategy items st !! i = st !! i) ∧
  (strategy ∉ ["AddVersion"; "AppendRank"] → resolve_group strategy items st = st).
Proof.
  split_and!.
  - unfold resolve_group. generalize (imap pair items). intros l. revert st.
    induction l as [|ii l IH]; intros st; [apply renamed_only_refl|].
    cbn [foldl]. eapply renamed_only_trans; [|apply IH].
    apply (resolve_step_renamed strategy st ii).
  - intros i Hi. rewrite resolve_group_unfold. by apply resolve_from_outside.
  - intros Hs. unfold resolve_group. generalize (imap pair items). intros l. revert st.
    induction l as [|ii l IH]; intros st; [done|].
    cbn [foldl]. rewrite IH. apply (resolve_step_unknown strategy st ii Hs).
Qed.

Lemma keyed_items st items ks :
  keyed st items = Ok ks → ∀ x, x ∈ ks → x.2 ∈ items.
Proof.
  revert ks. induction items as [|i items IH]; intros ks; cbn.
  - intros [= <-] x Hx. by apply elem_of_nil in Hx.
  - destruct (st !! i) as [e|].
    + intros (k & _ & (rest & Hrest & [= <-])%rbind_Ok)%rbind_Ok x [->|Hx]%elem_of_cons.
      * apply list_elem_of_here.
      * apply list_elem_of_further. by eapply IH.
    + intros Hks x Hx. apply list_elem_of_further. by eapply IH.
Qed.

Lemma keyed_raises st items (err : exn) :
  keyed st items = Raise err → err = TypeError.
Proof.
  induction items as [|i items IH]; cbn; [done|].
  destruct (st !! i) as [e|]; [|done].
  unfold sort_key. destruct (Score (OriginalFile e)); cbn; [|by intros [= <-]|].
  - destruct (keyed st items); cbn; [done|]. intros [= <-]. by apply IH.
  - destruct (keyed st items); cbn; [done|]. intros [= <-]. by apply IH.
Qed.

Lemma keyed_total st items :
  (∀ i e, i ∈ items → st !! i = Some e → Score (OriginalFile e) ≠ Null) →
  ∃ ks, keyed st items = Ok ks.
Proof.
  induction items as [|i items IH]; intros Hok; cbn; [by eexists|].
  destruct IH as [ks Hks].
  { intros j e Hj. apply Hok. by apply list_elem_of_further. }
  destruct (st !! i) as [e|] eqn:Hi; [|by eexists].
  rewrite (sort_key_comparable e), Hks; [by eexists|].
  eapply Hok; [apply list_elem_of_here|done].
Qed.

Lemma keyed_null st items i e :
  i ∈ items → st !! i = Some e → Score (OriginalFile e) = Null →
  keyed st items = Raise TypeError.
Proof.
  intros Hi He Hnull. destruct (keyed st items) as [ks|err] eqn:Hkeyed.
  - exfalso. revert ks Hkeyed. induction items as [|j items IH]; intros ks; cbn.
    { by apply elem_of_nil in Hi. }
    apply elem_of_cons in Hi as [<-|Hi].
    + rewrite He. unfold sort_key. by rewrite Hnull.
    + destruct (st !! j) as [e'|]; [|by apply IH].
      intros (k & _ & (rest & Hrest & _)%rbind_Ok)%rbind_Ok. by eapply IH.
  - by rewrite (keyed_raises _ _ _ Hkeyed).
Qed.

Lemma sort_group_items st items sorted :
  sort_group st items = Ok sorted → ∀ i, i ∈ sorted → i ∈ items.
Proof.
  unfold sort_group. intros (ks & Hks & [= <-])%rbind_Ok i.
  intros (x & -> & Hx)%list_elem_of_fmap. rewrite sort_desc_perm in Hx.
  by eapply keyed_items.
Qed.

Lemma resolve_groups_raised strategy (groups : list (string * list nat)) (err : exn) :
  resolve_groups strategy groups (Raise err) = Raise err.
Proof. unfold resolve_groups. by induction groups. Qed.

Lemma resolve_groups_cons strategy (g : string * list nat)
    (groups : list (string * list nat)) st :
  resolve_groups strategy (g :: groups) (Ok st)
  = resolve_groups strategy groups
      (let! items := sort_group st g.2 in Ok (resolve_group strategy items st)).
Proof. done. Qed.

(** The loop over the groups, when it ends without an exception. *)
Lemma resolve_groups_inv strategy (groups : list (string * list nat)) st st' :
  resolve_groups strategy groups (Ok st) = Ok st' →
  renamed_only st st' ∧
  (∀ i, (∀ g, g ∈ groups → i ∉ g.2) → st' !! i = st !! i) ∧
  (strategy ∉ ["AddVersion"; "AppendRank"] → st' = st).
Proof.
  revert st. induction groups as [|g groups IH]; intros st.
  - intros [= <-]. split_and!; [apply renamed_only_refl|done|done].
  - rewrite resolve_groups_cons.
    destruct (sort_group st g.2) as [items|err] eqn:Hsort; cbn [rbind];
      [|by rewrite resolve_groups_raised].
    intros (Hren & Hout & Hunknown)%IH.
    destruct (resolve_group_inv strategy items st) as (Hren1 & Hout1 & Hunknown1).
    split_and!.
    + by eapply renamed_only_trans.
    + intros i Hi. rewrite Hout.
      * apply Hout1. intros Hin. apply (Hi g); [apply list_elem_of_here|].
        by eapply sort_group_items.
      * intros g' Hg'. apply Hi. by apply list_elem_of_further.
    + intros Hs. by rewrite Hunknown, Hunknown1.
Qed.

Lemma same_originals_score ms st i e' :
  same_originals ms st → st !! i = Some e' →
  ∃ e, ms !! i = Some e ∧ Score (OriginalFile e) = Score (OriginalFile e').
Proof.
  intros [_ Horig] He'. specialize (Horig i). rewrite He' in Horig.
  destruct (ms !! i) as [e|]; [|done]. exists e. split; [done|].
  injection Horig as ->. done.
Qed.

(** The loop ends without an exception when no entry of a group has a
    [null] score, and with [TypeError] when one has. *)
Lemma resolve_groups_outcome strategy ms (groups : list (string * list nat)) st :
  same_originals ms st →
  ((∀ g i e, g ∈ groups → i ∈ g.2 → ms !! i = Some e →
             Score (OriginalFile e) ≠ Null) →
   ∃ st', resolve_groups strategy groups (Ok st) = Ok st') ∧
  ((∃ g i e, g ∈ groups ∧ i ∈ g.2 ∧ ms !! i = Some e ∧
             Score (OriginalFile e) = Null) →
   resolve_groups strategy groups (Ok st) = Raise TypeError).
Proof.
  revert st. induction groups as [|g groups IH]; intros st Horig.
  - split; [by eexists|]. intros (g & i & e & Hg & _). by apply elem_of_nil in Hg.
  - rewrite resolve_groups_cons. unfold sort_group. split.
    + intros Hok. destruct (keyed_total st g.2) as [ks ->].
      { intros i e' Hi He'.
        destruct (same_originals_score ms st i e' Horig He') as (e & He & <-).
        eapply Hok; [apply list_elem_of_here|done..]. }
      cbn [rbind]. apply IH.
      * by apply resolve_group_originals.
      * intros g' i e Hg'. apply Hok. by apply list_elem_of_further.
    + intros (g' & i & e & Hg' & Hi & He & Hnull).
      destruct (keyed st g.2) as [ks|err] eqn:Hkeyed; cbn [rbind].
      * apply IH; [by apply resolve_group_originals|].
        apply elem_of_cons in Hg' as [->|Hg']; [|by exists g', i, e].
        exfalso. destruct Horig as [_ Horig]. specialize (Horig i).
        rewrite He in Horig. destruct (st !! i) as [e'|] eqn:He'; [|done].
        injection Horig as Horig.
        rewrite (keyed_null st g.2 i e') in Hkeyed; [done..|]. by rewrite Horig.
      * rewrite (keyed_raises _ _ _ Hkeyed). apply resolve_groups_raised.
Qed.

Lemma handle_conflicts_unfold ms (settings : global_settings) :
  handle_conflicts ms settings
  = let! store := resolve_groups (handle_duplicates_setting settings)
                    (conflict_groups ms) (Ok ms) in
    Ok (store, length (conflict_groups ms)).
Proof. unfold handle_conflicts. by destruct (conflict_groups ms). Qed.

(** X13.  Whatever the scores, when conflict resolution ends without an
    exception it reports the number of destinations that two entries or
    more had (each destination counted once, however many entries had it),
    keeps the number and the order of the entries, changes nothing of an
    entry but its new name and path, leaves alone every entry that shared
    its destination with no other, and, under a strategy that is neither
    AddVersion nor AppendRank, changes no entry at all. *)
Theorem handle_conflicts_renames_only ms (settings : global_settings) st (n : nat) :
  handle_conflicts ms settings = Ok (st, n) →
  n = length (shared_destinations ms) ∧
  NoDup (shared_destinations ms) ∧
  (∀ p, p ∈ shared_destinations ms ↔
        ∃ i j ei ej, i ≠ j ∧ ms !! i = Some ei ∧ ms !! j = Some ej ∧
                     NewPath ei = p ∧ NewPath ej = p) ∧
  length st = length ms ∧
  (∀ i e, ms !! i = Some e →
     ∃ e', st !! i = Some e' ∧ same_but_name e e' ∧
           (¬ shares_path ms i → e' = e)) ∧
  (handle_duplicates_setting settings ∉ ["AddVersion"; "AppendRank"] → st = ms).
Proof.
  rewrite handle_conflicts_unfold.
  intros (st' & Hloop & [= <- <-])%rbind_Ok.
  apply resolve_groups_inv in Hloop as ([Hlen Hren] & Hout & Hunknown).
  split_and!; [apply conflict_groups_count|apply dedup_NoDup|
               apply shared_destinations_pairs|done| |done].
  intros i e He. destruct (Hren i e He) as (e' & He' & Hsame).
  exists e'. split_and!; [done|done|].
  intros Halone. rewrite Hout, He in He'; [by injection He' as ->|].
  intros g Hg Hi. apply Halone, shares_path_group. by exists g.
Qed.

(** X14.  Conflict resolution raises exactly when an entry whose score is
    [null] has the destination of another entry, and the exception is then
    [TypeError]; a [null] score of an entry that is alone at its
    destination does no harm. *)
Theorem handle_conflicts_raises_iff_null_score_in_conflict ms
    (settings : global_settings) :
  (null_score_in_conflict ms → handle_conflicts ms settings = Raise TypeError) ∧
  (¬ null_score_in_conflict ms → ∃ r, handle_conflicts ms settings = Ok r).
Proof.
  rewrite handle_conflicts_unfold.
  destruct (resolve_groups_outcome (handle_duplicates_setting settings) ms
              (conflict_groups ms) ms) as [Hok Hraise]; [done|].
  split.
  - intros (i & e & He & Hnull & (g & Hg & Hi)%shares_path_group).
    rewrite Hraise; [done|]. by exists g, i, e.
  - intros Hnone. destruct Hok as [st' ->]; [|by eexists].
    intros g i e Hg Hi He Hnull. apply Hnone. exists i, e.
    split_and!; [done..|]. apply shares_path_group. by exists g.
Qed.

(** X15.  Conflict resolution reports no conflict and leaves the list as
    it is exactly when the destinations are pairwise distinct. *)
Theorem handle_conflicts_none_iff_distinct ms (settings : global_settings) :
  NoDup (NewPath <$> ms) ↔ handle_conflicts ms settings = Ok (ms, 0).
Proof.
  assert (Hgroups : NoDup (NewPath <$> ms) ↔ conflict_groups ms = []).
  { split.
    - intros Hnd. destruct (conflict_groups ms) as [|g groups] eqn:Hg; [done|].
      exfalso.
      assert (Hin : ∃ g', g' ∈ conflict_groups ms ∧ ∃ i, i ∈ g'.2).
      { exists g. rewrite Hg. split; [apply list_elem_of_here|].
        assert (Hg' : g ∈ conflict_groups ms) by (rewrite Hg; apply list_elem_of_here).
        destruct g as [p items]. apply conflict_groups_elem in Hg' as [_ Hlen].
        cbn [snd]. destruct items as [|i items]; [cbn in Hlen; lia|].
        exists i. apply list_elem_of_here. }
      destruct Hin as (g' & Hg' & i & Hi).
      assert (Hshare : shares_path ms i) by (apply shares_path_group; by exists g').
      destruct Hshare as (j & e & e' & Hne & He & He' & Hpath).
      apply Hne. eapply (NoDup_lookup _ j i (NewPath e)); [exact Hnd| |].
      + rewrite list_lookup_fmap, He'. cbn. by rewrite Hpath.
      + by rewrite list_lookup_fmap, He.
    - intros Hnil. apply NoDup_alt. intros i j p Hi Hj.
      rewrite list_lookup_fmap in Hi, Hj.
      destruct (ms !! i) as [e|] eqn:He; [|done].
      destruct (ms !! j) as [e'|] eqn:He'; [|done].
      injection Hi as Hi. injection Hj as Hj.
      destruct (decide (i = j)) as [|Hne]; [done|]. exfalso.
      assert (Hshare : shares_path ms i).
      { exists j, e, e'. split_and!; [by intros ->|done|done|congruence]. }
      apply shares_path_group in Hshare as (g & Hg & _).
      rewrite Hnil in Hg. by apply elem_of_nil in Hg. }
  rewrite Hgroups. unfold handle_conflicts. split.
  - by intros ->.
  - destruct (conflict_groups ms) as [|g groups]; [done|].
    by destruct (foldl _ _ _).
Qed.

End ConflictLoop.

Section ConflictLoopExamples.
Import Naming.

Lemma handle_conflicts_renames_only_witness :
  handle_conflicts three_pages (duplicates (Val "Skip")) = Ok (three_pages, 1) ∧
  ∃ e', three_pages !! 2 = Some e' ∧ NewFileName e' = "GW_Web_Index.html".
Proof.
  assert (Hrun : handle_conflicts three_pages (duplicates (Val "Skip"))
                 = Ok (three_pages, 1)) by (vm_compute; reflexivity).
  split; [exact Hrun|].
  destruct (handle_conflicts_renames_only _ _ _ _ Hrun)
    as (_ & _ & _ & _ & Hentries & _).
  destruct (Hentries 2 _ eq_refl) as (e' & He' & _ & Halone).
  exists e'. split; [exact He'|]. rewrite Halone; [reflexivity|].
  intros (j & e & e2 & Hne & He & He2 & Hpath). injection He as <-.
  destruct j as [|[|[|j] ] ]; cbn in He2; try done; injection He2 as <-; done.
Defined.

Lemma handle_conflicts_raises_iff_null_score_in_conflict_witness :
  null_score_in_conflict unscored_pages ∧
  handle_conflicts unscored_pages (duplicates Absent) = Raise TypeError.
Proof.
  assert (Hnull : null_score_in_conflict unscored_pages).
  { exists 1, (unscored_entry "page_b.html" "GW_Web_Page.html").
    split_and!; [reflexivity..|].
    exists 0, (unscored_entry "page_b.html" "GW_Web_Page.html"),
           (site_entry "page_a.html" "GW_Web_Page.html" 1 90).
    split_and!; [lia|reflexivity..]. }
  split; [exact Hnull|].
  exact (proj1 (handle_conflicts_raises_iff_null_score_in_conflict
                  unscored_pages (duplicates Absent)) Hnull).
Defined.

End ConflictLoopExamples.

(** * The AddVersion strategy *)

Section AddVersion.
Import Naming.
Implicit Types (ms : list entry) (settings : global_settings).

(** The closed form of [handle_conflicts], with the conflicts counted as
    the destinations that two entries or more have. *)
Lemma handle_conflicts_resolved ms settings :
  ¬ null_score_in_conflict ms →
  handle_conflicts ms settings
  = Ok (imap (resolved_entry (handle_duplicates_setting settings) ms) ms,
        length (shared_destinations ms)).
Proof.
  intros Hnone. rewrite <- conflict_groups_count.
  apply handle_conflicts_closed_form.
  intros g Hg i e Hi He Hnull. apply Hnone. exists i, e.
  split_and!; [done..|]. apply shares_path_group. by exists g.
Qed.

Lemma handle_conflicts_null_score ms settings :
  null_score_in_conflict ms → handle_conflicts ms settings = Raise TypeError.
Proof.
  intros (i & e & He & Hnull & (g & Hg & Hi)%shares_path_group).
  rewrite handle_conflicts_unfold.
  destruct (resolve_groups_outcome (handle_duplicates_setting settings) ms
              (conflict_groups ms) ms) as [_ Hraise]; [done|].
  rewrite Hraise; [done|]. by exists g, i, e.
Qed.

(** C4.  Under AddVersion, in every group of entries that have the same
    destination, sorted by decreasing score with ties in list order (a
    missing score counting as 0), the entry at 1-based position 1 is left as
    it is, and the entry at position [n >= 2] gets [_v{n}] between the stem
    and the extension of its file name, its destination being the new name
    in the parent directory of the old one; whatever the strategy, the
    number returned is the number of destinations that two entries or more
    have.  This holds of every list in which no entry whose score is [null]
    has the destination of another entry.  Scenario D: [page_a.html] (score
    90) and [page_b.html] (score 70), both named [GW_Web_Page.html], come out
    as [GW_Web_Page.html] and [GW_Web_Page_v2.html], with one conflict
    reported.

    It fails of the other lists: when an entry whose score is [null] has
    the destination of another entry, the sort raises [TypeError], nothing
    is renamed and no number is returned; so Scenario D with the score of
    [page_b.html] set to [null] ends in [TypeError]. *)
Theorem handle_conflicts_add_version :
  (∀ ms settings,
     ¬ null_score_in_conflict ms →
     ∃ ms',
       handle_conflicts ms settings = Ok (ms', length (shared_destinations ms)) ∧
       length ms' = length ms ∧
       (handle_duplicates_setting settings = "AddVersion" →
        ∀ i e, ms !! i = Some e →
          let n := S (sorted_position ms i e) in
          (n = 1 → ms' !! i = Some e) ∧
          (2 ≤ n →
           ∃ e', ms' !! i = Some e' ∧
             NewFileName e' =
               stem_of (NewFileName e) +:+ "_v" +:+ str_of_nat n +:+
               path_suffix (NewFileName e) ∧
             NewPath e' = path_join (path_parent (NewPath e)) (NewFileName e') ∧
             OriginalFile e' = OriginalFile e))) ∧
  (∀ ms settings,
     null_score_in_conflict ms → handle_conflicts ms settings = Raise TypeError) ∧
  (∀ H : PyRuntime,
     resolve_path "/site/page_a.html" = Some "/site/page_a.html" →
     resolve_path "/site/page_b.html" = Some "/site/page_b.html" →
     (∃ s ea eb,
        process_classification
          [("Web_Content", [site_file "page_a.html" 1 90; site_file "page_b.html" 2 70])]
          {| NamingRules := Some [fixed_name_rules "Web_Content" "GW_Web_Page.html"];
             GlobalSettings := duplicates Absent |} "/work"
        = Ok (s, [ea; eb]) ∧
        Conflicts s = 1 ∧
        OldFileName ea = Val "page_a.html" ∧ NewFileName ea = "GW_Web_Page.html" ∧
        OldFileName eb = Val "page_b.html" ∧ NewFileName eb = "GW_Web_Page_v2.html" ∧
        NewPath eb = "/site/GW_Web_Page_v2.html") ∧
     process_classification
       [("Web_Content", [site_file "page_a.html" 1 90;
                         unscored_site_file "page_b.html" 2])]
       {| NamingRules := Some [fixed_name_rules "Web_Content" "GW_Web_Page.html"];
          GlobalSettings := duplicates Absent |} "/work"
     = Raise TypeError).
Proof.
  split_and!.
  - intros ms settings Hnone. eexists.
    split; [by apply handle_conflicts_resolved|].
    split; [by rewrite length_imap|].
    intros Hstrategy i e Hms. cbn zeta.
    rewrite (lookup_resolved _ ms i e Hms), Hstrategy. unfold resolved_entry.
    destruct (sorted_position ms i e) as [|k]; split.
    + done.
    + lia.
    + done.
    + intros _. eexists. split; [done|]. unfold rewrite_entry. cbn.
      replace (k + 1) with (S k) by lia. done.
  - intros ms settings. apply handle_conflicts_null_score.
  - intros H Ha Hb. split.
    + unfold process_classification. cbn [NamingRules].
      cbn [foldl dget fixed_name_rules String.eqb Ascii.eqb Bool.eqb Pattern].
      unfold process_files. cbn [foldl]. unfold name_file, resolve_destination.
      cbn [build_context site_file Extension Keywords FileName FullPath Modified
           Directory Rank Score field_to_pyval rbind].
      cbn. rewrite Ha, Hb. vm_compute. do 3 eexists. split; [reflexivity|].
      split_and!; reflexivity.
    + unfold process_classification. cbn [NamingRules].
      cbn [foldl dget fixed_name_rules String.eqb Ascii.eqb Bool.eqb Pattern].
      unfold process_files. cbn [foldl]. unfold name_file, resolve_destination.
      cbn [build_context site_file unscored_site_file Extension Keywords FileName
           FullPath Modified Directory Rank Score field_to_pyval rbind].
      cbn. rewrite Ha, Hb. vm_compute. reflexivity.
Qed.

Lemma handle_conflicts_add_version_witness :
  ¬ null_score_in_conflict versioned_pages ∧
  ∃ ms', handle_conflicts versioned_pages (duplicates (Val "AddVersion")) = Ok (ms', 1) ∧
         NewFileName <$> ms' = [ "GW_Web_Page_v2.html"; "GW_Web_Page.html";
                                 "GW_Web_Page_v3.html"; "GW_Web_Index.html" ].
Proof.
  assert (Hnone : ¬ null_score_in_conflict versioned_pages).
  { intros (i & e & He & Hnull & j & e1 & e2 & Hne & Hi & Hj & Hpath).
    destruct i as [|[|[|[|i] ] ] ]; cbn in He; try done;
      injection He as <-; try done.
    cbn in Hi. injection Hi as <-.
    destruct j as [|[|[|[|j] ] ] ]; cbn in Hj; try done;
      injection Hj as <-; done. }
  split; [exact Hnone|].
  destruct (proj1 handle_conflicts_add_version versioned_pages
              (duplicates (Val "AddVersion")) Hnone) as (ms' & Heq & _ & _).
  exists ms'. split; [exact Heq|].
  assert (Hms' : Ok (ms', 1) = handle_conflicts versioned_pages
                                 (duplicates (Val "AddVersion")))
    by (by rewrite Heq).
  vm_compute in Hms'. injection Hms' as ->. reflexivity.
Defined.

End AddVersion.

(** * Further properties of the naming engine *)

Section RuleSelectionSpec.
Import Naming.
Context `{PyRuntime}.

Lemma all_conditions_true (d : list (string * pyval)) (ctx : context) :
  all_conditions d ctx = Ok true ↔ Forall (condition_true ctx) d.
Proof.
  induction d as [|[key expected] d IH]; cbn.
  - split; [constructor|done].
  - rewrite Forall_cons. unfold condition_true at 1. cbn [fst snd].
    destruct (evaluate_condition key expected ctx) as [[|]|e]; cbn.
    + rewrite IH. tauto.
    + split; [done|]. by intros [? _].
    + split; [done|]. by intros [? _].
Qed.

Lemma all_conditions_false (d : list (string * pyval)) (ctx : context) :
  all_conditions d ctx = Ok false ↔
  ∃ before kv after, d = before ++ kv :: after ∧
    Forall (condition_true ctx) before ∧ evaluate_condition kv.1 kv.2 ctx = Ok false.
Proof.
  induction d as [|[key expected] d IH]; cbn.
  - split; [done|]. by intros ([|??] & ? & ? & ? & _).
  - destruct (evaluate_condition key expected ctx) as [[|]|e] eqn:Hev; cbn.
    + rewrite IH. split.
      * intros (before & kv & after & -> & Hb & Hkv).
        exists ((key, expected) :: before), kv, after. split_and!; [done| |done].
        by constructor.
      * intros ([|kv0 before] & kv & after & Heq & Hb & Hkv).
        -- injection Heq as <- <-. cbn in Hkv. congruence.
        -- injection Heq as <- ->. apply Forall_cons in Hb as [_ Hb].
           by exists before, kv, after.
    + split; [intros _|done]. by exists [], (key, expected), d.
    + split; [done|].
      intros ([|kv0 before] & kv & after & Heq & Hb & Hkv).
      * injection Heq as <- <-. cbn in Hkv. congruence.
      * injection Heq as <- ->. apply Forall_cons in Hb as [Hb _].
        unfold condition_true in Hb. cbn in Hb. congruence.
Qed.

Lemma first_matching_rule_spec (rules : list rule) (ctx : context) (found : option rule) :
  first_matching_rule rules ctx = Ok found ↔
  match found with
  | Some r => ∃ before after, rules = before ++ r :: after ∧
                              Forall (rule_fails ctx) before ∧ rule_holds ctx r
  | None => Forall (rule_fails ctx) rules
  end.
Proof.
  revert found. induction rules as [|r rules IH]; intros found; cbn.
  - destruct found as [r|].
    + split; [done|]. by intros ([|??] & ? & ? & _).
    + split; [constructor|done].
  - assert (Hcons : ∀ found, rule_fails ctx r →
              (match found with
               | Some r' => ∃ before after, rules = before ++ r' :: after ∧
                              Forall (rule_fails ctx) before ∧ rule_holds ctx r'
               | None => Forall (rule_fails ctx) rules
               end) ↔
              (match found with
               | Some r' => ∃ before after, r :: rules = before ++ r' :: after ∧
                              Forall (rule_fails ctx) before ∧ rule_holds ctx r'
               | None => Forall (rule_fails ctx) (r :: rules)
               end)).
    { intros [r'|] Hfails.
      - split.
        + intros (before & after & -> & Hb & Hr').
          exists (r :: before), after. split_and!; [done| |done]. by constructor.
        + intros ([|r0 before] & after & Heq & Hb & Hr').
          * injection Heq as <- <-. exfalso. revert Hfails Hr'.
            unfold rule_fails, rule_holds. destruct (Condition r) as [|d|]; [done| |done].
            intros (b & kv & a & -> & Hbt & Hkv) Hall.
            apply Forall_app in Hall as [_ [Hkv' _]%Forall_cons].
            unfold condition_true in Hkv'. congruence.
          * injection Heq as <- ->. apply Forall_cons in Hb as [_ Hb].
            by exists before, after.
      - rewrite Forall_cons. tauto. }
    assert (Hhere : rule_holds ctx r → ∀ found,
              Ok (Some r) = Ok found ↔
              (match found with
               | Some r' => ∃ before after, r :: rules = before ++ r' :: after ∧
                              Forall (rule_fails ctx) before ∧ rule_holds ctx r'
               | None => Forall (rule_fails ctx) (r :: rules)
               end)).
    { intros Hholds [r'|].
      - split.
        + intros [= <-]. by exists [], rules.
        + intros ([|r0 before] & after & Heq & Hb & Hr').
          * by injection Heq as <- <-.
          * injection Heq as <- ->. apply Forall_cons in Hb as [Hfails _].
            exfalso. revert Hfails Hholds.
            unfold rule_fails, rule_holds. destruct (Condition r) as [|d|]; [done| |done].
            intros (b & kv & a & -> & Hbt & Hkv) Hall.
            apply Forall_app in Hall as [_ [Hkv' _]%Forall_cons].
            unfold condition_true in Hkv'. congruence.
      - split; [done|]. intros [Hfails _]%Forall_cons. exfalso. revert Hfails Hholds.
        unfold rule_fails, rule_holds. destruct (Condition r) as [|d|]; [done| |done].
        intros (b & kv & a & -> & Hbt & Hkv) Hall.
        apply Forall_app in Hall as [_ [Hkv' _]%Forall_cons].
        unfold condition_true in Hkv'. congruence. }
    destruct (Condition r) as [|d|] eqn:Hcond.
    + apply Hhere. unfold rule_holds. by rewrite Hcond.
    + destruct (all_conditions d ctx) as [[|]|e] eqn:Hall; cbn.
      * apply Hhere. unfold rule_holds. rewrite Hcond. by apply all_conditions_true.
      * rewrite IH. apply Hcons. unfold rule_fails. rewrite Hcond.
        by apply all_conditions_false.
      * split; [done|]. intros Hspec. exfalso.
        assert (Hcases : rule_fails ctx r ∨ rule_holds ctx r).
        { destruct found as [r'|].
          - destruct Hspec as ([|r0 before] & after & Heq & Hb & Hr').
            + injection Heq as <- <-. by right.
            + injection Heq as <- ->. apply Forall_cons in Hb as [? _]. by left.
          - apply Forall_cons in Hspec as [? _]. by left. }
        unfold rule_fails, rule_holds in Hcases. rewrite Hcond in Hcases.
        destruct Hcases as [Hf%all_conditions_false|Hh%all_conditions_true]; congruence.
    + rewrite IH. apply Hcons. unfold rule_fails. by rewrite Hcond.
Qed.

(** X16.  Rule selection ends without an exception with a mapping [m]
    exactly when [m] is a copy of the mapping of the first rule that holds,
    every rule before it being passed over, or a copy of the default mapping
    when every rule is passed over.  A rule holds when it has no condition or
    all its conditions are true; it is passed over when its condition is not
    an object or one of its conditions is false, those before it being
    true. *)
Theorem apply_rules_first_rule_that_holds (cfg : category_config) (ctx : context)
    (m : mapping) :
  apply_rules cfg ctx = Ok m ↔
  (∃ before r after, Rules cfg = before ++ r :: after ∧
     Forall (rule_fails ctx) before ∧ rule_holds ctx r ∧
     m = copy_mapping (Mapping_ r)) ∨
  (Forall (rule_fails ctx) (Rules cfg) ∧ m = copy_mapping (DefaultMapping cfg)).
Proof.
  unfold apply_rules. split.
  - intros (found & Hfound & Hm)%rbind_Ok.
    apply first_matching_rule_spec in Hfound. destruct found as [r|].
    + left. destruct Hfound as (before & after & Heq & Hb & Hr).
      exists before, r, after. split_and!; [done..|]. by injection Hm as <-.
    + right. split; [done|]. by injection Hm as <-.
  - intros [(before & r & after & Heq & Hb & Hr & ->)|[Hall ->] ].
    + assert (Hfound : first_matching_rule (Rules cfg) ctx = Ok (Some r)).
      { apply first_matching_rule_spec. by exists before, after. }
      by rewrite Hfound.
    + assert (Hfound : first_matching_rule (Rules cfg) ctx = Ok None).
      { by apply first_matching_rule_spec. }
      by rewrite Hfound.
Qed.

End RuleSelectionSpec.

Section NameFile.
Import Naming.
Context `{PyRuntime}.

(** A placeholder filled only when the mapping has no value for it. *)
Lemma guarded_dset_spec (b : bool) (k : string) (v : scalar) (m : mapping) :
  let m' := if b && negb (dmem k m) then dset k v m else m in
  (∀ k' v', dget k' m = Some v' → dget k' m' = Some v') ∧
  (∀ k', dmem k' m' = true → dmem k' m = true ∨ (k' = k ∧ b = true)).
Proof.
  cbn zeta. unfold dmem. destruct b; cbn; [|by split; [|left] ].
  destruct (dget k m) as [v0|] eqn:Hk; cbn; [by split; [|left]|].
  split.
  - intros k' v' Hk'. rewrite dget_dset_ne; [done|]. intros <-. congruence.
  - intros k'. destruct (String.eqb_spec k k') as [<-|Hne]; [by right|].
    rewrite dget_dset_ne by done. by left.
Qed.

(** X17.  The entry that names a file: the placeholders Date, ext and
    Rank are filled by the engine only when the pattern has them and the
    selected mapping has no value for them, so that a value of the mapping is
    never overridden and no other key is added; the new name is the pattern
    with the placeholders replaced by the values of the mapping kept in the
    entry, and it is not empty; the entry records the file and its
    category. *)
Theorem name_file_entry_shape (category_name pattern : string) (cfg : category_config)
    (date_format script_dir : string) (preserve_paths : bool)
    (file_entry : file_entry) (e : entry) :
  name_file category_name pattern cfg date_format script_dir preserve_paths file_entry
    = Ok e →
  ∃ ctx m,
    build_context file_entry = Ok ctx ∧ apply_rules cfg ctx = Ok m ∧
    (∀ k v, dget k m = Some v → dget k (Mapping e) = Some v) ∧
    (∀ k, dmem k (Mapping e) = true →
          dmem k m = true ∨
          (k ∈ AUTO_PLACEHOLDERS ∧ contains ("{" +:+ k +:+ "}") pattern = true)) ∧
    NewFileName e = replace_placeholders pattern (Mapping e) ∧
    NewFileName e ≠ "" ∧
    OriginalFile e = file_entry ∧ Category e = category_name.
Proof.
  unfold name_file. intros (ctx & Hctx & (m & Hm & Hrest)%rbind_Ok)%rbind_Ok.
  exists ctx, m. split; [done|]. split; [done|].
  cbn zeta in Hrest.
  set (v1 := SStr (strftime date_format _)) in Hrest.
  set (m1 := if contains "{Date}" pattern && negb (dmem "Date" m)
             then dset "Date" v1 m else m) in Hrest.
  set (v2 := SStr (extension ctx)) in Hrest.
  set (m2 := if contains "{ext}" pattern && negb (dmem "ext" m1)
             then dset "ext" v2 m1 else m1) in Hrest.
  set (v3 := SStr _) in Hrest.
  set (m3 := if contains "{Rank}" pattern && negb (dmem "Rank" m2)
             then dset "Rank" v3 m2 else m2) in Hrest.
  destruct (guarded_dset_spec (contains "{Date}" pattern) "Date" v1 m) as [Hk1 Ha1].
  destruct (guarded_dset_spec (contains "{ext}" pattern) "ext" v2 m1) as [Hk2 Ha2].
  destruct (guarded_dset_spec (contains "{Rank}" pattern) "Rank" v3 m2) as [Hk3 Ha3].
  fold m1 in Hk1, Ha1. fold m2 in Hk2, Ha2. fold m3 in Hk3, Ha3.
  destruct (String.eqb_spec (replace_placeholders pattern m3) "") as [|Hne]; [done|].
  injection Hrest as <-. cbn [Mapping NewFileName NewPath OriginalFile Category].
  split_and!; try done.
  - intros k v Hk. by apply Hk3, Hk2, Hk1.
  - intros k [Hk|[-> Hp] ]%Ha3.
    + apply Ha2 in Hk as [Hk|[-> Hp] ].
      * apply Ha1 in Hk as [Hk|[-> Hp] ]; [by left|].
        right. split; [|done]. apply list_elem_of_here.
      * right. split; [|done]. apply list_elem_of_further, list_elem_of_here.
    + right. split; [|done].
      apply list_elem_of_further, list_elem_of_further, list_elem_of_here.
Qed.

End NameFile.

Section NameFileExample.
Import Naming.
Local Existing Instance literal_runtime.

Lemma name_file_entry_shape_witness :
  ∃ e, name_file "Web_Content" "GW_Web_Page{ext}"
         (fixed_name_rules "Web_Content" "GW_Web_Page{ext}").2
         "%Y-%m-%d" "/out" true (site_file "page_a.html" 1 90) = Ok e ∧
       NewFileName e = "GW_Web_Page.html" ∧ dget "ext" (Mapping e) = Some (SStr ".html").
Proof.
  pose (e := match name_file "Web_Content" "GW_Web_Page{ext}"
                     (fixed_name_rules "Web_Content" "GW_Web_Page{ext}").2
                     "%Y-%m-%d" "/out" true (site_file "page_a.html" 1 90) with
             | Ok e => e
             | Raise _ => unscored_entry "" ""
             end).
  assert (Hrun : name_file "Web_Content" "GW_Web_Page{ext}"
                   (fixed_name_rules "Web_Content" "GW_Web_Page{ext}").2
                   "%Y-%m-%d" "/out" true (site_file "page_a.html" 1 90) = Ok e)
    by (vm_compute; reflexivity).
  exists e. split; [exact Hrun|].
  destruct (name_file_entry_shape _ _ _ _ _ _ _ _ Hrun)
    as (ctx & m & _ & _ & _ & _ & Hname & _).
  split; [|reflexivity]. rewrite Hname. reflexivity.
Defined.

End NameFileExample.

Section DateRoundTrip.
Import Naming.

#[local] Arguments String.append !_ _ : simpl nomatch.

Lemma year_writes (y : nat) :
  1000 ≤ y < 10 * 1000 → writes 4 y (str_of_nat y) = true.
Proof.
  intros Hy.
  assert (Hall : forallb (λ y, writes 4 y (str_of_nat y)) (seq 1000 (9 * 1000)) = true)
    by (vm_compute; reflexivity).
  rewrite forallb_forall in Hall. apply Hall, in_seq. lia.
Qed.

Lemma pad2_writes (n : nat) : n ≤ 99 → writes 2 n (pad2 n) = true.
Proof.
  intros Hn.
  assert (Hall : forallb (λ n, writes 2 n (pad2 n)) (seq 0 100) = true)
    by (vm_compute; reflexivity).
  rewrite forallb_forall in Hall. apply Hall, in_seq. lia.
Qed.

Lemma writes_4 (v : nat) (s : string) :
  writes 4 v s = true →
  ∃ a b c d, s = String a (String b (String c (String d ""))) ∧
             is_digit a = true ∧ is_digit b = true ∧ is_digit c = true ∧
             is_digit d = true ∧ digits_value s = v.
Proof.
  unfold writes. intros [[Hlen Hdig]%andb_true_iff Hval%Nat.eqb_eq]%andb_true_iff.
  destruct s as [|a [|b [|c [|d [|? ?] ] ] ] ]; try done.
  cbn in Hdig. repeat (apply andb_true_iff in Hdig as [? Hdig]).
  by exists a, b, c, d.
Qed.

Lemma writes_2 (v : nat) (s : string) :
  writes 2 v s = true →
  ∃ a b, s = String a (String b "") ∧ is_digit a = true ∧ is_digit b = true ∧
         digits_value s = v.
Proof.
  unfold writes. intros [[Hlen Hdig]%andb_true_iff Hval%Nat.eqb_eq]%andb_true_iff.
  destruct s as [|a [|b [|? ?] ] ]; try done.
  cbn in Hdig. repeat (apply andb_true_iff in Hdig as [? Hdig]).
  by exists a, b.
Qed.

(** The second alternative of the date pattern, on a date written with
    dashes. *)
Lemma date_token_here_dashed (y m d : nat) (ys ms ds rest : string) :
  writes 4 y ys = true → writes 2 m ms = true → writes 2 d ds = true →
  date_token_here (ys +:+ String "-" (ms +:+ String "-" (ds +:+ rest)))
  = Some (ys, ms, ds).
Proof.
  intros (a & b & c & e & -> & Ha & Hb & Hc & He & _)%writes_4
         (f & g & -> & Hf & Hg & _)%writes_2 (h & i & -> & Hh & Hi & _)%writes_2.
  unfold date_token_here, digits_prefix, take_str. cbn.
  repeat (rewrite ?Ha, ?Hb, ?Hc, ?He, ?Hf, ?Hg, ?Hh, ?Hi; cbn).
  by destruct rest.
Qed.

Lemma date_token_here_no_digit (c : ascii) (r : string) :
  is_digit c = false → date_token_here (String c r) = None.
Proof.
  intros Hc. unfold date_token_here, digits_prefix, take_str.
  assert (H8 : forallb is_digit (String.list_ascii_of_string
                 (String.substring 0 8 (String c r))) = false).
  { cbn. by rewrite Hc. }
  assert (H4 : forallb is_digit (String.list_ascii_of_string
                 (String.substring 0 4 (String c r))) = false).
  { cbn. by rewrite Hc. }
  by rewrite H8, H4, !andb_false_r.
Qed.

Lemma date_token_search_after (prefix s : string) :
  digit_free prefix = true →
  date_token_search (prefix +:+ s) = date_token_search s.
Proof.
  unfold digit_free. induction prefix as [|c prefix IH]; [done|].
  cbn [String.list_ascii_of_string forallb].
  intros [Hc%negb_true_iff Hp]%andb_true_iff.
  cbn [String.append date_token_search].
  rewrite date_token_here_no_digit by done. by apply IH.
Qed.

Lemma date_token_search_here (s : string) (ymd : string * string * string) :
  date_token_here s = Some ymd → date_token_search s = Some ymd.
Proof. intros Hs. destruct s; cbn [date_token_search]; by rewrite Hs. Qed.

End DateRoundTrip.

Section DateRoundTripTheorem.
Import Naming.
Context `{PyRuntime}.

#[local] Arguments String.append !_ _ : simpl nomatch.

(** X19.  A date written in a file name with the default date format is
    read back as it is: for a calendar date at midnight whose year has four
    digits, the date derived from a name that holds the formatted date, after
    a text without digit and before any text, is that date, whatever the
    modification time recorded for the file. *)
Theorem derive_date_reads_back_default_format (d : datetime)
    (before after : string) (modified : field string) :
  midnight_date d → digit_free before = true →
  derive_date (before +:+ strftime (translate_date_format "yyyy-MM-dd") d +:+ after)
              modified = d.
Proof.
  intros (Hy & Hm & Hd & Hh & Hmin & Hs) Hbefore.
  change (translate_date_format "yyyy-MM-dd") with "%Y-%m-%d".
  assert (Hfmt : strftime "%Y-%m-%d" d
            = str_of_nat (year d) +:+ String "-" (pad2 (month d) +:+
                String "-" (pad2 (day d) +:+ ""))).
  { reflexivity. }
  assert (Hday : day d ≤ 31).
  { etrans; [apply Hd|]. unfold days_in_month.
    destruct (month d) as [|[|[|[|[|[|[|[|[|[|[|[|?] ] ] ] ] ] ] ] ] ] ] ]; try lia;
      destruct (is_leap (year d)); lia. }
  pose proof (year_writes (year d) Hy) as Hys.
  pose proof (pad2_writes (month d) ltac:(lia)) as Hms.
  pose proof (pad2_writes (day d) ltac:(lia)) as Hds.
  assert (Hname : strftime "%Y-%m-%d" d +:+ after
            = str_of_nat (year d) +:+ String "-" (pad2 (month d) +:+
                String "-" (pad2 (day d) +:+ after))).
  { rewrite Hfmt, append_assoc. cbn [String.append]. f_equal. f_equal.
    rewrite append_assoc. cbn [String.append]. f_equal. f_equal.
    by rewrite append_assoc. }
  unfold derive_date. rewrite date_token_search_after by done.
  rewrite Hname.
  rewrite (date_token_search_here _ _
             (date_token_here_dashed _ _ _ _ _ _ _ Hys Hms Hds)).
  unfold strptime_ymd. cbn [fst snd].
  apply writes_4 in Hys as (? & ? & ? & ? & _ & _ & _ & _ & _ & ->).
  apply writes_2 in Hms as (? & ? & _ & _ & _ & ->).
  apply writes_2 in Hds as (? & ? & _ & _ & _ & ->).
  assert (Hvalid : ((1 <=? year d) && (1 <=? month d) && (month d <=? 12) &&
                    (1 <=? day d) && (day d <=? days_in_month (year d) (month d)))%nat
                   = true).
  { rewrite !andb_true_iff, !Nat.leb_le. lia. }
  rewrite Hvalid. cbn [default from_option]. destruct d as [y m dd h mi s].
  cbn in *. by subst.
Qed.

End DateRoundTripTheorem.

Section DateRoundTripExample.
Import Naming.
Local Existing Instance literal_runtime.

Lemma derive_date_reads_back_default_format_witness :
  midnight_date christmas_2024 ∧
  derive_date "GW_Report_Statistics_2024-12-25.csv" (Val "2023-01-01") = christmas_2024.
Proof.
  assert (Hd : midnight_date christmas_2024).
  { unfold midnight_date. cbn. lia. }
  split; [exact Hd|].
  exact (derive_date_reads_back_default_format christmas_2024
           "GW_Report_Statistics_" ".csv" (Val "2023-01-01") Hd eq_refl).
Defined.

End DateRoundTripExample.

Section ExtensionNormalForm.
Import Naming.

#[local] Arguments String.append !_ _ : simpl nomatch.

Lemma is_space_lower_char (c : ascii) : is_space (lower_char c) = is_space c.
Proof. by destruct c as [[] [] [] [] [] [] [] []]. Qed.

Lemma lstrip_lower (s : string) : lstrip (lower s) = lower (lstrip s).
Proof.
  induction s as [|c s IH]; cbn; [done|].
  rewrite is_space_lower_char. by destruct (is_space c).
Qed.

Lemma rstrip_lower (s : string) : rstrip (lower s) = lower (rstrip s).
Proof.
  induction s as [|c s IH]; cbn; [done|].
  rewrite IH, is_space_lower_char.
  destruct (rstrip s); cbn; [|done]. by destruct (is_space c).
Qed.

Lemma strip_lower (s : string) : strip (lower s) = lower (strip s).
Proof. unfold strip. by rewrite lstrip_lower, rstrip_lower. Qed.

Lemma rstrip_idem (s : string) : rstrip (rstrip s) = rstrip s.
Proof.
  induction s as [|c s IH]; cbn; [done|].
  destruct (rstrip s) as [|d r'] eqn:Hr.
  - destruct (is_space c) eqn:Hc; cbn; [done|]. by rewrite Hc.
  - cbn [rstrip]. cbn [rstrip] in IH. by rewrite IH.
Qed.

Lemma lstrip_head (s : string) :
  lstrip s = "" ∨ ∃ c r, lstrip s = String c r ∧ is_space c = false.
Proof.
  induction s as [|c s IH]; cbn; [by left|].
  destruct (is_space c) eqn:Hc; [done|]. right. by exists c, s.
Qed.

Lemma rstrip_cons (c : ascii) (r : string) :
  is_space c = false → rstrip (String c r) = String c (rstrip r).
Proof. intros Hc. cbn. rewrite Hc. by destruct (rstrip r). Qed.

Lemma strip_idem (s : string) : strip (strip s) = strip s.
Proof.
  unfold strip. destruct (lstrip_head s) as [->|(c & r & -> & Hc)]; [done|].
  rewrite rstrip_cons by done. cbn [lstrip]. rewrite Hc.
  by rewrite rstrip_cons, rstrip_idem.
Qed.

(** X21.  The extension that [normalize_extension] returns is in normal
    form: it is empty exactly for a false value, otherwise it starts with a
    dot; it is in lower case; and normalizing it again gives it back. *)
Theorem normalize_extension_normal_form (value : pyval) (x : string) :
  normalize_extension value = Ok x →
  (x = "" ↔ truthy value = false) ∧
  (x ≠ "" → startswith "." x = true) ∧
  lower x = x ∧
  normalize_extension (PStr x) = Ok x.
Proof.
  unfold normalize_extension.
  destruct (truthy value) eqn:Hv; cbn [negb]; [|by intros [= <-] ].
  destruct value as [[| | |s]|]; try done.
  set (clean := lower (strip s)).
  assert (Hlower : lower clean = clean) by apply lower_lower.
  assert (Hstrip : strip clean = clean).
  { unfold clean. by rewrite <- strip_lower, strip_idem. }
  assert (Hrstrip : rstrip clean = clean).
  { unfold clean, strip. by rewrite <- !rstrip_lower, rstrip_idem. }
  clearbody clean. unfold startswith. destruct (String.prefix "." clean) eqn:Hdot; intros [= <-].
  - assert (Hne : clean ≠ "") by (by destruct clean).
    split_and!; [done|done|done|].
    assert (Heq : String.eqb clean "" = false) by by apply String.eqb_neq.
    unfold PStr. cbn [truthy scalar_truthy]. rewrite Heq. cbn [negb].
    rewrite Hstrip, Hlower. unfold startswith. by rewrite Hdot.
  - cbn [String.append].
    assert (Hprefix : String.prefix "." (String "." clean) = true).
    { rewrite prefix_cons. by destruct clean. }
    split_and!; [done|done| |].
    + cbn. by rewrite Hlower.
    + unfold PStr. cbn [truthy scalar_truthy String.eqb negb].
      assert (Hs : strip (String "." clean) = String "." clean).
      { unfold strip. cbn [lstrip]. change (is_space ".") with false. cbn iota.
        by rewrite rstrip_cons, Hrstrip. }
      rewrite Hs. cbn [lower]. rewrite Hlower.
      change (lower_char ".") with "."%char.
      unfold startswith. by rewrite Hprefix.
Qed.

End ExtensionNormalForm.

Section ExtensionNormalFormExample.
Import Naming.

Lemma normalize_extension_normal_form_witness :
  normalize_extension (PStr " CSV ") = Ok ".csv" ∧
  normalize_extension (PStr ".csv") = Ok ".csv".
Proof.
  assert (Hrun : normalize_extension (PStr " CSV ") = Ok ".csv")
    by (vm_compute; reflexivity).
  split; [exact Hrun|].
  exact (proj2 (proj2 (proj2 (normalize_extension_normal_form _ _ Hrun)))).
Defined.

End ExtensionNormalFormExample.

Section CompactDate.
Import Naming.
Context `{PyRuntime}.

#[local] Arguments String.append !_ _ : simpl nomatch.

(** The first alternative of the date pattern, on eight digits. *)
Lemma date_token_here_compact (y m d : nat) (ys ms ds rest : string) :
  writes 4 y ys = true → writes 2 m ms = true → writes 2 d ds = true →
  date_token_here (ys +:+ (ms +:+ (ds +:+ rest))) = Some (ys, ms, ds).
Proof.
  intros (a & b & c & e & -> & Ha & Hb & Hc & He & _)%writes_4
         (f & g & -> & Hf & Hg & _)%writes_2 (h & i & -> & Hh & Hi & _)%writes_2.
  unfold date_token_here, digits_prefix, take_str.
  destruct rest; cbn;
    repeat (rewrite ?Ha, ?Hb, ?Hc, ?He, ?Hf, ?Hg, ?Hh, ?Hi; cbn); done.
Qed.

(** X22.  A date written in a file name on eight digits, year, month and
    day, is read back as it is: for a calendar date at midnight whose year
    has four digits, the date derived from a name that holds the eight
    digits, after a text without digit and before any text, is that date,
    whatever the modification time recorded for the file. *)
Theorem derive_date_reads_back_compact_format (d : datetime)
    (before after : string) (modified : field string) :
  midnight_date d → digit_free before = true →
  derive_date (before +:+ strftime "%Y%m%d" d +:+ after) modified = d.
Proof.
  intros (Hy & Hm & Hd & Hh & Hmin & Hs) Hbefore.
  assert (Hfmt : strftime "%Y%m%d" d
            = str_of_nat (year d) +:+ (pad2 (month d) +:+ (pad2 (day d) +:+ "")))
    by reflexivity.
  assert (Hday : day d ≤ 31).
  { etrans; [apply Hd|]. unfold days_in_month.
    destruct (month d) as [|[|[|[|[|[|[|[|[|[|[|[|?] ] ] ] ] ] ] ] ] ] ] ]; try lia;
      destruct (is_leap (year d)); lia. }
  pose proof (year_writes (year d) Hy) as Hys.
  pose proof (pad2_writes (month d) ltac:(lia)) as Hms.
  pose proof (pad2_writes (day d) ltac:(lia)) as Hds.
  assert (Hname : strftime "%Y%m%d" d +:+ after
            = str_of_nat (year d) +:+ (pad2 (month d) +:+ (pad2 (day d) +:+ after))).
  { rewrite Hfmt, !append_assoc. by cbn [String.append]. }
  unfold derive_date. rewrite date_token_search_after by done.
  rewrite Hname.
  rewrite (date_token_search_here _ _
             (date_token_here_compact _ _ _ _ _ _ _ Hys Hms Hds)).
  unfold strptime_ymd. cbn [fst snd].
  apply writes_4 in Hys as (? & ? & ? & ? & _ & _ & _ & _ & _ & ->).
  apply writes_2 in Hms as (? & ? & _ & _ & _ & ->).
  apply writes_2 in Hds as (? & ? & _ & _ & _ & ->).
  assert (Hvalid : ((1 <=? year d) && (1 <=? month d) && (month d <=? 12) &&
                    (1 <=? day d) && (day d <=? days_in_month (year d) (month d)))%nat
                   = true).
  { rewrite !andb_true_iff, !Nat.leb_le. lia. }
  rewrite Hvalid. cbn [default from_option]. destruct d as [y m dd h mi s].
  cbn in *. by subst.
Qed.

End CompactDate.

Section CompactDateExample.
Import Naming.
Local Existing Instance literal_runtime.

Lemma derive_date_reads_back_compact_format_witness :
  midnight_date christmas_2024 ∧
  derive_date "stats_report_20241225_final.csv" Absent = christmas_2024.
Proof.
  assert (Hd : midnight_date christmas_2024).
  { unfold midnight_date. cbn. lia. }
  split; [exact Hd|].
  exact (derive_date_reads_back_compact_format christmas_2024
           "stats_report_" "_final.csv" Absent Hd eq_refl).
Defined.

End CompactDateExample.

(** * Further properties of the processing of a classification *)

Section GroupSizes.
Import Naming.

Lemma sum_lengths_dset_append {A} (d : list (string * list A)) (k : string) (x : A) :
  sum_list (length <$> (dset k (default [] (dget k d) ++ [x]) d).*2)
  = S (sum_list (length <$> d.*2)).
Proof.
  induction d as [|[k' v] d IH]; cbn; [done|].
  destruct (String.eqb k k'); cbn.
  - rewrite length_app. cbn. lia.
  - by rewrite IH.
Qed.

(** Every entry is in one group of [by_path]. *)
Lemma by_path_sizes (ms : list entry) :
  sum_list (length <$> (by_path ms).*2) = length ms.
Proof.
  induction ms as [|e ms IH] using rev_ind; [done|].
  rewrite by_path_snoc, sum_lengths_dset_append, IH, length_app. cbn. lia.
Qed.

(** A conflict takes at least two entries. *)
Lemma conflict_groups_sizes (ms : list entry) :
  2 * length (conflict_groups ms) ≤ length ms.
Proof.
  rewrite <- (by_path_sizes ms). unfold conflict_groups.
  induction (by_path ms) as [|[p items] d IH]; [cbn; lia|].
  cbn -[Nat.ltb Nat.mul].
  destruct (Nat.ltb_spec 1 (length items)); cbn -[Nat.ltb Nat.mul]; lia.
Qed.

End GroupSizes.

Section NamesKept.
Import Naming.

#[local] Arguments String.append !_ _ : simpl nomatch.

Lemma append_nonempty_r (a b : string) : b ≠ "" → a +:+ b ≠ "".
Proof. intros Hb. destruct a; [done|]. cbn. done. Qed.

Lemma rewrite_entry_nonempty (strategy : string) (k : nat) (e : entry) :
  NewFileName e ≠ "" → NewFileName (rewrite_entry strategy k e) ≠ "".
Proof.
  intros He. unfold rewrite_entry.
  destruct (String.eqb strategy "AddVersion"); cbn [NewFileName set_new_name].
  { apply append_nonempty_r. done. }
  destruct (String.eqb strategy "AppendRank"); cbn [NewFileName set_new_name]; [|done].
  apply append_nonempty_r. done.
Qed.

Lemma resolve_group_nonempty (strategy : string) (items : list nat) (st : list entry) :
  Forall (λ e, NewFileName e ≠ "") st →
  Forall (λ e, NewFileName e ≠ "") (resolve_group strategy items st).
Proof.
  unfold resolve_group. generalize (imap pair items). intros l. revert st.
  induction l as [|ii l IH]; intros st Hst; [done|].
  cbn [foldl]. apply IH. destruct ii.1 as [|k]; [done|].
  apply Forall_alter; [done|]. intros e _. apply rewrite_entry_nonempty.
Qed.

Lemma resolve_groups_nonempty (strategy : string) (groups : list (string * list nat))
    (st st' : list entry) :
  resolve_groups strategy groups (Ok st) = Ok st' →
  Forall (λ e, NewFileName e ≠ "") st → Forall (λ e, NewFileName e ≠ "") st'.
Proof.
  revert st. induction groups as [|g groups IH]; intros st.
  - by intros [= <-].
  - rewrite resolve_groups_cons.
    destruct (sort_group st g.2) as [items|err]; cbn [rbind];
      [|by rewrite resolve_groups_raised].
    intros Hloop Hst. eapply IH; [exact Hloop|]. by apply resolve_group_nonempty.
Qed.

End NamesKept.

Section Accounting.
Import Naming.
Context `{PyRuntime}.

Lemma name_file_nonempty (category_name pattern : string) (cfg : category_config)
    (date_format script_dir : string) (preserve_paths : bool)
    (file_entry : file_entry) (e : entry) :
  name_file category_name pattern cfg date_format script_dir preserve_paths file_entry
    = Ok e → NewFileName e ≠ "".
Proof.
  unfold name_file. intros (ctx & _ & (m & _ & Hrest)%rbind_Ok)%rbind_Ok.
  cbn zeta in Hrest.
  match type of Hrest with (if String.eqb ?n "" then _ else _) = _ =>
    destruct (String.eqb_spec n "") as [|Hne]; [done|] end.
  by injection Hrest as <-.
Qed.

Lemma process_files_accounted (category_name pattern : string) (cfg : category_config)
    (date_format script_dir : string) (preserve_paths : bool)
    (files : list file_entry) (st : summary * list entry) (done_ attempted : nat) :
  accounted done_ attempted st →
  accounted (done_ + length files) (attempted + length files)
    (process_files category_name pattern cfg date_format script_dir preserve_paths
                   files st).
Proof.
  unfold process_files. revert st done_ attempted.
  induction files as [|f files IH]; intros st done_ attempted Hst.
  - cbn. by rewrite !Nat.add_0_r.
  - cbn [foldl length].
    replace (done_ + S (length files)) with (S done_ + length files) by lia.
    replace (attempted + S (length files)) with (S attempted + length files) by lia.
    apply IH. destruct Hst as (Hren & Hall & Htot & Hle & Hnames).
    destruct (name_file category_name pattern cfg date_format script_dir
                        preserve_paths f) as [e|err] eqn:Hname; unfold accounted; cbn.
    + rewrite length_app. cbn. split_and!; [lia..|].
      apply Forall_app. split; [done|]. constructor; [|constructor].
      by eapply name_file_nonempty.
    + split_and!; [lia..|done].
Qed.

Lemma add_errors_accounted (n done_ attempted : nat) (st : summary * list entry) :
  accounted done_ attempted st →
  accounted (done_ + n) attempted (add_errors n st.1, st.2).
Proof.
  intros (Hren & Hall & Htot & Hle & Hnames). unfold accounted. cbn.
  split_and!; [lia..|done].
Qed.

(** X18.  The summary of a classification that is processed without an
    exception: every file of the classification is either renamed or
    counted as an error; the files renamed are the entries of the result,
    none of which has an empty new name; the total counts the files of the
    categories that have a pattern, so that it falls short of the two other
    counters by the files of the categories that have none; and a conflict
    takes at least two renamed files. *)
Theorem process_classification_accounts
    (classifications : list (string * list file_entry)) (cfg : config)
    (script_dir : string) (s : summary) (entries : list entry) :
  process_classification classifications cfg script_dir = Ok (s, entries) →
  FilesRenamed s = length entries ∧
  FilesRenamed s + Errors s = files_in classifications ∧
  TotalFiles s = files_attempted (default [] (NamingRules cfg)) classifications ∧
  TotalFiles s ≤ FilesRenamed s + Errors s ∧
  2 * Conflicts s ≤ FilesRenamed s ∧
  Forall (λ e, NewFileName e ≠ "") entries.
Proof.
  unfold process_classification.
  destruct (NamingRules cfg) as [category_rules|]; [|done]. cbn [default from_option].
  set (step := λ (st : summary * list entry) (cf : string * list file_entry), _).
  set (start := ({| TotalFiles := 0; FilesRenamed := 0; Conflicts := 0; Errors := 0 |},
                 @nil entry)).
  assert (Hloop : ∀ cls st done_ attempted,
            accounted done_ attempted st →
            accounted (done_ + files_in cls)
                      (attempted + files_attempted category_rules cls)
                      (foldl step st cls)).
  { induction cls as [|[name files] cls IH]; intros st done_ attempted Hst.
    - cbn. unfold files_in, files_attempted, files_in. cbn.
      by rewrite !Nat.add_0_r.
    - cbn [foldl].
      assert (Hhead : accounted (done_ + length files)
                (attempted + if has_pattern category_rules name then length files else 0)
                (step st (name, files))).
      { unfold step, has_pattern. destruct files as [|f files].
        - cbn [length]. rewrite Nat.add_0_r.
          assert (attempted + (if match dget name category_rules with
                                  | Some category_config =>
                                      match Pattern category_config with
                                      | Val pattern => negb (String.eqb pattern "")
                                      | _ => false
                                      end
                                  | None => false
                                  end then 0 else 0) = attempted) as ->; [|done].
          destruct (dget name category_rules) as [c|]; [|lia].
          destruct (Pattern c) as [| |p]; [lia..|]. destruct (String.eqb p ""); cbn; lia.
        - destruct (dget name category_rules) as [c|].
          + destruct (Pattern c) as [| |p].
            * rewrite Nat.add_0_r. by apply add_errors_accounted.
            * rewrite Nat.add_0_r. by apply add_errors_accounted.
            * destruct (String.eqb p ""); cbn [negb].
              -- rewrite Nat.add_0_r. by apply add_errors_accounted.
              -- by apply process_files_accounted.
          + rewrite Nat.add_0_r. by apply add_errors_accounted. }
      apply IH in Hhead.
      unfold files_in, files_attempted, files_in in *. cbn.
      destruct (has_pattern category_rules name); cbn;
        by rewrite <- !Nat.add_assoc in Hhead. }
  specialize (Hloop classifications start 0 0).
  destruct Hloop as (Hren & Hall & Htot & Hle & Hnames).
  { unfold accounted, start. cbn. split_and!; [done..|constructor]. }
  rewrite handle_conflicts_unfold.
  intros (resolved & (st' & Hgroups & [= <-])%rbind_Ok & [= <- <-])%rbind_Ok.
  cbn [FilesRenamed Errors TotalFiles Conflicts fst snd].
  pose proof (resolve_groups_nonempty _ _ _ _ Hgroups Hnames) as Hnames'.
  apply resolve_groups_inv in Hgroups as ([Hlen _] & _).
  pose proof (conflict_groups_sizes (foldl step start classifications).2) as Hsizes.
  cbn in Hall, Htot, Hle. split_and!; [lia|done|done|lia|lia|done].
Qed.

End Accounting.

Section AccountingExample.
Import Naming.
Local Existing Instance literal_runtime.

Lemma process_classification_accounts_witness :
  ∃ s entries,
    process_classification web_classification web_config "/out" = Ok (s, entries) ∧
    FilesRenamed s = 2 ∧ Errors s = 1 ∧ TotalFiles s = 2 ∧ Conflicts s = 1 ∧
    length entries = 2.
Proof.
  pose (r := match process_classification web_classification web_config "/out" with
             | Ok r => r
             | Raise _ => ({| TotalFiles := 0; FilesRenamed := 0; Conflicts := 0;
                              Errors := 0 |}, [])
             end).
  assert (Hr : process_classification web_classification web_config "/out"
               = Ok (r.1, r.2)) by (vm_compute; reflexivity).
  exists r.1, r.2. split; [exact Hr|].
  destruct (process_classification_accounts _ _ _ _ _ Hr) as (Hren & _).
  split_and!; [reflexivity..|].
  by rewrite <- Hren.
Defined.

End AccountingExample.
